(** * PyChunkedGraph: edit operations, the edit handlers and the
      construction of the abstract layers

    A shallow embedding of
    - [pychunkedgraph/backend/graphoperation.py]
      ([GraphEditOperation], [MergeOperation], [SplitOperation],
      [MulticutOperation]),
    - [pychunkedgraph/app/app_utils.py] ([get_cg], [get_log_db],
      [toboolean], [tobinary], [tobinary_multiples]),
    - [pychunkedgraph/app/segmentation/common.py]
      ([after_request], [_parse_timestamp], [publish_edit], [handle_merge],
      [handle_split], [handle_undo], [handle_redo], [handle_rollback],
      [all_user_operations], [tabular_change_log_recent]),
    - [pychunkedgraph/ingest/initialization/abstract_layers.py]
      ([_filter_latest_ids], [_get_cross_edges_raw], [_write_components]).

    Python code that raises is modelled with [result]; code that talks to
    the backing store runs in the monad [M], which threads the store and
    collects the calls made to collaborators as a list of events. *)

From Stdlib Require Import ZArith NArith Lia Ascii String.
From Stdlib.Strings Require Import Byte.
From stdpp Require Import base tactics option list sorting strings pretty gmap.

Local Open Scope string_scope.
Local Open Scope N_scope.
Local Open Scope list_scope.
Local Open Scope stdpp_scope.

(** ** Exceptions and results *)

(** The exception classes the modelled code raises or lets through.  The
    messages are dropped: no property below depends on them. *)
Inductive exn : Type :=
  | PreconditionError
  | PostconditionError
  | LockingError
  | BadRequest
  | InternalServerError
  | TypeError
  | KeyError
  | NameError
  | ValueError
  | AssertionError
  | IndexError
  | AttributeError
  | OverflowError
  | CollaboratorError (tag : string).

Global Instance exn_eq_dec : EqDecision exn.
Proof. solve_decision. Defined.

Inductive result (A : Type) : Type :=
  | Return (a : A)
  | Raise (e : exn).
Global Arguments Return {A} a.
Global Arguments Raise {A} e.

Definition result_map {A B} (f : A → B) (r : result A) : result B :=
  match r with
  | Return a => Return (f a)
  | Raise e => Raise e
  end.

Definition result_bind {A B} (r : result A) (k : A → result B) : result B :=
  match r with
  | Return a => k a
  | Raise e => Raise e
  end.

Notation "'do!' x ':=' c 'in' k" := (result_bind c (λ x, k))
  (at level 10, x pattern, c at level 100, k at level 200).

(** [d[key]] on a dict in which [key] may be missing. *)
Definition getitem {A} (cell : option A) : result A :=
  match cell with
  | Some v => Return v
  | None => Raise KeyError
  end.

(** ** The store monad *)

(** A computation over a store of type [S] that may raise and that reports
    the calls it makes to its collaborators as events of type [E]. *)
Definition M (S E A : Type) : Type := S → result A * S * list E.

Section monad.
Context {S E : Type}.

Definition ret {A} (a : A) : M S E A := λ s, (Return a, s, []).

Definition raise {A} (e : exn) : M S E A := λ s, (Raise e, s, []).

Definition bind {A B} (m : M S E A) (k : A → M S E B) : M S E B := λ s,
  match m s with
  | (Return a, s1, t1) =>
      match k a s1 with
      | (r, s2, t2) => (r, s2, t1 ++ t2)
      end
  | (Raise e, s1, t1) => (Raise e, s1, t1)
  end.

Definition emit (ev : E) : M S E unit := λ s, (Return tt, s, [ev]).

(** A pure computation that may raise. *)
Definition lift {A} (r : result A) : M S E A := λ s, (r, s, []).

(** A read of the store. *)
Definition reads {A} (f : S → result A) : M S E A := λ s, (f s, s, []).

(** A call that may change the store. *)
Definition call {A} (f : S → result A * S) : M S E A := λ s,
  match f s with
  | (r, s1) => (r, s1, [])
  end.

(** [try: m except e: h e], where [h] says which exceptions it catches. *)
Definition try_except {A} (m : M S E A) (h : exn → option (M S E A))
    : M S E A := λ s,
  match m s with
  | (Return a, s1, t1) => (Return a, s1, t1)
  | (Raise e, s1, t1) =>
      match h e with
      | Some k =>
          match k s1 with
          | (r, s2, t2) => (r, s2, t1 ++ t2)
          end
      | None => (Raise e, s1, t1)
      end
  end.

Definition outcome {A} (x : result A * S * list E) : result A := x.1.1.
Definition final_store {A} (x : result A * S * list E) : S := x.1.2.
Definition events {A} (x : result A * S * list E) : list E := x.2.
End monad.

Notation "'let*' x ':=' c 'in' k" := (bind c (λ x, k))
  (at level 10, x pattern, c at level 100, k at level 200).

(** ** Basic data of the graph *)

(** Node, root and operation ids are [np.uint64] values. *)
Definition node_id := N.
Definition NODE_ID_MODULUS : N := 2 ^ 64.

(** Time stamps (the store's cell time stamps), on a discrete clock. *)
Definition timestamp := Z.

(** A coordinate triple or a bounding box padding: a sequence of
    integers; a list of them is the 2-d array the code builds with
    [np.atleast_2d]. *)
Definition coordinates := list Z.

Definition edge := (node_id * node_id)%type.

(** [edges.ravel()] of an [n x 2] array: row-major flattening. *)
Definition ravel (edges : list edge) : list node_id :=
  flat_map (λ e, [e.1; e.2]) edges.

(** [np.unique]: the sorted distinct values. *)
Definition np_unique (ids : list node_id) : list node_id :=
  merge_sort N.le (remove_dups ids).

(** * [backend/graphoperation.py] *)

Section graphoperation.
(** [Store]: the state of the backing wide-column store.
    [HierarchyCells]: the column values of a hierarchy row mutation.
    [Affinity]: [np.float32] edge weights; the code only passes them on. *)
Context {Store HierarchyCells Affinity : Type}.

(** ** Operation log rows *)

(** The [column_keys.OperationLogs] columns of a log row.  A field is
    [None] when the row has no such column; otherwise it holds the value
    of the newest cell ([log_record[column][0].value]).  The same shape
    serves for the [val_dict] that [create_log_record] writes. *)
Record LogRecord : Type := {
  UserID : option string;
  RootID : option (list node_id);
  SourceID : option (list node_id);
  SinkID : option (list node_id);
  SourceCoordinate : option (list coordinates);
  SinkCoordinate : option (list coordinates);
  AddedEdge : option (list edge);
  Affinity_ : option (list Affinity);
  RemovedEdge : option (list edge);
  BoundingBoxOffset : option coordinates;
}.

Inductive Cells : Type :=
  | LogCells (val_dict : LogRecord)
  | NodeCells (val_dict : HierarchyCells).

(** Modelled from the spec: [cg.mutate_row(row_key, val_dict, time_stamp)]
    of the [ChunkedGraph] class, which is not among the sources:
    "mutate_row(row_key, column -> value, timestamp) returning a pending
    mutation object".  The row key is kept as the id it serialises. *)
Record Row : Type := mutate_row {
  row_key : node_id;
  row_cells : Cells;
  row_timestamp : timestamp;
}.

(** ** Collaborators *)

Inductive BackendEvent : Type :=
  | EvGetRoots (ids : list node_id)
  | EvLock (root_ids : list node_id)
  | EvReadLockTimestamp (locked : list node_id) (ops : list node_id)
  | EvRunMulticut (sources sinks : option (list node_id))
  | EvAddEdges (op : node_id) (edges : list edge) (ts : timestamp)
  | EvRemoveEdges (op : node_id) (edges : list edge) (ts : timestamp)
  | EvBulkWrite (rows : list Row) (locks : list node_id) (op : node_id)
      (slow_retry : bool)
  | EvUnlock (locked : list node_id) (op : node_id).

(** The methods of [ChunkedGraph], [RootLock] and [chunkedgraph_edits]
    that [graphoperation.py] calls.  None of them is among the sources, so
    they are parameters here; reads return a result, calls that can
    change the store also return the new store. *)
Record ChunkedGraph : Type := {
  get_chunk_layer : node_id → N;
  get_roots : Store → list node_id → result (list node_id);
  (* RootLock.__enter__: the minted operation id and the locked roots *)
  lock_roots : Store → list node_id → result (node_id * list node_id) * Store;
  (* RootLock.__exit__ *)
  unlock_roots : Store → node_id → list node_id → Store;
  read_consolidated_lock_timestamp :
    Store → list node_id → list node_id → result timestamp;
  (* cg._run_multicut, on the attributes of the operation as they are *)
  run_multicut :
    Store → option (list node_id) → option (list node_id) →
    option (list coordinates) → option (list coordinates) →
    option coordinates → result (list edge);
  (* the new roots, the new level 2 ids and the cells of the rewritten
     hierarchy rows *)
  add_edges_cells :
    Store → node_id → list edge → timestamp → option (list Affinity) →
    result (list node_id * list node_id * list (node_id * HierarchyCells))
    * Store;
  remove_edges_cells :
    Store → node_id → list edge → timestamp →
    result (list node_id * list node_id * list (node_id * HierarchyCells))
    * Store;
  bulk_write :
    Store → list Row → list node_id → node_id → bool → result unit * Store;
}.

Abbreviation Op := (M Store BackendEvent).

Variable cg : ChunkedGraph.

Definition cg_get_roots (ids : list node_id) : Op (list node_id) :=
  let* _ := emit (EvGetRoots ids) in
  reads (λ s, get_roots cg s ids).

Definition cg_read_consolidated_lock_timestamp
    (locked ops : list node_id) : Op timestamp :=
  let* _ := emit (EvReadLockTimestamp locked ops) in
  reads (λ s, read_consolidated_lock_timestamp cg s locked ops).

Definition cg_run_multicut (sources sinks : option (list node_id))
    (source_coords sink_coords : option (list coordinates))
    (bbox_offset : option coordinates) : Op (list edge) :=
  let* _ := emit (EvRunMulticut sources sinks) in
  reads (λ s, run_multicut cg s sources sinks source_coords sink_coords
                bbox_offset).

Definition cg_bulk_write (rows : list Row) (locks : list node_id)
    (operation_id : node_id) (slow_retry : bool) : Op unit :=
  let* _ := emit (EvBulkWrite rows locks operation_id slow_retry) in
  call (λ s, bulk_write cg s rows locks operation_id slow_retry).

Definition stamp_rows (time_stamp : timestamp)
    (cells : list (node_id * HierarchyCells)) : list Row :=
  (λ kc, mutate_row kc.1 (NodeCells kc.2) time_stamp) <$> cells.

(** Modelled from the spec: [cg_edits.add_edges] of
    [backend/chunkedgraph_edits.py], which is not among the sources.  It
    recomputes the hierarchy and returns the new root ids, the new level 2
    ids and the row mutations, "all stamped" with the [time_stamp] it is
    given. *)
Definition cg_edits_add_edges (operation_id : node_id)
    (atomic_edges : list edge) (time_stamp : timestamp)
    (affinities : option (list Affinity))
    : Op (list node_id * list node_id * list Row) :=
  let* _ := emit (EvAddEdges operation_id atomic_edges time_stamp) in
  let* r := call (λ s, add_edges_cells cg s operation_id atomic_edges
                         time_stamp affinities) in
  ret (r.1.1, r.1.2, stamp_rows time_stamp r.2).

(** Modelled from the spec: [cg_edits.remove_edges], as
    [cg_edits_add_edges]. *)
Definition cg_edits_remove_edges (operation_id : node_id)
    (atomic_edges : list edge) (time_stamp : timestamp)
    : Op (list node_id * list node_id * list Row) :=
  let* _ := emit (EvRemoveEdges operation_id atomic_edges time_stamp) in
  let* r := call (λ s, remove_edges_cells cg s operation_id atomic_edges
                         time_stamp) in
  ret (r.1.1, r.1.2, stamp_rows time_stamp r.2).

Record RootLockHandle : Type := {
  operation_id : node_id;
  locked_root_ids : list node_id;
}.

(** Modelled from the spec: the context manager [RootLock] of
    [backend/root_lock.py], which is not among the sources.  Entering
    locks the roots under a freshly minted operation id or fails with
    [LockingError] holding nothing; "on exit, locks are released on every
    path (success, failure, cancellation)". *)
Definition RootLock {A} (root_ids : list node_id)
    (body : RootLockHandle → Op A) : Op A := λ s,
  match lock_roots cg s root_ids with
  | (Raise e, s1) => (Raise e, s1, [EvLock root_ids])
  | (Return (op, locked), s1) =>
      match body {| operation_id := op; locked_root_ids := locked |} s1 with
      | (r, s2, t) =>
          (r, unlock_roots cg s2 op locked,
           EvLock root_ids :: t ++ [EvUnlock locked op])
      end
  end.

(** ** [GraphEditOperation] *)

Record GraphEditOperation : Type := {
  user_id : string;
  source_ids : option (list node_id);
  sink_ids : option (list node_id);
  source_coords : option (list coordinates);
  sink_coords : option (list coordinates);
}.

(** [np.any(np.in1d(sink_ids, source_ids))] *)
Definition any_in1d (sinks sources : list node_id) : bool :=
  existsb (λ k, bool_decide (k ∈ sources)) sinks.

(** The loops that reject the first id whose layer is not 1. *)
Fixpoint expect_supervoxels (ids : list node_id) : result unit :=
  match ids with
  | [] => Return tt
  | i :: rest =>
      if get_chunk_layer cg i =? 1 then expect_supervoxels rest
      else Raise PreconditionError
  end.

(** [GraphEditOperation.__init__].  The [astype] conversions are the
    identity on values that already have the annotated types. *)
Definition GraphEditOperation_init (user : string)
    (sources sinks : option (list node_id))
    (s_coords k_coords : option (list coordinates))
    : result GraphEditOperation :=
  let self := {| user_id := user; source_ids := sources; sink_ids := sinks;
                 source_coords := s_coords; sink_coords := k_coords |} in
  match sinks, sources with
  | Some ks, Some ss =>
      if any_in1d ks ss then Raise PreconditionError
      else
        do! _ := expect_supervoxels ss in
        do! _ := expect_supervoxels ks in
        Return self
  | _, _ => Return self
  end.
(** ** [MergeOperation] *)

Record MergeOperation : Type := {
  merge_base : GraphEditOperation;
  added_edges : list edge;
  affinities : option (list Affinity);
}.

(** [source_ids, sink_ids = edges.transpose()] for edges given as a
    sequence of pairs: the two columns.  [np.atleast_2d] of an empty
    sequence has shape [(1, 0)], and its transpose cannot be unpacked
    into two rows. *)
Definition transpose (edges : list edge)
    : result (list node_id * list node_id) :=
  match edges with
  | [] => Raise ValueError
  | _ => Return (edges.*1, edges.*2)
  end.

(** [MergeOperation.__init__] *)
Definition MergeOperation_init (user : string) (edges : list edge)
    (s_coords k_coords : option (list coordinates))
    (affs : option (list Affinity)) : result MergeOperation :=
  do! cols := transpose edges in
  do! base := GraphEditOperation_init user (Some cols.1) (Some cols.2)
                s_coords k_coords in
  Return {| merge_base := base; added_edges := edges; affinities := affs |}.

(** [MergeOperation.create_log_record] *)
Definition MergeOperation_create_log_record (self : MergeOperation)
    (op : node_id) (time_stamp : timestamp) (root_ids : list node_id)
    : Row :=
  let val_dict :=
    {| UserID := Some (user_id (merge_base self));
       RootID := Some root_ids;
       SourceID := None;
       SinkID := None;
       SourceCoordinate := source_coords (merge_base self);
       SinkCoordinate := sink_coords (merge_base self);
       AddedEdge := Some (added_edges self);
       Affinity_ := affinities self;
       RemovedEdge := None;
       BoundingBoxOffset := None |} in
  mutate_row op (LogCells val_dict) time_stamp.

(** The body of the [with RootLock(...)] block of
    [MergeOperation.apply]. *)
Definition MergeOperation_locked (self : MergeOperation)
    (root_lock : RootLockHandle) : Op (list node_id * list node_id) :=
  let lock_operation_ids :=
    replicate (length (locked_root_ids root_lock))
      (operation_id root_lock) in
  let* time_stamp :=
    cg_read_consolidated_lock_timestamp (locked_root_ids root_lock)
      lock_operation_ids in
  let* edit :=
    cg_edits_add_edges (operation_id root_lock) (added_edges self)
      time_stamp (affinities self) in
  let new_root_ids := edit.1.1 in
  let new_lvl2_ids := edit.1.2 in
  let rows := edit.2 in
  (* Add a row to the log *)
  let log_row :=
    MergeOperation_create_log_record self (operation_id root_lock)
      time_stamp new_root_ids in
  (* Put log row first! *)
  let rows := log_row :: rows in
  (* Execute write (makes sure that we are still owning the lock) *)
  let* _ :=
    cg_bulk_write rows (locked_root_ids root_lock)
      (operation_id root_lock) false in
  ret (new_root_ids, new_lvl2_ids).

(** [MergeOperation.apply] *)
Definition MergeOperation_apply (self : MergeOperation)
    : Op (list node_id * list node_id) :=
  let* roots := cg_get_roots (ravel (added_edges self)) in
  let root_ids := np_unique roots in
  RootLock root_ids (MergeOperation_locked self).

(** ** [SplitOperation] *)

Record SplitOperation : Type := {
  split_base : GraphEditOperation;
  split_removed_edges : list edge;
}.

(** [SplitOperation.__init__] *)
Definition SplitOperation_init (user : string) (edges : list edge)
    (s_coords k_coords : option (list coordinates))
    : result SplitOperation :=
  do! cols := transpose edges in
  do! base := GraphEditOperation_init user (Some cols.1) (Some cols.2)
                s_coords k_coords in
  Return {| split_base := base; split_removed_edges := edges |}.

(** [SplitOperation.create_log_record] *)
Definition SplitOperation_create_log_record (self : SplitOperation)
    (op : node_id) (time_stamp : timestamp) (root_ids : list node_id)
    : Row :=
  let val_dict :=
    {| UserID := Some (user_id (split_base self));
       RootID := Some root_ids;
       SourceID := None;
       SinkID := None;
       SourceCoordinate := source_coords (split_base self);
       SinkCoordinate := sink_coords (split_base self);
       AddedEdge := None;
       Affinity_ := None;
       RemovedEdge := Some (split_removed_edges self);
       BoundingBoxOffset := None |} in
  mutate_row op (LogCells val_dict) time_stamp.

(** [[sid for l in (self.source_ids, self.sink_ids) for sid in l]];
    iterating over [None] is a [TypeError]. *)
Definition source_and_sink_ids (base : GraphEditOperation)
    : result (list node_id) :=
  match source_ids base, sink_ids base with
  | Some ss, Some ks => Return (ss ++ ks)
  | _, _ => Raise TypeError
  end.

(** The body of the [with RootLock(...)] block of
    [SplitOperation.apply]. *)
Definition SplitOperation_locked (self : SplitOperation)
    (root_lock : RootLockHandle) : Op (list node_id * list node_id) :=
  let lock_operation_ids :=
    replicate (length (locked_root_ids root_lock))
      (operation_id root_lock) in
  let* time_stamp :=
    cg_read_consolidated_lock_timestamp (locked_root_ids root_lock)
      lock_operation_ids in
  let* edit :=
    cg_edits_remove_edges (operation_id root_lock)
      (split_removed_edges self) time_stamp in
  let new_root_ids := edit.1.1 in
  let new_lvl2_ids := edit.1.2 in
  let rows := edit.2 in
  (* Add a row to the log *)
  let log_row :=
    SplitOperation_create_log_record self (operation_id root_lock)
      time_stamp new_root_ids in
  (* Put log row first! *)
  let rows := log_row :: rows in
  (* Execute write (makes sure that we are still owning the lock) *)
  let* _ :=
    cg_bulk_write rows (locked_root_ids root_lock)
      (operation_id root_lock) false in
  ret (new_root_ids, new_lvl2_ids).

(** [SplitOperation.apply] *)
Definition SplitOperation_apply (self : SplitOperation)
    : Op (list node_id * list node_id) :=
  let* endpoints := lift (source_and_sink_ids (split_base self)) in
  let* roots := cg_get_roots endpoints in
  let root_ids := np_unique roots in
  if bool_decide (1 < length root_ids)%nat then raise PreconditionError
  else RootLock root_ids (SplitOperation_locked self).

(** ** [MulticutOperation] *)

Record MulticutOperation : Type := {
  multicut_base : GraphEditOperation;
  (* Calculated from coordinates and IDs *)
  multicut_removed_edges : option (list edge);
  bbox_offset : option coordinates;
}.

(** [MulticutOperation.__init__] *)
Definition MulticutOperation_init (user : string)
    (sources sinks : list node_id)
    (s_coords k_coords : list coordinates)
    (bbox : option coordinates) : result MulticutOperation :=
  do! base := GraphEditOperation_init user (Some sources) (Some sinks)
                (Some s_coords) (Some k_coords) in
  Return {| multicut_base := base; multicut_removed_edges := None;
            bbox_offset := bbox |}.

(** [MulticutOperation.create_log_record] *)
Definition MulticutOperation_create_log_record (self : MulticutOperation)
    (op : node_id) (time_stamp : timestamp) (root_ids : list node_id)
    : Row :=
  let val_dict :=
    {| UserID := Some (user_id (multicut_base self));
       RootID := Some root_ids;
       SourceID := source_ids (multicut_base self);
       SinkID := sink_ids (multicut_base self);
       SourceCoordinate := source_coords (multicut_base self);
       SinkCoordinate := sink_coords (multicut_base self);
       AddedEdge := None;
       Affinity_ := None;
       RemovedEdge := None;
       BoundingBoxOffset := bbox_offset self |} in
  mutate_row op (LogCells val_dict) time_stamp.

(** The body of the [with RootLock(...)] block of
    [MulticutOperation.apply].  The assignment to [self.removed_edges] is
    kept as the local [removed_edges]: nothing reads the attribute
    afterwards. *)
Definition MulticutOperation_locked (self : MulticutOperation)
    (root_lock : RootLockHandle) : Op (list node_id * list node_id) :=
  let lock_operation_ids :=
    replicate (length (locked_root_ids root_lock))
      (operation_id root_lock) in
  let* time_stamp :=
    cg_read_consolidated_lock_timestamp (locked_root_ids root_lock)
      lock_operation_ids in
  let* removed_edges :=
    cg_run_multicut
      (source_ids (multicut_base self)) (sink_ids (multicut_base self))
      (source_coords (multicut_base self))
      (sink_coords (multicut_base self)) (bbox_offset self) in
  (* removed_edges.size == 0 *)
  if bool_decide (removed_edges = []) then raise PostconditionError
  else
    let* edit :=
      cg_edits_remove_edges (operation_id root_lock) removed_edges
        time_stamp in
    let new_root_ids := edit.1.1 in
    let new_lvl2_ids := edit.1.2 in
    let rows := edit.2 in
    (* Add a row to the log *)
    let log_row :=
      MulticutOperation_create_log_record self (operation_id root_lock)
        time_stamp new_root_ids in
    (* Put log row first! *)
    let rows := log_row :: rows in
    (* Execute write (makes sure that we are still owning the lock) *)
    let* _ :=
      cg_bulk_write rows (locked_root_ids root_lock)
        (operation_id root_lock) false in
    ret (new_root_ids, new_lvl2_ids).

(** [MulticutOperation.apply] *)
Definition MulticutOperation_apply (self : MulticutOperation)
    : Op (list node_id * list node_id) :=
  let* endpoints := lift (source_and_sink_ids (multicut_base self)) in
  let* roots := cg_get_roots endpoints in
  let root_ids := np_unique roots in
  if bool_decide (1 < length root_ids)%nat then raise PreconditionError
  else RootLock root_ids (MulticutOperation_locked self).

(** ** The tagged union of the three operations *)

Inductive Operation : Type :=
  | Merge (op : MergeOperation)
  | Split (op : SplitOperation)
  | Multicut (op : MulticutOperation).

Definition apply (op : Operation) : Op (list node_id * list node_id) :=
  match op with
  | Merge o => MergeOperation_apply o
  | Split o => SplitOperation_apply o
  | Multicut o => MulticutOperation_apply o
  end.

Definition create_log_record (op : Operation)
    : node_id → timestamp → list node_id → Row :=
  match op with
  | Merge o => MergeOperation_create_log_record o
  | Split o => SplitOperation_create_log_record o
  | Multicut o => MulticutOperation_create_log_record o
  end.

Definition base (op : Operation) : GraphEditOperation :=
  match op with
  | Merge o => merge_base o
  | Split o => split_base o
  | Multicut o => multicut_base o
  end.

(** [GraphEditOperation.from_log_record] *)
Definition from_log_record (log_record : LogRecord)
    (multicut_as_split : bool) : result Operation :=
  do! user := getitem (UserID log_record) in
  do! sources := getitem (SourceID log_record) in
  do! sinks := getitem (SinkID log_record) in
  do! s_coords := getitem (SourceCoordinate log_record) in
  do! k_coords := getitem (SinkCoordinate log_record) in
  if bool_decide (is_Some (AddedEdge log_record)) then
    do! edges := getitem (AddedEdge log_record) in
    do! affs := getitem (Affinity_ log_record) in
    result_map Merge
      (MergeOperation_init user edges (Some s_coords) (Some k_coords)
         (Some affs))
  else if bool_decide (is_Some (RemovedEdge log_record)) then
    do! edges := getitem (RemovedEdge log_record) in
    if multicut_as_split
       || negb (bool_decide (is_Some (BoundingBoxOffset log_record)))
    then
      result_map Split
        (SplitOperation_init user edges (Some s_coords) (Some k_coords))
    else
      do! bbox := getitem (BoundingBoxOffset log_record) in
      result_map Multicut
        (MulticutOperation_init user sources sinks s_coords k_coords
           (Some bbox))
  else Raise PreconditionError.
End graphoperation.

(** * [app/app_utils.py] and [app/segmentation/common.py] *)

(** ** Calling a Python function *)

(** Binding the arguments of a call to a function whose parameters are all
    positional-or-keyword and have no default: [positional] values given
    by position and the [keywords] given by name.  Too many positional
    values, an unexpected or doubled keyword and a missing parameter are
    each a [TypeError]. *)
Definition bind_arguments (parameters : list string) (positional : nat)
    (keywords : list string) : result unit :=
  if bool_decide ((positional ≤ length parameters)%nat
                  ∧ NoDup keywords
                  ∧ keywords ⊆ drop positional parameters
                  ∧ drop positional parameters ⊆ keywords)
  then Return tt
  else Raise TypeError.

(** Reading a name inside a function: it is found when the function binds
    it somewhere in its body or when the module defines it (or when it is
    a builtin, which no name read below is). *)
Definition load_name (locals globals : list string) (name : string)
    : result unit :=
  if bool_decide (name ∈ locals ∨ name ∈ globals) then Return tt
  else Raise NameError.

(** Reading the attribute [name] of a module whose top level binds
    [names] (and that defines no [__getattr__]). *)
Definition module_getattr (names : list string) (name : string)
    : result unit :=
  if bool_decide (name ∈ names) then Return tt else Raise AttributeError.

(** ** Small helpers of [common.py] *)

Definition ascii_lower (c : ascii) : ascii :=
  let n := N_of_ascii c in
  if (65 <=? n) && (n <=? 90) then ascii_of_N (n + 32) else c.

Fixpoint lower (v : string) : string :=
  match v with
  | EmptyString => EmptyString
  | String c rest => String (ascii_lower c) (lower rest)
  end.

(** [str2bool] *)
Definition str2bool (v : string) : bool :=
  bool_decide (lower v ∈ ["yes"; "true"; "t"; "1"]).

(** [request.args.get(name, True, type=str2bool)] *)
Definition args_get_bool (arg : option string) : bool :=
  match arg with
  | None => true
  | Some v => str2bool v
  end.

(** [np.array(ids, dtype=np.uint64).tobytes()]: eight bytes per id, least
    significant first (the byte order of the machines the service runs
    on). *)
Definition low_byte (n : N) : Byte.byte :=
  default Byte.x00 (Byte.of_N (n mod 256)).

Fixpoint little_endian (width : nat) (n : N) : list Byte.byte :=
  match width with
  | O => []
  | S width' => low_byte n :: little_endian width' (n / 256)
  end.

Definition uint64_tobytes (n : node_id) : list Byte.byte :=
  little_endian 8 n.

Definition tobytes (ids : list node_id) : list Byte.byte :=
  flat_map uint64_tobytes ids.

(** Reading the buffer back, for the round trip. *)
Definition uint64_frombytes (bs : list Byte.byte) : node_id :=
  foldr (λ b acc, Byte.to_N b + 256 * acc) 0 bs.

Fixpoint frombuffer (fuel : nat) (bs : list Byte.byte) : list node_id :=
  match fuel with
  | O => []
  | S fuel' => uint64_frombytes (take 8 bs) :: frombuffer fuel' (drop 8 bs)
  end.

(** The conversion of an [np.uint64] to [np.float64], the float kept as
    the integer it denotes: exact below [2^53]; above, the 53 leading bits
    rounded to nearest, ties to even. *)
Definition float64_of_uint64 (n : node_id) : N :=
  if n <? 2 ^ 53 then n
  else
    let dropped := N.log2 n - 52 in
    let q := N.shiftr n dropped in
    let r := N.land n (N.ones dropped) in
    let half := N.shiftl 1 (dropped - 1) in
    let q := if (half <? r) || ((r =? half) && N.odd q) then q + 1 else q in
    N.shiftl q dropped.

(** The names [common.py] defines or imports at module level. *)
Definition common_globals : list string :=
  [ "collections"; "json"; "threading"; "time"; "traceback"; "gzip"; "os";
    "requests"; "IO"; "datetime"; "reduce"; "np"; "UTC"; "pd";
    "compression"; "current_app"; "g"; "jsonify"; "make_response";
    "request"; "__version__"; "app_utils"; "attributes"; "cutting";
    "cg_exceptions"; "cg_edges"; "segmenthistory"; "pathing";
    "OperationLogs"; "mesh_analysis"; "get_contact_sites"; "get_usernames";
    "__api_versions__"; "__segmentation_url_prefix__";
    "index"; "home"; "before_request"; "after_request";
    "unhandled_exception"; "api_exception"; "_parse_timestamp"; "sleep_me";
    "handle_info"; "handle_api_versions"; "handle_root"; "handle_roots";
    "handle_l2_chunk_children"; "str2bool"; "publish_edit"; "handle_merge";
    "handle_split"; "handle_undo"; "handle_redo"; "handle_rollback";
    "all_user_operations"; "handle_children"; "handle_leaves";
    "handle_leaves_many"; "handle_leaves_from_leave"; "handle_subgraph";
    "change_log"; "tabular_change_log_recent"; "tabular_change_logs";
    "merge_log"; "handle_lineage_graph"; "handle_past_id_mapping";
    "last_edit"; "oldest_timestamp"; "handle_contact_sites";
    "handle_pairwise_contact_sites"; "handle_split_preview";
    "handle_find_path"; "handle_get_layer2_graph"; "handle_is_latest_roots";
    "handle_root_timestamps"; "operation_details"; "delta_roots" ].

(** The names [handle_rollback] binds: its parameter and the targets of
    its assignments, [for] and [except ... as]. *)
Definition handle_rollback_locals : list string :=
  [ "table_id"; "user_id"; "target_user_id"; "cg"; "user_operations";
    "operation_ids"; "timestamps"; "operations"; "operation";
    "operation_id"; "ret"; "e" ].

(** The names [app_utils.py] defines or imports at module level. *)
Definition app_utils_names : list string :=
  [ "logging"; "sys"; "gmtime"; "np"; "current_app"; "json"; "credentials";
    "default_creds"; "bigtable"; "datastore"; "ChunkedGraph";
    "flask_log_db"; "jsonformatter"; "CACHE"; "DoNothingCreds";
    "jsonify_with_kwargs"; "get_bigtable_client"; "get_datastore_client";
    "_get_cg_backend_client_info"; "get_cg"; "get_log_db"; "toboolean";
    "tobinary"; "tobinary_multiples" ].

(** The parameters of [app_utils.get_cg]: [def get_cg(table_id)]. *)
Definition get_cg_parameters : list string := [ "table_id" ].

(** ** Operation log entries as [read_log_entries] returns them *)

(** Modelled from the spec: [OperationLogs.StatusCodes] of
    [graph/attributes.py], which is not among the sources: "a status in
    {SUCCESS, FAILED}". *)
Inductive StatusCode : Type := SUCCESS | FAILED.

Global Instance StatusCode_eq_dec : EqDecision StatusCode.
Proof. solve_decision. Defined.

(** One entry of the dict [read_log_entries] returns: the user, the time
    stamp, and the optional [Status], [UndoOperationID] and
    [RedoOperationID] columns ([None]: the key is not in the entry). *)
Record LogEntry : Type := {
  entry_UserID : string;
  entry_timestamp : timestamp;
  entry_Status : option StatusCode;
  entry_UndoOperationID : option node_id;
  entry_RedoOperationID : option node_id;
}.

(** The dict [{"operation_id": [...], "timestamp": [...]}]. *)
Record UserOperations : Type := {
  operation_id_list : list node_id;
  timestamp_list : list timestamp;
}.

(** The result object of an edit. *)
Record EditResult : Type := {
  result_operation_id : node_id;
  new_root_ids : option (list node_id);
  new_lvl2_ids : list node_id;
}.

Section app.
(** [World]: everything outside the process (the store behind the graph
    handles, the message bus, the environment variables).
    [Handle]: a [ChunkedGraph] object of [pychunkedgraph.graph].
    [Coord]: voxel coordinates, arrays of floating point numbers that the
    handlers only pass on. *)
Context {World Handle Coord : Type}.

(** What the handlers call and is not among the sources: the methods of
    [pychunkedgraph.graph.ChunkedGraph], its constructor, the messaging
    client, the process environment and the conversions of [float] and
    [datetime].  [handle_supervoxel_id_lookup] is the function the calls
    [app_utils.handle_supervoxel_id_lookup(cg, coords, node_ids)] of
    [handle_merge] and [handle_split] name; [app_utils.py] binds no such
    name, so reading the attribute raises and no run gets to call it. *)
Record Environment : Type := {
  (* ChunkedGraph(graph_id=table_id, client_info=...) *)
  ChunkedGraph_new : World → string → result Handle;
  (* np.array(node[1:]) / cg.segmentation_resolution *)
  voxel_coordinates : Handle → list Z → Coord;
  get_chunk_coordinates : Handle → node_id → Z * Z * Z;
  handle_supervoxel_id_lookup :
    Handle → World → list Coord → list node_id → result (list node_id);
  add_edges :
    Handle → World → string → list node_id → list Coord → list Coord →
    bool → result EditResult * World;
  remove_edges :
    Handle → World → string → list node_id → list node_id → list Coord →
    list Coord → bool → result EditResult * World;
  undo_operation :
    Handle → World → string → node_id → result EditResult * World;
  redo_operation :
    Handle → World → string → node_id → result EditResult * World;
  (* cg.client.read_log_entries(start_time=...) *)
  read_log_entries :
    Handle → World → timestamp → result (gmap node_id LogEntry);
  (* os.getenv *)
  getenv : World → string → option string;
  (* MessagingClient().publish(exchange, payload, attributes) *)
  messaging_publish :
    World → string → list Byte.byte → list (string * string) →
    result unit * World;
  (* float(...) followed by datetime.fromtimestamp(..., UTC): the time
     stamp, or what the two raise (ValueError for a string that is no
     number or for NaN, OverflowError for a number out of range, ...) *)
  parse_timestamp_string : string → result timestamp;
}.

(** The state of the process: the module-level [CACHE] of [app_utils],
    the two attributes the handlers set on [current_app], and the world
    outside. *)
Record App : Type := {
  CACHE : gmap string Handle;
  current_table_id : option string;
  current_user_id : option string;
  world : World;
}.

Inductive AppEvent : Type :=
  | EvLookup (coords : list Coord) (node_ids : list node_id)
  | EvEditAddEdges (user : string) (atomic_edge : list node_id)
  | EvEditRemoveEdges (user : string) (sources sinks : list node_id)
      (mincut : bool)
  | EvUndo (user : string) (op : node_id)
  | EvRedo (user : string) (op : node_id)
  | EvReadLog (start_time : timestamp)
  | EvPublish (exchange : string) (payload : list Byte.byte)
      (attributes : list (string * string)).

Abbreviation Handler := (M App AppEvent).

Variable env : Environment.

Definition set_world (a : App) (w : World) : App :=
  {| CACHE := CACHE a; current_table_id := current_table_id a;
     current_user_id := current_user_id a; world := w |}.

(** [current_app.table_id = table_id] *)
Definition set_table_id (table_id : string) : Handler unit := λ a,
  (Return tt,
   {| CACHE := CACHE a; current_table_id := Some table_id;
      current_user_id := current_user_id a; world := world a |}, []).

(** [current_app.user_id = user_id] *)
Definition set_user_id (user : string) : Handler unit := λ a,
  (Return tt,
   {| CACHE := CACHE a; current_table_id := current_table_id a;
      current_user_id := Some user; world := world a |}, []).

(** A read of the outside world. *)
Definition world_reads {A} (f : World → result A) : Handler A :=
  reads (λ a, f (world a)).

(** A call that may change the outside world. *)
Definition world_call {A} (f : World → result A * World) : Handler A :=
  call (λ a, match f (world a) with (r, w) => (r, set_world a w) end).

(** *** [app_utils.get_cg] *)

(** The body of [get_cg], once its argument is bound. *)
Definition get_cg_body (table_id : string) : Handler Handle :=
  if negb (String.prefix "minnie" table_id
           || String.prefix "pinky_" table_id)
  then raise AssertionError
  else
    let* _ := set_table_id table_id in
    λ a,
      match CACHE a !! table_id with
      | Some cg => (Return cg, a, [])
      | None =>
          match ChunkedGraph_new env (world a) table_id with
          | Return cg =>
              (Return cg,
               {| CACHE := <[table_id := cg]> (CACHE a);
                  current_table_id := current_table_id a;
                  current_user_id := current_user_id a;
                  world := world a |}, [])
          | Raise e => (Raise e, a, [])
          end
      end.

(** The call [app_utils.get_cg(table_id, k1=..., k2=...)], with the table
    id given by position and [keywords] the names [k1], [k2], ... *)
Definition get_cg (table_id : string) (keywords : list string)
    : Handler Handle :=
  let* _ := lift (bind_arguments get_cg_parameters 1 keywords) in
  get_cg_body table_id.

(** *** [publish_edit] *)

Definition publish_edit (table_id : string) (lvl2_ids : list node_id)
    (is_priority : bool) : Handler unit := λ a,
  let payload := tobytes lvl2_ids in
  let attributes := [("table_id", table_id)] in
  let exchange :=
    default "pychunkedgraph"
      (getenv env (world a) "PYCHUNKEDGRAPH_EDITS_EXCHANGE") in
  match messaging_publish env (world a) exchange payload attributes with
  | (r, w) => (r, set_world a w, [EvPublish exchange payload attributes])
  end.

(** The [except] clauses around the edit calls: [LockingError] becomes
    [InternalServerError], [PreconditionError] (and, where the clause
    lists it, [PostconditionError]) becomes [BadRequest]. *)
Definition edit_except {A} (with_postcondition : bool) (e : exn)
    : option (Handler A) :=
  match e with
  | LockingError => Some (raise InternalServerError)
  | PreconditionError => Some (raise BadRequest)
  | PostconditionError =>
      if with_postcondition then Some (raise BadRequest) else None
  | _ => None
  end.

(** [seq[i]] *)
Definition index {A} (l : list A) (i : nat) : result A :=
  match l !! i with
  | Some x => Return x
  | None => Raise IndexError
  end.

(** *** [handle_merge] *)

(** A node of the request body: [[node_id, x, y, z]]. *)
Definition request_node := (node_id * list Z)%type.

(** [np.any(np.abs(a - b) > 3)] on two chunk coordinate triples. *)
Definition exceeds_merge_distance (a b : Z * Z * Z) : bool :=
  let '(ax, ay, az) := a in
  let '(bx, by_, bz) := b in
  ((3 <? Z.abs (ax - bx)) || (3 <? Z.abs (ay - by_))
   || (3 <? Z.abs (az - bz)))%Z.

(** [if len(ret.new_lvl2_ids) > 0: publish_edit(...)] *)
Definition publish_new_lvl2_ids (table_id : string) (ret_ : EditResult)
    (is_priority : bool) : Handler unit :=
  if bool_decide (0 < length (new_lvl2_ids ret_))%nat
  then publish_edit table_id (new_lvl2_ids ret_) is_priority
  else ret tt.

(** [handle_merge] from the line after the graph handle lookup.  The
    call of [app_utils.handle_supervoxel_id_lookup] reads the attribute
    first. *)
Definition handle_merge_with_cg (table_id : string)
    (allow_same_segment_merge : bool) (nodes : list request_node)
    (is_priority : bool) (user : string) (cg : Handle)
    : Handler EditResult :=
  let node_ids := nodes.*1 in
  let coords := (λ node, voxel_coordinates env cg node.2) <$> nodes in
  let* atomic_edge :=
    (let* _ := lift (module_getattr app_utils_names
                       "handle_supervoxel_id_lookup") in
     let* _ := emit (EvLookup coords node_ids) in
     world_reads (λ w, handle_supervoxel_id_lookup env cg w coords
                         node_ids)) in
  (* Protection from long range mergers *)
  let* e0 := lift (index atomic_edge 0) in
  let* e1 := lift (index atomic_edge 1) in
  if exceeds_merge_distance (get_chunk_coordinates env cg e0)
       (get_chunk_coordinates env cg e1)
  then raise BadRequest
  else
    let* ret_ :=
      try_except
        (let* _ := emit (EvEditAddEdges user atomic_edge) in
         world_call (λ w, add_edges env cg w user atomic_edge
                            (take 1 coords) (drop 1 coords)
                            allow_same_segment_merge))
        (edit_except false) in
    if bool_decide (new_root_ids ret_ = None)
    then raise InternalServerError
    else
      let* _ := publish_new_lvl2_ids table_id ret_ is_priority in
      ret ret_.

(** [handle_merge]; [nodes] is [json.loads(request.data)], [priority]
    the query argument of that name and [auth_user] the id of the
    authenticated user. *)
Definition handle_merge (table_id : string)
    (allow_same_segment_merge : bool) (nodes : list request_node)
    (priority : option string) (auth_user : string)
    : Handler EditResult :=
  let* _ := set_table_id table_id in
  let is_priority := args_get_bool priority in
  let user := auth_user in
  let* _ := set_user_id user in
  if negb (bool_decide (length nodes = 2%nat)) then raise AssertionError
  else
    (* Call ChunkedGraph *)
    let* cg := get_cg table_id ["skip_cache"] in
    handle_merge_with_cg table_id allow_same_segment_merge nodes
      is_priority user cg.

(** *** [handle_split] *)

(** [handle_split] from the line after the graph handle lookup. *)
Definition handle_split_with_cg (table_id : string)
    (sources sinks : list request_node) (is_priority mincut : bool)
    (user : string) (cg : Handle) : Handler EditResult :=
  let nodes := sources ++ sinks in
  let node_ids := nodes.*1 in
  let coords := (λ node, voxel_coordinates env cg node.2) <$> nodes in
  let* sv_ids :=
    (let* _ := lift (module_getattr app_utils_names
                       "handle_supervoxel_id_lookup") in
     let* _ := emit (EvLookup coords node_ids) in
     world_reads (λ w, handle_supervoxel_id_lookup env cg w coords
                         node_ids)) in
  (* sv_ids[node_idents == 0], sv_ids[node_idents == 1] and the same for
     coords: the entries at the positions of the sources, of the sinks *)
  let n := length sources in
  let* ret_ :=
    try_except
      (let* _ := emit (EvEditRemoveEdges user (take n sv_ids)
                         (drop n sv_ids) mincut) in
       world_call (λ w, remove_edges env cg w user (take n sv_ids)
                          (drop n sv_ids) (take n coords) (drop n coords)
                          mincut))
      (edit_except false) in
  if bool_decide (new_root_ids ret_ = None)
  then raise InternalServerError
  else
    let* _ := publish_new_lvl2_ids table_id ret_ is_priority in
    ret ret_.

(** [handle_split]; [sources] and [sinks] are the two entries of
    [json.loads(request.data)]. *)
Definition handle_split (table_id : string)
    (sources sinks : list request_node) (priority mincut : option string)
    (auth_user : string) : Handler EditResult :=
  let* _ := set_table_id table_id in
  let is_priority := args_get_bool priority in
  let mincut_ := args_get_bool mincut in
  let user := auth_user in
  let* _ := set_user_id user in
  (* Call ChunkedGraph *)
  let* cg := get_cg table_id ["skip_cache"] in
  handle_split_with_cg table_id sources sinks is_priority mincut_ user cg.

(** *** [handle_undo] and [handle_redo] *)

Definition handle_undo (table_id : string) (operation : node_id)
    (priority : option string) (auth_user : string)
    : Handler EditResult :=
  let* _ := set_table_id table_id in
  let is_priority := args_get_bool priority in
  let user := auth_user in
  let* _ := set_user_id user in
  (* Call ChunkedGraph *)
  let* cg := get_cg table_id [] in
  let* ret_ :=
    try_except
      (let* _ := emit (EvUndo user operation) in
       world_call (λ w, undo_operation env cg w user operation))
      (edit_except true) in
  let* _ := publish_new_lvl2_ids table_id ret_ is_priority in
  ret ret_.

Definition handle_redo (table_id : string) (operation : node_id)
    (priority : option string) (auth_user : string)
    : Handler EditResult :=
  let* _ := set_table_id table_id in
  let is_priority := args_get_bool priority in
  let user := auth_user in
  let* _ := set_user_id user in
  (* Call ChunkedGraph *)
  let* cg := get_cg table_id [] in
  let* ret_ :=
    try_except
      (let* _ := emit (EvRedo user operation) in
       world_call (λ w, redo_operation env cg w user operation))
      (edit_except true) in
  let* _ := publish_new_lvl2_ids table_id ret_ is_priority in
  ret ret_.
(** *** [all_user_operations] *)

(** [_parse_timestamp(arg_name, 0, return_datetime=True)]: the default
    [0] when the query argument is missing; of what the conversions raise
    the [except] clause turns [TypeError] and [ValueError] into
    [BadRequest] and lets everything else through. *)
Definition _parse_timestamp (arg : option string) : result timestamp :=
  match arg with
  | None => Return 0%Z
  | Some v =>
      match parse_timestamp_string env v with
      | Return t => Return t
      | Raise TypeError | Raise ValueError => Raise BadRequest
      | Raise e => Raise e
      end
  end.

(** [np.sort(list(log_rows.keys()))] *)
Definition sorted_entry_ids (log_rows : gmap node_id LogEntry)
    : list node_id :=
  merge_sort N.le (map_to_list log_rows).*1.

(** [not OperationLogs.Status in entry or entry[Status] == SUCCESS] *)
Definition should_check (entry : LogEntry) : bool :=
  match entry_Status entry with
  | None => true
  | Some status => bool_decide (status = SUCCESS)
  end.

(** [undone_ids] starts as [np.array([])], an array of [np.float64]: the
    ids appended to it are converted, and so is an id compared with its
    elements.  The array is kept as the list of the integers its floats
    denote. *)
Definition float64_array := list N.

(** [np.append(undone_ids, undone_id)] *)
Definition np_append (undone_ids : float64_array) (undone_id : node_id)
    : float64_array :=
  undone_ids ++ [float64_of_uint64 undone_id].

(** [np.delete(undone_ids, np.argwhere(undone_ids == redone_id))]: every
    occurrence goes. *)
Definition np_delete_equal (undone_ids : float64_array)
    (redone_id : node_id) : float64_array :=
  filter (λ u, u ≠ float64_of_uint64 redone_id) undone_ids.

(** [entry_id in undone_ids] *)
Definition np_contains (undone_ids : float64_array) (entry_id : node_id)
    : bool :=
  bool_decide (float64_of_uint64 entry_id ∈ undone_ids).

(** The two [if]s under [if should_check:]. *)
Definition update_undone_ids (entry : LogEntry)
    (undone_ids : float64_array) : float64_array :=
  let undone_ids :=
    match entry_UndoOperationID entry with
    | Some undone_id => np_append undone_ids undone_id
    | None => undone_ids
    end in
  match entry_RedoOperationID entry with
  | Some redone_id => np_delete_equal undone_ids redone_id
  | None => undone_ids
  end.

(** The three accumulators of the first loop. *)
Record Scan : Type := {
  valid_entry_ids : list node_id;
  scan_timestamps : list timestamp;
  undone_ids : float64_array;
}.

(** One iteration of [for entry_id in entry_ids]. *)
Definition scan_entry (log_rows : gmap node_id LogEntry)
    (target_user_id : string) (acc : Scan) (entry_id : node_id) : Scan :=
  match log_rows !! entry_id with
  | None => acc
  | Some entry =>
      let mine := bool_decide (entry_UserID entry = target_user_id) in
      {| valid_entry_ids :=
           if mine then valid_entry_ids acc ++ [entry_id]
           else valid_entry_ids acc;
         scan_timestamps :=
           if mine then scan_timestamps acc ++ [entry_timestamp entry]
           else scan_timestamps acc;
         undone_ids :=
           if should_check entry
           then update_undone_ids entry (undone_ids acc)
           else undone_ids acc |}
  end.

Definition scan_log (log_rows : gmap node_id LogEntry)
    (target_user_id : string) : Scan :=
  foldl (scan_entry log_rows target_user_id)
    {| valid_entry_ids := []; scan_timestamps := []; undone_ids := [] |}
    (sorted_entry_ids log_rows).

(** The second loop: the valid entries that are neither an undo nor a
    redo and whose id is not in [undone_ids]. *)
Fixpoint filter_entries (log_rows : gmap node_id LogEntry)
    (undone : float64_array) (valid : list node_id)
    : list node_id * list timestamp :=
  match valid with
  | [] => ([], [])
  | entry_id :: rest =>
      let tail := filter_entries log_rows undone rest in
      match log_rows !! entry_id with
      | None => tail
      | Some entry =>
          if bool_decide (is_Some (entry_UndoOperationID entry)
                          ∨ is_Some (entry_RedoOperationID entry))
          then tail
          else if np_contains undone entry_id then tail
          else (entry_id :: tail.1, entry_timestamp entry :: tail.2)
      end
  end.

(** [all_user_operations] once the log has been read. *)
Definition user_operations_of_log (log_rows : gmap node_id LogEntry)
    (target_user_id : string) (include_undone : bool) : UserOperations :=
  let scan := scan_log log_rows target_user_id in
  if include_undone then
    {| operation_id_list := valid_entry_ids scan;
       timestamp_list := scan_timestamps scan |}
  else
    let filtered :=
      filter_entries log_rows (undone_ids scan) (valid_entry_ids scan) in
    {| operation_id_list := filtered.1; timestamp_list := filtered.2 |}.

(** [all_user_operations]; [user_id_arg] and [start_time_arg] are the
    query arguments [user_id] and [start_time]. *)
Definition all_user_operations (table_id : string)
    (include_undone : bool) (user_id_arg start_time_arg : option string)
    (auth_user : string) : Handler UserOperations :=
  let* _ := set_table_id table_id in
  let* _ := set_user_id auth_user in
  let* target_user_id := lift (getitem user_id_arg) in
  let* start_time := lift (_parse_timestamp start_time_arg) in
  (* Call ChunkedGraph *)
  let* cg := get_cg table_id [] in
  let* log_rows :=
    (let* _ := emit (EvReadLog start_time) in
     world_reads (λ w, read_log_entries env cg w start_time)) in
  ret (user_operations_of_log log_rows target_user_id include_undone).

(** *** [handle_rollback] *)

(** [operations.sort(key=lambda op: op[1], reverse=True)]: a stable sort
    by descending time stamp. *)
Fixpoint insert_descending (x : node_id * timestamp)
    (l : list (node_id * timestamp)) : list (node_id * timestamp) :=
  match l with
  | [] => [x]
  | y :: rest =>
      if (y.2 <=? x.2)%Z then x :: l else y :: insert_descending x rest
  end.

Definition sort_descending (l : list (node_id * timestamp))
    : list (node_id * timestamp) :=
  foldr insert_descending [] l.

(** The body of [for operation in operations].  The call of
    [publish_edit] reads the name [is_priority]. *)
Definition rollback_step (table_id target_user_id : string) (cg : Handle)
    (operation : node_id * timestamp) : Handler unit :=
  let operation_id := operation.1 in
  let* ret_ :=
    try_except
      (let* _ := emit (EvUndo target_user_id operation_id) in
       world_call (λ w, undo_operation env cg w target_user_id
                          operation_id))
      (edit_except true) in
  if bool_decide (0 < length (new_lvl2_ids ret_))%nat then
    let* _ := lift (load_name handle_rollback_locals common_globals
                      "is_priority") in
    publish_edit table_id (new_lvl2_ids ret_) true
  else ret tt.

Fixpoint rollback_loop (table_id target_user_id : string) (cg : Handle)
    (operations : list (node_id * timestamp)) : Handler unit :=
  match operations with
  | [] => ret tt
  | operation :: rest =>
      let* _ := rollback_step table_id target_user_id cg operation in
      rollback_loop table_id target_user_id cg rest
  end.

Definition handle_rollback (table_id : string)
    (user_id_arg start_time_arg : option string) (auth_user : string)
    : Handler UserOperations :=
  let* _ := set_table_id table_id in
  let* _ := set_user_id auth_user in
  let* target_user_id := lift (getitem user_id_arg) in
  (* Call ChunkedGraph *)
  let* cg := get_cg table_id [] in
  let* user_operations :=
    all_user_operations table_id false user_id_arg start_time_arg
      auth_user in
  let operations :=
    zip (operation_id_list user_operations)
      (timestamp_list user_operations) in
  let operations := sort_descending operations in
  let* _ := rollback_loop table_id target_user_id cg operations in
  ret user_operations.
End app.

(** * Vocabulary of the properties *)

Section constructions.
Context {Store HierarchyCells Affinity : Type}.
Variable cg : @ChunkedGraph Store HierarchyCells Affinity.

(** A call of one of the three constructors with its arguments. *)
Inductive Construction : Type :=
  | NewMerge (user : string) (edges : list edge)
      (s_coords k_coords : option (list coordinates))
      (affs : option (list Affinity))
  | NewSplit (user : string) (edges : list edge)
      (s_coords k_coords : option (list coordinates))
  | NewMulticut (user : string) (sources sinks : list node_id)
      (s_coords k_coords : list coordinates) (bbox : option coordinates).

Definition construct (c : Construction) : result (@Operation Affinity) :=
  match c with
  | NewMerge user edges s_coords k_coords affs =>
      result_map Merge
        (MergeOperation_init cg user edges s_coords k_coords affs)
  | NewSplit user edges s_coords k_coords =>
      result_map Split
        (SplitOperation_init cg user edges s_coords k_coords)
  | NewMulticut user sources sinks s_coords k_coords bbox =>
      result_map Multicut
        (MulticutOperation_init cg user sources sinks s_coords k_coords
           bbox)
  end.

(** The source and the sink supervoxels a construction supplies: the
    two columns of the edges, or the two id lists. *)
Definition supplied_sources (c : Construction) : list node_id :=
  match c with
  | NewMerge _ edges _ _ _ | NewSplit _ edges _ _ => edges.*1
  | NewMulticut _ sources _ _ _ _ => sources
  end.

Definition supplied_sinks (c : Construction) : list node_id :=
  match c with
  | NewMerge _ edges _ _ _ | NewSplit _ edges _ _ => edges.*2
  | NewMulticut _ _ sinks _ _ _ => sinks
  end.

(** The body of the [with RootLock(...)] block of an operation. *)
Definition locked (op : @Operation Affinity)
    : RootLockHandle → M Store (@BackendEvent HierarchyCells Affinity)
                         (list node_id * list node_id) :=
  match op with
  | Merge o => MergeOperation_locked cg o
  | Split o => SplitOperation_locked cg o
  | Multicut o => MulticutOperation_locked cg o
  end.

Definition is_merge (op : @Operation Affinity) : bool :=
  match op with
  | Merge _ => true
  | _ => false
  end.
End constructions.

Section handler_vocabulary.
Context {World Handle Coord : Type}.
Variable env : @Environment World Handle Coord.

(** The process state once a handler has recorded its table and its
    user. *)
Definition entered (table_id user : string) (a : @App World Handle)
    : @App World Handle :=
  {| CACHE := CACHE a; current_table_id := Some table_id;
     current_user_id := Some user; world := world a |}.

(** The message [publish_edit] sends for [lvl2_ids] from the world [w]. *)
Definition edit_message (table_id : string) (lvl2_ids : list node_id)
    (w : World) : @AppEvent Coord :=
  EvPublish
    (default "pychunkedgraph" (getenv env w "PYCHUNKEDGRAPH_EDITS_EXCHANGE"))
    (tobytes lvl2_ids) [("table_id", table_id)].

(** What the message bus answers to that message. *)
Definition edit_message_sent (table_id : string) (lvl2_ids : list node_id)
    (w : World) : result unit * World :=
  messaging_publish env w
    (default "pychunkedgraph" (getenv env w "PYCHUNKEDGRAPH_EDITS_EXCHANGE"))
    (tobytes lvl2_ids) [("table_id", table_id)].

(** A run that ends by publishing the new level 2 ids of the committed
    edit [ret_]: the events are those [before] the publication and then
    the message; the handler returns [ret_] when the bus accepted the
    message and raises what the bus raised when it did not. *)
Definition ends_publishing (table_id : string) (ret_ : EditResult)
    (a : @App World Handle) (committed : World)
    (before : list (@AppEvent Coord))
    (run : result EditResult * @App World Handle * list (@AppEvent Coord))
    : Prop :=
  run = (match (edit_message_sent table_id (new_lvl2_ids ret_) committed).1
         with
         | Return _ => Return ret_
         | Raise e => Raise e
         end,
         set_world a
           (edit_message_sent table_id (new_lvl2_ids ret_) committed).2,
         before ++ [edit_message table_id (new_lvl2_ids ret_) committed]).
End handler_vocabulary.

(** ** The effectively undone operations, in the words of the
    specification *)

(** An entry takes part in the replay when it succeeded: it has the
    status [SUCCESS], or no status at all. *)
Definition successful (entry : LogEntry) : Prop :=
  entry_Status entry = None ∨ entry_Status entry = Some SUCCESS.

Global Instance successful_dec entry : Decision (successful entry).
Proof. unfold successful. apply _. Defined.

(** Replaying one entry: an undo marks its target, a redo unmarks its
    target. *)
Definition replay (undone : gset node_id) (entry : LogEntry)
    : gset node_id :=
  if decide (successful entry) then
    let undone :=
      match entry_UndoOperationID entry with
      | Some target => undone ∪ {[ target ]}
      | None => undone
      end in
    match entry_RedoOperationID entry with
    | Some target => undone ∖ {[ target ]}
    | None => undone
    end
  else undone.

(** The set of operations that are undone after the entries have been
    replayed in the given order. *)
Definition effectively_undone (entries : list LogEntry) : gset node_id :=
  foldl replay ∅ entries.

(** The entries of the log by ascending operation id, and by ascending
    time stamp. *)
Definition entries_in_id_order (log_rows : gmap node_id LogEntry)
    : list LogEntry :=
  omap (λ entry_id, log_rows !! entry_id)
    (merge_sort N.le (map_to_list log_rows).*1).

Definition timestamp_le (e1 e2 : LogEntry) : Prop :=
  (entry_timestamp e1 ≤ entry_timestamp e2)%Z.

Global Instance timestamp_le_dec e1 e2 : Decision (timestamp_le e1 e2).
Proof. unfold timestamp_le. apply _. Defined.

Definition entries_in_timestamp_order (log_rows : gmap node_id LogEntry)
    : list LogEntry :=
  merge_sort timestamp_le (entries_in_id_order log_rows).

(** The operation with id [entry_id] is in the log, was authored by
    [target_user_id], is neither an undo nor a redo record and is not in
    [undone]. *)
Definition effective_operation (log_rows : gmap node_id LogEntry)
    (target_user_id : string) (undone : gset node_id) (entry_id : node_id)
    : Prop :=
  entry_UserID <$> log_rows !! entry_id = Some target_user_id
  ∧ entry_UndoOperationID <$> log_rows !! entry_id = Some None
  ∧ entry_RedoOperationID <$> log_rows !! entry_id = Some None
  ∧ entry_id ∉ undone.

Global Instance effective_operation_dec log_rows target_user_id undone
    entry_id :
  Decision (effective_operation log_rows target_user_id undone entry_id).
Proof. unfold effective_operation. apply _. Defined.

(** The answer the specification describes, for a replay over [order]:
    the effective operations of the user, by ascending id, each with its
    time stamp. *)
Definition user_operations_after_replay
    (log_rows : gmap node_id LogEntry) (target_user_id : string)
    (order : list LogEntry) : UserOperations :=
  let ids :=
    filter
      (effective_operation log_rows target_user_id
         (effectively_undone order))
      (merge_sort N.le (map_to_list log_rows).*1) in
  {| operation_id_list := ids;
     timestamp_list :=
       omap (λ entry_id, entry_timestamp <$> log_rows !! entry_id) ids |}.

(** The two tests of the source's loops, as predicates on an entry id:
    the entry is the target user's; the entry is neither an undo nor a
    redo record and its id, as a float, is not in the array
    [undone_ids]. *)
Definition authored_by (log_rows : gmap node_id LogEntry)
    (target_user_id : string) (entry_id : node_id) : Prop :=
  entry_UserID <$> log_rows !! entry_id = Some target_user_id.

Global Instance authored_by_dec log_rows target_user_id entry_id :
  Decision (authored_by log_rows target_user_id entry_id).
Proof. unfold authored_by. apply _. Defined.

Definition plain_and_not_listed (log_rows : gmap node_id LogEntry)
    (undone_list : float64_array) (entry_id : node_id) : Prop :=
  entry_UndoOperationID <$> log_rows !! entry_id = Some None
  ∧ entry_RedoOperationID <$> log_rows !! entry_id = Some None
  ∧ float64_of_uint64 entry_id ∉ undone_list.

(** Every operation id the log mentions, as a key or as the target of an
    undo or a redo, is below [2^53]: the ids the conversion to floating
    point leaves as they are. *)
Definition exact_id (entry_id : node_id) : Prop := entry_id < 2 ^ 53.

Definition exact_target (target : option node_id) : Prop :=
  match target with
  | Some entry_id => exact_id entry_id
  | None => True
  end.

Global Instance exact_target_dec target : Decision (exact_target target).
Proof. destruct target; unfold exact_target, exact_id; apply _. Defined.

Definition exact_ids (log_rows : gmap node_id LogEntry) : Prop :=
  map_Forall
    (λ entry_id entry,
       exact_id entry_id
       ∧ exact_target (entry_UndoOperationID entry)
       ∧ exact_target (entry_RedoOperationID entry))
    log_rows.

Global Instance exact_ids_dec log_rows : Decision (exact_ids log_rows).
Proof. unfold exact_ids, exact_id. apply _. Defined.

Global Instance plain_and_not_listed_dec log_rows undone_list entry_id :
  Decision (plain_and_not_listed log_rows undone_list entry_id).
Proof. unfold plain_and_not_listed. apply _. Defined.

(** * Small instances, used to run the definitions on concrete inputs *)

Module Toy.
(** A store that remembers the rows written to it.  Ids below 100 are
    supervoxels; the root of supervoxel [i] is [1000 + i / 10]; every
    lock succeeds under operation id 7 at time 42; the min-cut between
    [sources] and [sinks] is empty when supervoxel 3 is a source. *)
Definition Store := list (@Row string N).

Definition cg : @ChunkedGraph Store string N :=
  {| get_chunk_layer := λ i, if i <? 100 then 1 else 2;
     get_roots := λ _ ids, Return ((λ i, 1000 + i / 10) <$> ids);
     lock_roots := λ s roots, (Return (7, roots), s);
     unlock_roots := λ s _ _, s;
     read_consolidated_lock_timestamp := λ _ _ _, Return 42%Z;
     run_multicut := λ _ sources sinks _ _ _,
       Return (if bool_decide (3 ∈ default [] sources) then []
               else zip (default [] sources) (default [] sinks));
     add_edges_cells := λ s _ _ _ _,
       (Return ([2000], [200], [(200, "children"); (2000, "children")]),
        s);
     remove_edges_cells := λ s _ _ _,
       (Return ([2001; 2002], [201; 202],
                [(201, "children"); (202, "children");
                 (2001, "children"); (2002, "children")]), s);
     bulk_write := λ s rows _ _ _, (Return tt, s ++ rows) |}.

(** The log of a user [alice] whose operation 1 was undone at time 20 by
    the entry with id 3 and redone at time 30 by the entry with id 2,
    and whose operations 4 and 5 came later. *)
Definition log_rows : gmap node_id LogEntry :=
  {[ 1 := {| entry_UserID := "alice"; entry_timestamp := 10%Z;
             entry_Status := Some SUCCESS;
             entry_UndoOperationID := None;
             entry_RedoOperationID := None |};
     2 := {| entry_UserID := "bob"; entry_timestamp := 30%Z;
             entry_Status := Some SUCCESS;
             entry_UndoOperationID := None;
             entry_RedoOperationID := Some 1 |};
     3 := {| entry_UserID := "bob"; entry_timestamp := 20%Z;
             entry_Status := Some SUCCESS;
             entry_UndoOperationID := Some 1;
             entry_RedoOperationID := None |};
     4 := {| entry_UserID := "alice"; entry_timestamp := 40%Z;
             entry_Status := None;
             entry_UndoOperationID := None;
             entry_RedoOperationID := None |};
     5 := {| entry_UserID := "alice"; entry_timestamp := 50%Z;
             entry_Status := Some SUCCESS;
             entry_UndoOperationID := None;
             entry_RedoOperationID := None |} ]}.

(** A log with ids beyond [2^53]: [alice] made the operations [2^53] and
    [2^53 + 1], and [bob] undid the second. *)
Definition wide_log_rows : gmap node_id LogEntry :=
  {[ 2 ^ 53 := {| entry_UserID := "alice"; entry_timestamp := 10%Z;
                  entry_Status := Some SUCCESS;
                  entry_UndoOperationID := None;
                  entry_RedoOperationID := None |};
     2 ^ 53 + 1 := {| entry_UserID := "alice"; entry_timestamp := 20%Z;
                      entry_Status := Some SUCCESS;
                      entry_UndoOperationID := None;
                      entry_RedoOperationID := None |};
     2 ^ 53 + 2 := {| entry_UserID := "bob"; entry_timestamp := 30%Z;
                      entry_Status := Some SUCCESS;
                      entry_UndoOperationID := Some (2 ^ 53 + 1);
                      entry_RedoOperationID := None |} ]}.

(** The world counts the committed edits.  A graph handle is its table
    id and the chunk of supervoxel [i] is [(i, 0, 0)].  Every edit commits and
    yields one new level 2 id; the message bus accepts a message iff
    [bus_up]. *)
Definition env (bus_up : bool) : @Environment nat string (list Z) :=
  {| ChunkedGraph_new := λ _ table_id, Return table_id;
     voxel_coordinates := λ _ xyz, xyz;
     get_chunk_coordinates := λ _ i, (Z.of_N i, 0%Z, 0%Z);
     handle_supervoxel_id_lookup := λ _ _ _ node_ids, Return node_ids;
     add_edges := λ _ w _ _ _ _ _,
       (Return {| result_operation_id := 5; new_root_ids := Some [2000];
                  new_lvl2_ids := [200] |}, Datatypes.S w);
     remove_edges := λ _ w _ _ _ _ _ _,
       (Return {| result_operation_id := 5;
                  new_root_ids := Some [2001; 2002];
                  new_lvl2_ids := [201; 202] |}, Datatypes.S w);
     undo_operation := λ _ w _ op,
       (Return {| result_operation_id := 5; new_root_ids := Some [2000];
                  new_lvl2_ids := [200 + op] |}, Datatypes.S w);
     redo_operation := λ _ w _ op,
       (Return {| result_operation_id := 5; new_root_ids := Some [2000];
                  new_lvl2_ids := [200 + op] |}, Datatypes.S w);
     read_log_entries := λ _ _ _, Return log_rows;
     getenv := λ _ _, None;
     messaging_publish := λ w _ _ _,
       (if bus_up then Return tt else Raise (CollaboratorError "publish"),
        w);
     parse_timestamp_string := λ _, Raise ValueError |}.

Definition app : @App nat string :=
  {| CACHE := ∅; current_table_id := None; current_user_id := None;
     world := O |}.

(** The process after [alice] has opened the table ["minnie_test"], with
    [n] edits committed. *)
Definition app_opened (n : nat) : @App nat string :=
  {| CACHE := {[ "minnie_test" := "minnie_test" ]};
     current_table_id := Some "minnie_test";
     current_user_id := Some "alice";
     world := n |}.

(** The result of undoing or redoing operation [op]. *)
Definition undone (op : node_id) : EditResult :=
  {| result_operation_id := 5; new_root_ids := Some [2000];
     new_lvl2_ids := [200 + op] |}.
End Toy.

Module ToyLog.
(** The merge of supervoxels 1 and 2 by [alice], as the constructor
    builds it, and the log record [create_log_record] writes for it. *)
Definition merge_op : @MergeOperation N :=
  {| merge_base :=
       {| user_id := "alice"; source_ids := Some [1]; sink_ids := Some [2];
          source_coords := None; sink_coords := None |};
     added_edges := [(1, 2)];
     affinities := None |}.

Definition merge_record : @LogRecord N :=
  {| UserID := Some "alice"; RootID := Some [2000];
     SourceID := None; SinkID := None;
     SourceCoordinate := None; SinkCoordinate := None;
     AddedEdge := Some [(1, 2)]; Affinity_ := None;
     RemovedEdge := None; BoundingBoxOffset := None |}.

(** A record with every column a merge can have, whose added edge joins
    supervoxel 5 to itself. *)
Definition self_loop_record : @LogRecord N :=
  {| UserID := Some "alice"; RootID := Some [2000];
     SourceID := Some [5]; SinkID := Some [5];
     SourceCoordinate := Some [[0; 0; 0]%Z];
     SinkCoordinate := Some [[0; 0; 0]%Z];
     AddedEdge := Some [(5, 5)]; Affinity_ := Some [1];
     RemovedEdge := None; BoundingBoxOffset := None |}.

(** A record in the older layout, with the ids and the coordinates of
    both endpoints next to the edge. *)
Definition full_merge_record : @LogRecord N :=
  {| UserID := Some "alice"; RootID := Some [2000];
     SourceID := Some [1]; SinkID := Some [2];
     SourceCoordinate := Some [[0; 0; 0]%Z];
     SinkCoordinate := Some [[1; 0; 0]%Z];
     AddedEdge := Some [(1, 2)]; Affinity_ := Some [1];
     RemovedEdge := None; BoundingBoxOffset := None |}.
End ToyLog.

Module ToyOps.
(** The rows the merge of [ToyLog.merge_op] writes in the toy store. *)
Definition merge_rows : list (@Row string N) :=
  [ mutate_row 7 (LogCells ToyLog.merge_record) 42%Z;
    mutate_row 200 (NodeCells "children") 42%Z;
    mutate_row 2000 (NodeCells "children") 42%Z ].

(** A split of the edge between supervoxels 1 and 12, which have the roots
    1000 and 1001, and one of the edge between 1 and 2, which share the
    root 1000. *)
Definition split_1_12 : SplitOperation :=
  {| split_base :=
       {| user_id := "alice"; source_ids := Some [1]; sink_ids := Some [12];
          source_coords := None; sink_coords := None |};
     split_removed_edges := [(1, 12)] |}.

Definition split_1_2 : SplitOperation :=
  {| split_base :=
       {| user_id := "alice"; source_ids := Some [1]; sink_ids := Some [2];
          source_coords := None; sink_coords := None |};
     split_removed_edges := [(1, 2)] |}.

(** A multicut between supervoxels 3 and 4, for which the toy min-cut is
    empty. *)
Definition multicut_3_4 : MulticutOperation :=
  {| multicut_base :=
       {| user_id := "alice"; source_ids := Some [3]; sink_ids := Some [4];
          source_coords := Some [[0; 0; 0]%Z];
          sink_coords := Some [[1; 0; 0]%Z] |};
     multicut_removed_edges := None;
     bbox_offset := None |}.

(** The construction of a merge of supervoxel 5 with itself. *)
Definition merge_5_5 : @Construction N :=
  NewMerge "alice" [(5, 5)] None None None.

Definition split_far : @Operation N := Split split_1_12.
Definition multicut_empty : @Operation N := Multicut multicut_3_4.
End ToyOps.

(** * Further functions of [app/app_utils.py] *)

(** The values [toboolean] is called with: "bool/int/str", or [None]. *)
Inductive Value : Type :=
  | VNone
  | VBool (b : bool)
  | VInt (z : Z)
  | VStr (s : string).

(** The truth value of a Python object. *)
Definition truthy (value : Value) : bool :=
  match value with
  | VNone => false
  | VBool b => b
  | VInt z => negb (z =? 0)%Z
  | VStr s => negb (String.eqb s "")
  end.

(** [toboolean].  [value.lower()] exists on strings only; on an integer
    the attribute lookup fails and the bare [except] turns that into
    [ValueError]. *)
Definition toboolean (value : Value) : result bool :=
  if negb (truthy value) then Raise ValueError
  else
    match value with
    | VBool b => Return b
    | VStr s =>
        let value := lower s in
        if bool_decide (value ∈ ["true"; "1"]) then Return true
        else if bool_decide (value ∈ ["false"; "0"]) then Return false
        else Raise ValueError
    | VInt _ | VNone => Raise ValueError
    end.

(** [tobinary], on an array of [np.uint64]. *)
Definition tobinary (ids : list node_id) : list Byte.byte := tobytes ids.

(** [tobinary_multiples] *)
Definition tobinary_multiples (arr : list (list node_id))
    : list (list Byte.byte) :=
  tobinary <$> arr.

(** [np.frombuffer(data, np.uint64)], with which [handle_roots] and the
    other binary handlers of [common.py] read a request body: the buffer
    size must be a multiple of the element size. *)
Definition np_frombuffer (data : list Byte.byte) : result (list node_id) :=
  if (length data mod 8 =? 0)%nat
  then Return (frombuffer (length data / 8) data)
  else Raise ValueError.

Section log_db.
(** [World]: everything outside the process.  [LogDb]: a
    [FlaskLogDatabase] object. *)
Context {World LogDb : Type}.

(** What [get_log_db] and [after_request] call and is not among the
    sources. *)
Record LogEnvironment : Type := {
  (* get_datastore_client(current_app.config) followed by
     flask_log_db.FlaskLogDatabase(table_id, client=..., credentials=...) *)
  FlaskLogDatabase_new : World → string → result LogDb;
  (* log_db.add_success_log(user_id=..., url=..., request_data=..., ...) *)
  add_success_log :
    LogDb → World → string → string → list Byte.byte → result unit * World;
}.

(** The part of the process state that [get_log_db] and [after_request]
    use: the entry of the module-level [CACHE] under the key ["log_db"]
    ([None]: no such key; [get_cg] stores handles under table ids, which
    start with ["minnie"] or ["pinky_"]), the two attributes of
    [current_app], and the world outside. *)
Record LogProcess : Type := {
  CACHE_log_db : option LogDb;
  app_user_id : option string;
  app_table_id : option string;
  outside : World;
}.

Inductive LogEvent : Type :=
  | EvNewLogDb (table_id : string)
  | EvSuccessLog (log_db : LogDb) (user_id url : string).

Variable log_env : LogEnvironment.

(** [app_utils.get_log_db] *)
Definition get_log_db (table_id : string) : M LogProcess LogEvent LogDb :=
  λ p,
    match CACHE_log_db p with
    | Some log_db => (Return log_db, p, [])
    | None =>
        match FlaskLogDatabase_new log_env (outside p) table_id with
        | Return log_db =>
            (Return log_db,
             {| CACHE_log_db := Some log_db; app_user_id := app_user_id p;
                app_table_id := app_table_id p; outside := outside p |},
             [EvNewLogDb table_id])
        | Raise e => (Raise e, p, [EvNewLogDb table_id])
        end
    end.
End log_db.

(** * Further functions of [app/segmentation/common.py] *)

(** [needle in haystack] on strings. *)
Fixpoint contains (needle haystack : string) : bool :=
  String.prefix needle haystack
  || match haystack with
     | EmptyString => false
     | String _ rest => contains needle rest
     end.

(** A response: the status code, the headers (a case-insensitive
    mapping, keyed here by the lower-case name), the body and the
    [direct_passthrough] flag. *)
Record Response : Type := {
  status_code : Z;
  headers : gmap string string;
  data : list Byte.byte;
  direct_passthrough : bool;
}.

(** What [after_request] reads of the request. *)
Record Request : Type := {
  accept_encoding : option string;
  request_url : string;
  request_data : list Byte.byte;
}.

Section after_request.
Context {World LogDb : Type}.
Variable log_env : @LogEnvironment World LogDb.
(** [compression.gzip_compress] of [cloudvolume] *)
Variable gzip_compress : list Byte.byte → list Byte.byte.

(** The [try] block of [after_request]. *)
Definition log_request (request : Request)
    : M (@LogProcess World LogDb) (@LogEvent LogDb) unit :=
  λ p,
    let user_id := default "" (app_user_id p) in
    match app_table_id p with
    | Some table_id =>
        (let* log_db := get_log_db log_env table_id in
         let* _ := emit (EvSuccessLog log_db user_id (request_url request)) in
         call (λ p,
           match add_success_log log_env log_db (outside p) user_id
                   (request_url request) (request_data request) with
           | (r, w) =>
               (r, {| CACHE_log_db := CACHE_log_db p;
                      app_user_id := app_user_id p;
                      app_table_id := app_table_id p; outside := w |})
           end)) p
    | None => (Return tt, p, [])
    end.

(** [after_request] from [accept_encoding = ...] on. *)
Definition encode_response (request : Request) (response : Response)
    : Response :=
  let accept_encoding := default "" (accept_encoding request) in
  if negb (contains "gzip" (lower accept_encoding)) then response
  else
    let response :=
      {| status_code := status_code response; headers := headers response;
         data := data response; direct_passthrough := false |} in
    if (status_code response <? 200)%Z || (300 <=? status_code response)%Z
       || bool_decide (is_Some (headers response !! "content-encoding"))
    then response
    else
      let compressed := gzip_compress (data response) in
      {| status_code := status_code response;
         headers :=
           <["content-length" := pretty (length compressed)]>
             (<["vary" := "Accept-Encoding"]>
                (<["content-encoding" := "gzip"]> (headers response)));
         data := compressed;
         direct_passthrough := false |}.

(** [after_request]: [except Exception] catches whatever the log
    raises. *)
Definition after_request (request : Request) (response : Response)
    : M (@LogProcess World LogDb) (@LogEvent LogDb) Response :=
  let* _ := try_except (log_request request) (λ e, Some (ret tt)) in
  ret (encode_response request response).
End after_request.

(** The columns of the data frame [tabular_change_log_recent] returns. *)
Record ChangeLogTable : Type := {
  column_operation_id : list node_id;
  column_timestamp : list timestamp;
  column_user_id : list string;
}.

(** One turn of [for operation_id in operation_ids] in
    [tabular_change_log_recent]: the two appends. *)
Definition change_log_row (log_rows : gmap node_id LogEntry)
    (acc : list timestamp * list string) (operation_id : node_id)
    : list timestamp * list string :=
  match log_rows !! operation_id with
  | None => acc
  | Some operation =>
      (acc.1 ++ [entry_timestamp operation],
       acc.2 ++ [entry_UserID operation])
  end.

(** [tabular_change_log_recent] once the log has been read. *)
Definition change_log_table_of_log (log_rows : gmap node_id LogEntry)
    : ChangeLogTable :=
  let operation_ids := sorted_entry_ids log_rows in
  let lists := foldl (change_log_row log_rows) ([], []) operation_ids in
  {| column_operation_id := operation_ids;
     column_timestamp := lists.1;
     column_user_id := lists.2 |}.

Section change_log.
Context {World Handle Coord : Type}.
Variable env : @Environment World Handle Coord.

(** [tabular_change_log_recent]; [timestamp_arg] is the query argument
    [timestamp]. *)
Definition tabular_change_log_recent (table_id : string)
    (timestamp_arg : option string) (auth_user : string)
    : M (@App World Handle) (@AppEvent Coord) ChangeLogTable :=
  let* _ := set_table_id table_id in
  let* _ := set_user_id auth_user in
  let* start_time := lift (_parse_timestamp env timestamp_arg) in
  (* Call ChunkedGraph *)
  let* cg := get_cg env table_id [] in
  let* log_rows :=
    (let* _ := emit (EvReadLog start_time) in
     world_reads (λ w, read_log_entries env cg w start_time)) in
  ret (change_log_table_of_log log_rows).
End change_log.

(** * [ingest/initialization/abstract_layers.py] *)

(** The order of two positions paired with their keys. *)
Definition key_le (a b : nat * N) : Prop := a.2 ≤ b.2.

Global Instance key_le_dec : RelDecision key_le.
Proof. intros a b. unfold key_le. apply _. Defined.

(** [np.argsort(keys)]: the positions of [keys] by ascending key.  numpy
    does not say in which order it leaves positions with equal keys; the
    properties below are stated for distinct keys. *)
Definition np_argsort (keys : list N) : list nat :=
  (merge_sort key_le (zip (seq 0 (length keys)) keys)).*1.

(** [arr[positions]], the indexing of an array by an array of positions. *)
Fixpoint take_positions {A} (arr : list A) (positions : list nat)
    : result (list A) :=
  match positions with
  | [] => Return []
  | i :: rest =>
      do! x := index arr i in
      do! xs := take_positions arr rest in
      Return (x :: xs)
  end.

(** [arr[mask]], the indexing of an array by a boolean array of its
    length. *)
Definition select {A} (arr : list A) (mask : list bool) : list A :=
  (filter (λ xm, xm.2 = true) (zip arr mask)).*1.

(** The loop of [_filter_latest_ids]: for every row, the number of earlier
    rows with its value; [counter] is the [defaultdict(int)]. *)
Fixpoint occurrences_so_far (counter : gmap node_id nat)
    (max_child_ids : list node_id) : list nat :=
  match max_child_ids with
  | [] => []
  | max_child_id :: rest =>
      let seen := default 0%nat (counter !! max_child_id) in
      seen :: occurrences_so_far (<[max_child_id := S seen]> counter) rest
  end.

(** [_filter_latest_ids] *)
Definition _filter_latest_ids
    (row_ids segment_ids max_children_ids : list node_id)
    : result (list node_id) :=
  let sorting := reverse (np_argsort segment_ids) in
  do! row_ids := take_positions row_ids sorting in
  do! max_child_ids := take_positions max_children_ids sorting in
  let max_child_ids_occ_so_far := occurrences_so_far ∅ max_child_ids in
  Return (select row_ids
            ((λ occ, bool_decide (occ = 0%nat))
               <$> max_child_ids_occ_so_far)).

(** The part of [add_layer] between the two reads and the graph
    construction: every child that no cross edge touches gets an edge to
    itself.  [edge_ids] is the list of cross edges, [children_ids] the
    array of the children. *)
Definition isolated_node_ids (children_ids : list node_id)
    (edge_ids : list edge) : list node_id :=
  filter (λ child, child ∉ np_unique (ravel edge_ids)) children_ids.

Definition extended_edge_ids (children_ids : list node_id)
    (edge_ids : list edge) : list edge :=
  let add_node_ids := isolated_node_ids children_ids edge_ids in
  let add_edge_ids := zip add_node_ids add_node_ids in
  edge_ids ++ add_edge_ids.

(** [d[key] = value] on a dict, kept as its items in insertion order: the
    value of a key that is there is replaced where it is. *)
Fixpoint dict_set {V} (d : list (node_id * V)) (key : node_id) (value : V)
    : list (node_id * V) :=
  match d with
  | [] => [(key, value)]
  | (k, v) :: rest =>
      if bool_decide (k = key) then (key, value) :: rest
      else (k, v) :: dict_set rest key value
  end.

(** The first loop of [_get_cross_edges_raw].  A row of [range_read] is
    kept as the value of its cross edge column, [None] when the row does
    not have that column. *)
Fixpoint neighboring_chunk_supervoxels
    (range_read : gmap node_id (option (list edge)))
    (l2ids : list node_id) (d : list (node_id * list node_id))
    : result (list (node_id * list node_id)) :=
  match l2ids with
  | [] => Return d
  | l2id :: rest =>
      do! row := getitem (range_read !! l2id) in
      match row with
      | None => neighboring_chunk_supervoxels range_read rest d
      | Some edges =>
          neighboring_chunk_supervoxels range_read rest
            (dict_set d l2id edges.*2)
      end
  end.

(** [_get_cross_edges_raw] *)
Definition _get_cross_edges_raw
    (range_read : gmap node_id (option (list edge)))
    (l2ids : list node_id) : result (list edge) :=
  do! parent_neighboring_chunk_supervoxels_d :=
    neighboring_chunk_supervoxels range_read l2ids [] in
  Return
    (flat_map
       (λ item, let '(l2id, nebor_svs) := item in
                zip (replicate (length nebor_svs) l2id) nebor_svs)
       parent_neighboring_chunk_supervoxels_d).

(** The cells [_write_components] writes: [{Hierarchy.Parent: parent_id}]
    on the row of a node, [{Hierarchy.Child: node_ids}] on the row of a
    parent. *)
Inductive HierarchyCell : Type :=
  | ParentCell (parent_id : node_id)
  | ChildCell (node_ids : list node_id).

Section write_components.
(** [Store]: the state of the backing store, with its id counters.
    [Affinity]: as in [graphoperation.py]; no row written here has
    one. *)
Context {Store Affinity : Type}.

Inductive IngestEvent : Type :=
  | EvReserved (chunk_id : node_id) (step : nat) (ids : list node_id)
  | EvWritten (rows : list (@Row HierarchyCell Affinity)).

(** What [_write_components] uses of the graph object and of
    [chunkedgraph_utils], none of it among the sources. *)
Record IngestGraph : Type := {
  n_layers : N;
  use_skip_connections : bool;
  (* cg.get_parent_chunk_id_dict(chunk_id): layer -> chunk id *)
  get_parent_chunk_id_dict : node_id → gmap N node_id;
  (* cg.get_unique_node_id_range(chunk_id, step=...) *)
  get_unique_node_id_range :
    Store → node_id → nat → result (list node_id) * Store;
  (* cg.bulk_write(rows) *)
  bulk_write_rows :
    Store → list (@Row HierarchyCell Affinity) → result unit * Store;
  (* chunkedgraph_utils.get_valid_timestamp *)
  get_valid_timestamp : option timestamp → timestamp;
}.

Variable cg_instance : IngestGraph.

Definition cg_get_unique_node_id_range (chunk_id : node_id) (step : nat)
    : M Store IngestEvent (list node_id) := λ s,
  match get_unique_node_id_range cg_instance s chunk_id step with
  | (Return ids, s1) => (Return ids, s1, [EvReserved chunk_id step ids])
  | (Raise e, s1) => (Raise e, s1, [])
  end.

Definition cg_bulk_write_rows (rows : list (@Row HierarchyCell Affinity))
    : M Store IngestEvent unit :=
  let* _ := emit (EvWritten rows) in
  call (λ s, bulk_write_rows cg_instance s rows).

(** The first loop of [_write_components], one turn: a component of one
    node goes to the top layer when the graph uses skip connections, every
    other one stays in the layer. *)
Definition route_component (layer_id : N)
    (cc_connections : gmap N (list (list node_id)))
    (node_ids : list node_id) : gmap N (list (list node_id)) :=
  if use_skip_connections cg_instance
     && bool_decide (length node_ids = 1%nat)
  then alter (λ l, l ++ [node_ids]) (n_layers cg_instance) cc_connections
  else alter (λ l, l ++ [node_ids]) layer_id cc_connections.

(** The rows of one component under its parent. *)
Definition component_rows (time_stamp : timestamp) (parent_id : node_id)
    (node_ids : list node_id) : list (@Row HierarchyCell Affinity) :=
  ((λ node_id, mutate_row node_id (NodeCells (ParentCell parent_id))
                 time_stamp) <$> node_ids)
  ++ [mutate_row parent_id (NodeCells (ChildCell node_ids)) time_stamp].

(** [for i_cc, node_ids in enumerate(cc_connections[parent_layer_id])],
    from the turn [i_cc] on. *)
Fixpoint write_layer_components (time_stamp : timestamp)
    (reserved_parent_ids : list node_id) (i_cc : nat)
    (ccs : list (list node_id)) (rows : list (@Row HierarchyCell Affinity))
    : M Store IngestEvent (list (@Row HierarchyCell Affinity)) :=
  match ccs with
  | [] => ret rows
  | node_ids :: rest =>
      let* parent_id := lift (index reserved_parent_ids i_cc) in
      let rows := rows ++ component_rows time_stamp parent_id node_ids in
      let* rows :=
        (if (100000 <? N.of_nat (length rows))%N
         then let* _ := cg_bulk_write_rows rows in ret []
         else ret rows) in
      write_layer_components time_stamp reserved_parent_ids (S i_cc) rest
        rows
  end.

(** One turn of [for parent_layer_id in (layer_id, cg_instance.n_layers)]. *)
Definition write_parent_layer (time_stamp : timestamp)
    (parent_chunk_id_dict : gmap N node_id)
    (cc_connections : gmap N (list (list node_id))) (parent_layer_id : N)
    (rows : list (@Row HierarchyCell Affinity))
    : M Store IngestEvent (list (@Row HierarchyCell Affinity)) :=
  let* parent_chunk_id :=
    lift (getitem (parent_chunk_id_dict !! parent_layer_id)) in
  let ccs := default [] (cc_connections !! parent_layer_id) in
  let* reserved_parent_ids :=
    cg_get_unique_node_id_range parent_chunk_id (length ccs) in
  write_layer_components time_stamp reserved_parent_ids 0 ccs rows.

(** [_write_components] *)
Definition _write_components (layer_id : N) (parent_chunk_id : node_id)
    (ccs : list (list node_id)) (time_stamp : option timestamp)
    : M Store IngestEvent unit :=
  let time_stamp := get_valid_timestamp cg_instance time_stamp in
  let cc_connections :=
    <[n_layers cg_instance := []]> (<[layer_id := []]> ∅) in
  let cc_connections :=
    foldl (route_component layer_id) cc_connections ccs in
  let rows := [] in
  let parent_chunk_id_dict :=
    get_parent_chunk_id_dict cg_instance parent_chunk_id in
  (* Iterate through layers *)
  let* rows :=
    write_parent_layer time_stamp parent_chunk_id_dict cc_connections
      layer_id rows in
  let* rows :=
    write_parent_layer time_stamp parent_chunk_id_dict cc_connections
      (n_layers cg_instance) rows in
  cg_bulk_write_rows rows.
End write_components.

(** * Vocabulary of further properties *)

Section layer_components.
Context {Store Affinity : Type}.
Variable cg_instance : @IngestGraph Store Affinity.

(** [cc_connections[parent_layer_id]] after the first loop of
    [_write_components]. *)
Definition layer_components (layer_id : N) (ccs : list (list node_id))
    (parent_layer_id : N) : list (list node_id) :=
  default []
    (foldl (route_component cg_instance layer_id)
       (<[n_layers cg_instance := []]> (<[layer_id := []]> ∅)) ccs
     !! parent_layer_id).

(** A batch that the loop flushes: more than 100000 rows. *)
Definition full_batch (rows : list (@Row HierarchyCell Affinity)) : Prop :=
  (100000 < N.of_nat (length rows))%N.
End layer_components.

Section write_components_vocabulary.
Context {Store Affinity : Type}.
Variable cg_instance : @IngestGraph Store Affinity.

(** All rows handed to [bulk_write] in a run, in the order written, and
    the id ranges reserved. *)
Definition written_rows (t : list (@IngestEvent Affinity))
    : list (@Row HierarchyCell Affinity) :=
  flat_map (λ ev, match ev with
                  | EvWritten rows => rows
                  | EvReserved _ _ _ => []
                  end) t.

Definition reservations (t : list (@IngestEvent Affinity))
    : list (node_id * nat * list node_id) :=
  omap (λ ev, match ev with
              | EvReserved chunk_id step ids => Some (chunk_id, step, ids)
              | EvWritten _ => None
              end) t.

Definition batches (t : list (@IngestEvent Affinity))
    : list (list (@Row HierarchyCell Affinity)) :=
  omap (λ ev, match ev with
              | EvWritten rows => Some rows
              | EvReserved _ _ _ => None
              end) t.

(** A component that skips to the top layer. *)
Definition skips (node_ids : list node_id) : Prop :=
  use_skip_connections cg_instance = true ∧ length node_ids = 1%nat.

Global Instance skips_dec node_ids : Decision (skips node_ids).
Proof. unfold skips. apply _. Defined.

(** The rows of the components [ccs] under the parents [parent_ids], in
    order. *)
Definition components_rows (time_stamp : timestamp)
    (parent_ids : list node_id) (ccs : list (list node_id))
    : list (@Row HierarchyCell Affinity) :=
  flat_map (λ pc, component_rows time_stamp pc.1 pc.2) (zip parent_ids ccs).
End write_components_vocabulary.


(** The far ends of the cross edges of the row [l2id], none when the row
    is missing or has no cross edge column. *)
Definition neighbors_of (range_read : gmap node_id (option (list edge)))
    (l2id : node_id) : list node_id :=
  match range_read !! l2id with
  | Some (Some edges) => edges.*2
  | _ => []
  end.


(** The elements of [l] whose key is not in [seen] and is not the key of
    an earlier element of [l]. *)
Fixpoint first_occurrences {A} (key : A → node_id) (seen : list node_id)
    (l : list A) : list A :=
  match l with
  | [] => []
  | x :: rest =>
      if bool_decide (key x ∈ seen) then first_occurrences key seen rest
      else x :: first_occurrences key (key x :: seen) rest
  end.

(** The row at position [i] has the largest segment id among the rows
    that have its largest child. *)
Definition latest_row (segment_ids max_children_ids : list node_id)
    (i : nat) : Prop :=
  ∃ segment_id max_child_id,
    segment_ids !! i = Some segment_id
    ∧ max_children_ids !! i = Some max_child_id
    ∧ ∀ j other,
        max_children_ids !! j = Some max_child_id →
        segment_ids !! j = Some other →
        other ≤ segment_id.


(** What a handler answers to the outcome [r] of an edit call: the result,
    or [InternalServerError] for a [LockingError], [BadRequest] for a
    [PreconditionError] or a [PostconditionError], and any other exception
    as it is. *)
Definition edit_response {A} (r : result A) : result A :=
  match r with
  | Return x => Return x
  | Raise LockingError => Raise InternalServerError
  | Raise PreconditionError | Raise PostconditionError => Raise BadRequest
  | Raise e => Raise e
  end.

(** The change log row of the log entry with id [entry_id]: its id, its
    time stamp and its user. *)
Definition log_row_of (log_rows : gmap node_id LogEntry)
    (entry_id : node_id) : option (node_id * timestamp * string) :=
  (λ entry, (entry_id, entry_timestamp entry, entry_UserID entry))
    <$> log_rows !! entry_id.

(** The rows of a change log table, one triple per row. *)
Definition table_rows (table : ChangeLogTable)
    : list (node_id * timestamp * string) :=
  zip (zip (column_operation_id table) (column_timestamp table))
    (column_user_id table).


Section operation_vocabulary.
Context {Store HierarchyCells Affinity : Type}.
Variable cg : @ChunkedGraph Store HierarchyCells Affinity.

(** The supervoxels whose roots [apply] looks up: both columns of the added
    edges for a merge, the sources followed by the sinks otherwise. *)
Definition endpoints (op : @Operation Affinity) : result (list node_id) :=
  match op with
  | Merge o => Return (ravel (added_edges o))
  | Split o => source_and_sink_ids (split_base o)
  | Multicut o => source_and_sink_ids (multicut_base o)
  end.

(** A construction supplies at least one edge, or is a multicut. *)
Definition supplies_edges (c : @Construction Affinity) : Prop :=
  match c with
  | NewMerge _ edges _ _ _ | NewSplit _ edges _ _ => edges ≠ []
  | NewMulticut _ _ _ _ _ _ => True
  end.

(** No supervoxel is both a source and a sink, and all of them are layer 1
    nodes. *)
Definition valid_supervoxels (c : @Construction Affinity) : Prop :=
  (∀ x, x ∈ supplied_sources c → x ∉ supplied_sinks c)
  ∧ ∀ x, x ∈ supplied_sources c ++ supplied_sinks c →
         get_chunk_layer cg x = 1.

(** The [val_dict] of the log row an operation writes. *)
Definition logged (op : @Operation Affinity) (op_id : node_id)
    (time_stamp : timestamp) (root_ids : list node_id)
    : @LogRecord Affinity :=
  match row_cells (HierarchyCells := HierarchyCells)
          (create_log_record op op_id time_stamp root_ids) with
  | LogCells val_dict => val_dict
  | NodeCells _ =>
      {| UserID := None; RootID := None; SourceID := None; SinkID := None;
         SourceCoordinate := None; SinkCoordinate := None;
         AddedEdge := None; Affinity_ := None; RemovedEdge := None;
         BoundingBoxOffset := None |}
  end.
End operation_vocabulary.

(** Further constructions in the toy store: a merge and a multicut of
    the supervoxels 1 and 2. *)
Module ToyMore.
Definition merge_1_2 : @Construction N :=
  NewMerge "alice" [(1, 2)] None None None.

Definition multicut_1_2 : @Construction N :=
  NewMulticut "alice" [1] [2] [[0; 0; 0]%Z] [[1; 0; 0]%Z] None.

Definition merge_1_12 : @Operation N :=
  Merge {| merge_base :=
             {| user_id := "alice"; source_ids := Some [12];
                sink_ids := Some [1]; source_coords := None;
                sink_coords := None |};
           added_edges := [(12, 1)];
           affinities := None |}.

(** The toy environment with the store unreachable: no graph can be
    constructed. *)
Definition env_down : @Environment nat string (list Z) :=
  let up := Toy.env true in
  {| ChunkedGraph_new := λ _ _, Raise (CollaboratorError "bigtable");
     voxel_coordinates := voxel_coordinates up;
     get_chunk_coordinates := get_chunk_coordinates up;
     handle_supervoxel_id_lookup := handle_supervoxel_id_lookup up;
     add_edges := add_edges up;
     remove_edges := remove_edges up;
     undo_operation := undo_operation up;
     redo_operation := redo_operation up;
     read_log_entries := read_log_entries up;
     getenv := getenv up;
     messaging_publish := messaging_publish up;
     parse_timestamp_string := parse_timestamp_string up |}.

(** A request log: the database of a table is named after it, the world
    counts the log entries. *)
Definition log_env : @LogEnvironment nat string :=
  {| FlaskLogDatabase_new := λ _ table_id, Return ("log of " +:+ table_id);
     add_success_log := λ _ w _ _ _, (Return tt, Datatypes.S w) |}.



(** The toy environment in which an undo or a redo commits without new
    level 2 ids, except for the operation [failing], if any, whose undo
    fails its precondition. *)
Definition env_quiet (failing : option node_id)
    : @Environment nat string (list Z) :=
  let up := Toy.env true in
  let edit := λ (w : nat) (op : node_id),
    if bool_decide (failing = Some op)
    then (Raise PreconditionError, w)
    else (Return {| result_operation_id := 5; new_root_ids := Some [2000];
                    new_lvl2_ids := [] |}, Datatypes.S w) in
  {| ChunkedGraph_new := ChunkedGraph_new up;
     voxel_coordinates := voxel_coordinates up;
     get_chunk_coordinates := get_chunk_coordinates up;
     handle_supervoxel_id_lookup := handle_supervoxel_id_lookup up;
     add_edges := add_edges up;
     remove_edges := remove_edges up;
     undo_operation := λ _ w _ op, edit w op;
     redo_operation := λ _ w _ op, edit w op;
     read_log_entries := read_log_entries up;
     getenv := getenv up;
     messaging_publish := messaging_publish up;
     parse_timestamp_string := parse_timestamp_string up |}.

(** The result of an edit without new level 2 ids. *)
Definition quiet_result : EditResult :=
  {| result_operation_id := 5; new_root_ids := Some [2000];
     new_lvl2_ids := [] |}.
End ToyMore.

(** A range read of a layer 2 chunk: the rows 20 and 22 have cross edges,
    the row 21 has none. *)
Module ToyIngest.
Definition range_read : gmap node_id (option (list edge)) :=
  {[ 20 := Some [(1, 5); (2, 6)]; 21 := None; 22 := Some [(3, 7)] ]}.

(** A graph of 4 layers with skip connections.  The parent chunk of layer
    [l] has the id [100 * l]; the store counts the ids handed out, and the
    ids of a chunk are its id plus the count; every write succeeds. *)
Definition cg : @IngestGraph nat unit :=
  {| n_layers := 4;
     use_skip_connections := true;
     get_parent_chunk_id_dict := λ _, {[ 3 := 300; 4 := 400 ]};
     get_unique_node_id_range := λ s chunk_id step,
       (Return ((λ k, chunk_id + N.of_nat (s + k)) <$> seq 1 step),
        (s + step)%nat);
     bulk_write_rows := λ s _, (Return tt, s);
     get_valid_timestamp := default 0%Z |}.

End ToyIngest.

(** * Properties *)

(** ** The monad *)

Section monad_facts.
Context {S E : Type}.
Implicit Types (s : S).

Lemma bind_Return {A B} (m : M S E A) (k : A → M S E B) s a s1 t1 :
  m s = (Return a, s1, t1) →
  bind m k s = (outcome (k a s1), final_store (k a s1),
                t1 ++ events (k a s1)).
Proof.
  intros Hm. unfold bind. rewrite Hm.
  by destruct (k a s1) as [[r s2] t2].
Qed.

Lemma bind_Raise {A B} (m : M S E A) (k : A → M S E B) s e s1 t1 :
  m s = (Raise e, s1, t1) → bind m k s = (Raise e, s1, t1).
Proof. intros Hm. unfold bind. by rewrite Hm. Qed.

Lemma run_eta {A} (x : result A * S * list E) :
  x = (outcome x, final_store x, events x).
Proof. by destruct x as [[r s] t]. Qed.
End monad_facts.

(** ** [np.unique] *)

Lemma np_unique_elem_of (ids : list node_id) (x : node_id) :
  x ∈ np_unique ids ↔ x ∈ ids.
Proof.
  unfold np_unique. rewrite merge_sort_Permutation.
  apply elem_of_remove_dups.
Qed.

Lemma np_unique_NoDup (ids : list node_id) : NoDup (np_unique ids).
Proof.
  unfold np_unique. rewrite merge_sort_Permutation.
  apply NoDup_remove_dups.
Qed.

Lemma np_unique_Sorted (ids : list node_id) : Sorted N.le (np_unique ids).
Proof. unfold np_unique. apply (Sorted_merge_sort N.le). Qed.

(** Two different values among [ids] leave at least two distinct ones. *)
Lemma np_unique_two (ids : list node_id) (a b : node_id) :
  a ∈ ids → b ∈ ids → a ≠ b → (1 < length (np_unique ids))%nat.
Proof.
  intros Ha Hb Hab.
  apply np_unique_elem_of in Ha, Hb.
  destruct (np_unique ids) as [|x [|y l]]; simpl; [|  | lia].
  - by apply elem_of_nil in Ha.
  - apply list_elem_of_singleton in Ha, Hb. congruence.
Qed.

(** When all of [ids] are the same value [r], that value alone is left. *)
Lemma np_unique_one (ids : list node_id) (r : node_id) :
  r ∈ ids → (∀ x, x ∈ ids → x = r) → np_unique ids = [r].
Proof.
  intros Hr Hall.
  pose proof (np_unique_NoDup ids) as Hnd.
  apply np_unique_elem_of in Hr.
  assert (Hall' : ∀ x, x ∈ np_unique ids → x = r).
  { intros x Hx. apply Hall. by apply np_unique_elem_of. }
  destruct (np_unique ids) as [|x [|y l]].
  - by apply elem_of_nil in Hr.
  - f_equal. apply Hall'. left.
  - exfalso. apply NoDup_cons in Hnd as [Hx _]. apply Hx.
    rewrite (Hall' x), (Hall' y); [left | right; left | left].
Qed.

(** ** The constructors *)

Section constructor_facts.
Context {Store HierarchyCells Affinity : Type}.
Variable cg : @ChunkedGraph Store HierarchyCells Affinity.

Lemma any_in1d_shared (sinks sources : list node_id) (x : node_id) :
  x ∈ sources → x ∈ sinks → any_in1d sinks sources = true.
Proof.
  intros Hs Hk. unfold any_in1d. apply existsb_exists.
  exists x. split; [by apply list_elem_of_In | by apply bool_decide_eq_true].
Qed.

Lemma GraphEditOperation_init_shared user sources sinks s_coords k_coords
    (x : node_id) :
  x ∈ sources → x ∈ sinks →
  GraphEditOperation_init cg user (Some sources) (Some sinks) s_coords
    k_coords = Raise PreconditionError.
Proof.
  intros Hs Hk. unfold GraphEditOperation_init.
  by rewrite (any_in1d_shared _ _ x Hs Hk).
Qed.

Lemma transpose_nonempty (edges : list edge) (x : node_id) :
  x ∈ edges.*1 → transpose edges = Return (edges.*1, edges.*2).
Proof. destruct edges; [by intros ?%elem_of_nil | done]. Qed.
End constructor_facts.

(** C10. Constructing a merge, a split or a multicut whose source and
    sink supervoxels share an id raises [PreconditionError].  The
    constructors do not run in the store monad: seen as a computation
    there, the store is left as it was and no collaborator is called. *)
Theorem construct_shared_supervoxel {Store HierarchyCells Affinity : Type}
    (cg : @ChunkedGraph Store HierarchyCells Affinity)
    (c : Construction) (x : node_id) (s : Store) :
  x ∈ supplied_sources c →
  x ∈ supplied_sinks c →
  construct cg c = Raise PreconditionError
  ∧ lift (E := @BackendEvent HierarchyCells Affinity) (construct cg c) s
    = (Raise PreconditionError, s, []).
Proof.
  intros Hs Hk.
  assert (construct cg c = Raise PreconditionError) as Hc.
  { destruct c as [user edges sc kc affs|user edges sc kc
                   |user sources sinks sc kc bbox]; simpl in *.
    - unfold MergeOperation_init.
      rewrite (transpose_nonempty edges x Hs). cbn [result_bind fst snd].
      by rewrite (GraphEditOperation_init_shared cg _ _ _ _ _ x Hs Hk).
    - unfold SplitOperation_init.
      rewrite (transpose_nonempty edges x Hs). cbn [result_bind fst snd].
      by rewrite (GraphEditOperation_init_shared cg _ _ _ _ _ x Hs Hk).
    - unfold MulticutOperation_init.
      by rewrite (GraphEditOperation_init_shared cg _ _ _ _ _ x Hs Hk). }
  split; [done |]. unfold lift. by rewrite Hc.
Qed.

(** A merge of a supervoxel with itself, and a merge along a chain. *)
Lemma construct_shared_supervoxel_witness :
  (5 ∈ supplied_sources ToyOps.merge_5_5
   ∧ 5 ∈ supplied_sinks ToyOps.merge_5_5)
  ∧ construct Toy.cg ToyOps.merge_5_5 = Raise PreconditionError.
Proof.
  split.
  - split; simpl; apply list_elem_of_singleton; reflexivity.
  - apply (construct_shared_supervoxel Toy.cg ToyOps.merge_5_5 5 []).
    + simpl. apply list_elem_of_singleton. reflexivity.
    + simpl. apply list_elem_of_singleton. reflexivity.
Defined.

(** ** [from_log_record] *)

Section from_log_record_facts.
Context {Store HierarchyCells Affinity : Type}.
Variable cg : @ChunkedGraph Store HierarchyCells Affinity.

Lemma MergeOperation_init_fields user edges sc kc affs
    (m : @MergeOperation Affinity) :
  MergeOperation_init cg user edges sc kc affs = Return m →
  added_edges m = edges ∧ affinities m = affs.
Proof.
  unfold MergeOperation_init.
  destruct (transpose edges) as [cols|]; cbn [result_bind]; [|done].
  destruct (GraphEditOperation_init cg user _ _ sc kc);
    cbn [result_bind]; [|done].
  by intros [= <-].
Qed.

Lemma SplitOperation_init_fields user edges sc kc (m : SplitOperation) :
  SplitOperation_init cg user edges sc kc = Return m →
  split_removed_edges m = edges.
Proof.
  unfold SplitOperation_init.
  destruct (transpose edges) as [cols|]; cbn [result_bind]; [|done].
  destruct (GraphEditOperation_init cg user _ _ sc kc);
    cbn [result_bind]; [|done].
  by intros [= <-].
Qed.

Lemma MulticutOperation_init_fields user sources sinks sc kc bbox
    (m : MulticutOperation) :
  MulticutOperation_init cg user sources sinks sc kc bbox = Return m →
  multicut_removed_edges m = None ∧ bbox_offset m = bbox.
Proof.
  unfold MulticutOperation_init.
  destruct (GraphEditOperation_init cg user _ _ _ _);
    cbn [result_bind]; [|done].
  by intros [= <-].
Qed.
End from_log_record_facts.

(** C5, as amended.  For a log record that has the [UserID], [SourceID],
    [SinkID], [SourceCoordinate] and [SinkCoordinate] columns,
    [from_log_record] calls
    - the [MergeOperation] constructor on the logged added edges and
      affinities when the record has [AddedEdge] (and [Affinity]);
    - otherwise, when it has [RemovedEdge], the [SplitOperation]
      constructor on the logged removed edges if [multicut_as_split] is set
      or [BoundingBoxOffset] is missing, and else the [MulticutOperation]
      constructor on the logged ids, coordinates and offset;
    - and raises [PreconditionError] when it has neither.
    What it returns is what the constructor returns or raises.  A returned
    merge or split carries the logged edges; a returned multicut carries no
    removed edges. *)
Theorem from_log_record_dispatch {Store HierarchyCells Affinity : Type}
    (cg : @ChunkedGraph Store HierarchyCells Affinity)
    (log_record : LogRecord) (multicut_as_split : bool)
    (user : string) (sources sinks : list node_id)
    (s_coords k_coords : list coordinates) :
  UserID log_record = Some user →
  SourceID log_record = Some sources →
  SinkID log_record = Some sinks →
  SourceCoordinate log_record = Some s_coords →
  SinkCoordinate log_record = Some k_coords →
  (∀ edges affs,
     AddedEdge log_record = Some edges →
     Affinity_ log_record = Some affs →
     from_log_record cg log_record multicut_as_split
     = construct cg (NewMerge user edges (Some s_coords) (Some k_coords)
                       (Some affs)))
  ∧ (∀ edges,
       AddedEdge log_record = None →
       RemovedEdge log_record = Some edges →
       multicut_as_split = true ∨ BoundingBoxOffset log_record = None →
       from_log_record cg log_record multicut_as_split
       = construct cg (NewSplit user edges (Some s_coords) (Some k_coords)))
  ∧ (∀ edges bbox,
       AddedEdge log_record = None →
       RemovedEdge log_record = Some edges →
       multicut_as_split = false →
       BoundingBoxOffset log_record = Some bbox →
       from_log_record cg log_record multicut_as_split
       = construct cg (NewMulticut user sources sinks s_coords k_coords
                         (Some bbox)))
  ∧ (AddedEdge log_record = None →
     RemovedEdge log_record = None →
     from_log_record cg log_record multicut_as_split
     = Raise PreconditionError)
  ∧ (∀ m,
       from_log_record cg log_record multicut_as_split = Return (Merge m) →
       AddedEdge log_record = Some (added_edges m))
  ∧ (∀ m,
       from_log_record cg log_record multicut_as_split = Return (Split m) →
       AddedEdge log_record = None
       ∧ RemovedEdge log_record = Some (split_removed_edges m)
       ∧ (multicut_as_split = true ∨ BoundingBoxOffset log_record = None))
  ∧ (∀ m,
       from_log_record cg log_record multicut_as_split
       = Return (Multicut m) →
       AddedEdge log_record = None
       ∧ is_Some (RemovedEdge log_record)
       ∧ multicut_as_split = false
       ∧ BoundingBoxOffset log_record = bbox_offset m
       ∧ is_Some (bbox_offset m)
       ∧ multicut_removed_edges m = None).
Proof.
  intros Hu Hs Hk Hsc Hkc.
  unfold from_log_record. rewrite Hu, Hs, Hk, Hsc, Hkc.
  cbn [getitem result_bind].
  destruct (AddedEdge log_record) as [added|] eqn:Hadd;
    [rewrite bool_decide_eq_true_2 by eauto
    |rewrite bool_decide_eq_false_2 by (by intros [? ?]);
     destruct (RemovedEdge log_record) as [removed|] eqn:Hrem;
     [rewrite bool_decide_eq_true_2 by eauto;
      destruct (BoundingBoxOffset log_record) as [bbox|] eqn:Hbb;
      [rewrite bool_decide_eq_true_2 by eauto
      |rewrite bool_decide_eq_false_2 by (by intros [? ?])];
      destruct multicut_as_split
     |rewrite bool_decide_eq_false_2 by (by intros [? ?])]];
    cbn [getitem result_bind orb negb construct];
    repeat apply conj; intros; simplify_eq; try done;
    try (destruct_or?; simplify_eq; done).
  all: repeat match goal with
       | H : ?c = Some _ |- context [getitem ?c] =>
           rewrite H; cbn [getitem result_bind]
       | H : context [getitem ?c] |- _ =>
           destruct c eqn:?; cbn [getitem result_bind] in H; simplify_eq
       | H : result_map _ ?c = Return _ |- _ =>
           destruct c eqn:?; cbn [result_map] in H; simplify_eq
       | H : MergeOperation_init _ _ _ _ _ _ = Return _ |- _ =>
           apply MergeOperation_init_fields in H as [? ?]
       | H : SplitOperation_init _ _ _ _ _ = Return _ |- _ =>
           apply SplitOperation_init_fields in H
       | H : MulticutOperation_init _ _ _ _ _ _ _ = Return _ |- _ =>
           apply MulticutOperation_init_fields in H as [? ?]
       end.
  all: repeat apply conj; subst; eauto; congruence.
Qed.

(** A record in the older layout decodes to the merge it logs. *)
Lemma from_log_record_dispatch_witness :
  (UserID ToyLog.full_merge_record = Some "alice"
   ∧ SourceID ToyLog.full_merge_record = Some [1]
   ∧ SinkID ToyLog.full_merge_record = Some [2]
   ∧ SourceCoordinate ToyLog.full_merge_record = Some [[0; 0; 0]%Z]
   ∧ SinkCoordinate ToyLog.full_merge_record = Some [[1; 0; 0]%Z])
  ∧ from_log_record Toy.cg ToyLog.full_merge_record true
    = construct Toy.cg
        (NewMerge "alice" [(1, 2)] (Some [[0; 0; 0]%Z])
           (Some [[1; 0; 0]%Z]) (Some [1])).
Proof.
  split; [repeat split |].
  apply (from_log_record_dispatch Toy.cg ToyLog.full_merge_record true
           "alice" [1] [2] [[0; 0; 0]%Z] [[1; 0; 0]%Z]
           eq_refl eq_refl eq_refl eq_refl eq_refl); reflexivity.
Defined.

(** C5, as stated, fails.  The record that [MergeOperation.create_log_record]
    writes for the merge of supervoxels 1 and 2 has the [AddedEdge] column
    and no [SourceID] column: decoding it raises [KeyError].  A record
    with every column whose added edge joins a supervoxel to itself has
    [AddedEdge] too: decoding it raises the constructor's
    [PreconditionError].  Neither returns a [MergeOperation]. *)
Lemma from_log_record_not_iff_AddedEdge :
  MergeOperation_init Toy.cg "alice" [(1, 2)] None None None
  = Return ToyLog.merge_op
  ∧ row_cells (HierarchyCells := string)
      (MergeOperation_create_log_record ToyLog.merge_op 7 42%Z [2000])
    = LogCells ToyLog.merge_record
  ∧ is_Some (AddedEdge ToyLog.merge_record)
  ∧ from_log_record Toy.cg ToyLog.merge_record true = Raise KeyError
  ∧ is_Some (AddedEdge ToyLog.self_loop_record)
  ∧ from_log_record Toy.cg ToyLog.self_loop_record true
    = Raise PreconditionError
  ∧ ¬ (∀ log_record,
         is_Some (AddedEdge log_record)
         ↔ ∃ m, from_log_record Toy.cg log_record true = Return (Merge m)).
Proof.
  repeat apply conj; try reflexivity; try (by eexists).
  intros Hiff.
  destruct (proj1 (Hiff ToyLog.merge_record)) as [m Hm]; [by eexists |].
  discriminate Hm.
Qed.

(** ** [apply] *)

(** Unfold one run of the store monad and split on what the collaborators
    answer. *)
Ltac unfold_run :=
  unfold apply, MergeOperation_apply, SplitOperation_apply,
    MulticutOperation_apply, RootLock, MergeOperation_locked,
    SplitOperation_locked, MulticutOperation_locked, cg_get_roots,
    cg_read_consolidated_lock_timestamp, cg_run_multicut, cg_bulk_write,
    cg_edits_add_edges, cg_edits_remove_edges, bind, emit, reads, call,
    lift, ret, raise, events, outcome, final_store in *.

Ltac split_run :=
  repeat match goal with
    | H : context [match ?x with _ => _ end] |- _ =>
        destruct x eqn:?; simplify_eq/=
    | |- context [match ?x with _ => _ end] =>
        destruct x eqn:?; simplify_eq/=
    end.

Ltac find_event :=
  repeat match goal with
    | H : _ ∈ [] |- _ => by apply elem_of_nil in H
    | H : _ ∈ _ :: _ |- _ => apply elem_of_cons in H as [?|?]; simplify_eq
    end.

Lemma stamp_rows_timestamp {HierarchyCells Affinity : Type}
    (time_stamp : timestamp) (cells : list (node_id * HierarchyCells)) :
  Forall (λ row : @Row HierarchyCells Affinity,
            row_timestamp row = time_stamp
            ∧ ∃ val_dict, row_cells row = NodeCells val_dict)
    (stamp_rows time_stamp cells).
Proof.
  unfold stamp_rows. apply Forall_fmap, Forall_true. intros [k c]. simpl.
  eauto.
Qed.

(** C1. Whenever [apply] of a merge, a split or a multicut calls
    [bulk_write], the roots it passes are the locked roots of its
    [RootLock], the first of the rows is the operation's log row, keyed by
    the operation id, the rest are hierarchy rows, and every one of them
    carries the time stamp that [read_consolidated_lock_timestamp] gave for
    the locked roots. *)
Theorem bulk_write_log_row_first {Store HierarchyCells Affinity : Type}
    (cg : @ChunkedGraph Store HierarchyCells Affinity)
    (op : Operation) (s : Store)
    (rows : list (@Row HierarchyCells Affinity)) (locks : list node_id)
    (op_id : node_id) (slow_retry : bool) :
  EvBulkWrite rows locks op_id slow_retry ∈ events (apply cg op s) →
  ∃ (root_ids : list node_id) (s1 : Store) (time_stamp : timestamp)
    (new_roots : list node_id)
    (hierarchy_rows : list (@Row HierarchyCells Affinity)),
    lock_roots cg s root_ids = (Return (op_id, locks), s1)
    ∧ read_consolidated_lock_timestamp cg s1 locks
        (replicate (length locks) op_id) = Return time_stamp
    ∧ rows = create_log_record op op_id time_stamp new_roots
             :: hierarchy_rows
    ∧ (∃ val_dict,
         create_log_record (HierarchyCells := HierarchyCells) op op_id
           time_stamp new_roots
         = mutate_row op_id (LogCells val_dict) time_stamp)
    ∧ Forall (λ row, ∃ val_dict, row_cells row = NodeCells val_dict)
        hierarchy_rows
    ∧ Forall (λ row, row_timestamp row = time_stamp) rows.
Proof.
  intros Hev. destruct op as [o|o|o]; unfold_run; simpl in *.
  all: split_run.
  all: find_event.
  all: do 5 eexists;
    repeat apply conj;
    [eassumption | eassumption | reflexivity | by eexists | | ].
  all: try (constructor; [reflexivity |]).
  all: eapply Forall_impl; [apply stamp_rows_timestamp |];
    intros row [? ?]; eauto.
Qed.


(** The merge of supervoxels 1 and 2 in the toy store. *)
Lemma bulk_write_log_row_first_witness :
  EvBulkWrite ToyOps.merge_rows [1000] 7 false
    ∈ events (apply Toy.cg (Merge ToyLog.merge_op) [])
  ∧ ∃ (root_ids : list node_id) (s1 : Toy.Store) (time_stamp : timestamp)
      (new_roots : list node_id) (hierarchy_rows : list (@Row string N)),
      lock_roots Toy.cg [] root_ids = (Return (7, [1000]), s1)
      ∧ read_consolidated_lock_timestamp Toy.cg s1 [1000]
          (replicate (length [1000]) 7) = Return time_stamp
      ∧ ToyOps.merge_rows
        = create_log_record (Merge ToyLog.merge_op) 7 time_stamp new_roots
          :: hierarchy_rows
      ∧ (∃ val_dict,
           create_log_record (HierarchyCells := string)
             (Merge ToyLog.merge_op) 7 time_stamp new_roots
           = mutate_row 7 (LogCells val_dict) time_stamp)
      ∧ Forall (λ row, ∃ val_dict, row_cells row = NodeCells val_dict)
          hierarchy_rows
      ∧ Forall (λ row, row_timestamp row = time_stamp) ToyOps.merge_rows.
Proof.
  assert (EvBulkWrite ToyOps.merge_rows [1000] 7 false
            ∈ events (apply Toy.cg (Merge ToyLog.merge_op) [])) as Hev.
  { vm_compute. do 4 apply list_elem_of_further. apply list_elem_of_here. }
  split; [exact Hev |].
  exact (bulk_write_log_row_first Toy.cg (Merge ToyLog.merge_op) []
           ToyOps.merge_rows [1000] 7 false Hev).
Defined.

(** C2. For a split or a multicut whose endpoints the store resolves to
    [roots]: when two of the roots differ, [apply] raises
    [PreconditionError] having done nothing but read the roots (no lock is
    asked for, nothing is written, the store is as before); when all of
    them are one root [r], [apply] goes on to the [RootLock] block over
    [[r]]. *)
Theorem apply_checks_single_root {Store HierarchyCells Affinity : Type}
    (cg : @ChunkedGraph Store HierarchyCells Affinity)
    (op : Operation) (s : Store) (endpoints roots : list node_id) :
  is_merge op = false →
  source_and_sink_ids (base op) = Return endpoints →
  get_roots cg s endpoints = Return roots →
  (∀ r1 r2, r1 ∈ roots → r2 ∈ roots → r1 ≠ r2 →
     apply cg op s = (Raise PreconditionError, s, [EvGetRoots endpoints]))
  ∧ (∀ r, r ∈ roots → (∀ x, x ∈ roots → x = r) →
       apply cg op s
       = (outcome (RootLock cg [r] (locked cg op) s),
          final_store (RootLock cg [r] (locked cg op) s),
          EvGetRoots endpoints :: events (RootLock cg [r] (locked cg op) s))).
Proof.
  intros Hop Hends Hroots. split.
  - intros r1 r2 H1 H2 Hne.
    pose proof (np_unique_two roots r1 r2 H1 H2 Hne) as Hlen.
    destruct op as [o|o|o]; [done | |]; simpl in Hends |- *.
    + unfold SplitOperation_apply, cg_get_roots, bind, lift, emit, reads.
      rewrite Hends, Hroots. simpl.
      case_bool_decide; [done | lia].
    + unfold MulticutOperation_apply, cg_get_roots, bind, lift, emit, reads.
      rewrite Hends, Hroots. simpl.
      case_bool_decide; [done | lia].
  - intros r Hr Hall.
    pose proof (np_unique_one roots r Hr Hall) as Huniq.
    destruct op as [o|o|o]; [done | |]; simpl in Hends |- *.
    + unfold SplitOperation_apply, cg_get_roots, bind, lift, emit, reads.
      rewrite Hends, Hroots. simpl. rewrite Huniq. simpl.
      by destruct (RootLock cg [r] (SplitOperation_locked cg o) s)
        as [[? ?] ?].
    + unfold MulticutOperation_apply, cg_get_roots, bind, lift, emit, reads.
      rewrite Hends, Hroots. simpl. rewrite Huniq. simpl.
      by destruct (RootLock cg [r] (MulticutOperation_locked cg o) s)
        as [[? ?] ?].
Qed.

(** Splitting the edge between supervoxels 1 and 12, whose roots are 1000
    and 1001. *)
Lemma apply_checks_single_root_witness :
  (is_merge ToyOps.split_far = false
   ∧ source_and_sink_ids (base ToyOps.split_far) = Return [1; 12]
   ∧ get_roots Toy.cg [] [1; 12] = Return [1000; 1001])
  ∧ apply Toy.cg ToyOps.split_far []
    = (Raise PreconditionError, [], [EvGetRoots [1; 12]]).
Proof.
  split; [repeat split |].
  refine (proj1 (apply_checks_single_root Toy.cg ToyOps.split_far
                   [] [1; 12] [1000; 1001] eq_refl eq_refl eq_refl)
            1000 1001 _ _ _).
  - apply list_elem_of_here.
  - apply list_elem_of_further, list_elem_of_here.
  - discriminate.
Defined.

(** C4. A multicut whose endpoints share at most one root, that obtains its
    lock and the lock time stamp and whose min-cut comes back empty raises
    [PostconditionError]: after the min-cut the only thing that happens is
    the release of the lock.  No log row is built, [bulk_write] is not
    called and the store is the one the lock left, unlocked. *)
Theorem multicut_empty_cut {Store HierarchyCells Affinity : Type}
    (cg : @ChunkedGraph Store HierarchyCells Affinity)
    (self : MulticutOperation) (s s1 : Store)
    (endpoints roots locks : list node_id)
    (op_id : node_id) (time_stamp : timestamp) :
  source_and_sink_ids (multicut_base self) = Return endpoints →
  get_roots cg s endpoints = Return roots →
  (length (np_unique roots) ≤ 1)%nat →
  lock_roots cg s (np_unique roots) = (Return (op_id, locks), s1) →
  read_consolidated_lock_timestamp cg s1 locks
    (replicate (length locks) op_id) = Return time_stamp →
  run_multicut cg s1 (source_ids (multicut_base self))
    (sink_ids (multicut_base self)) (source_coords (multicut_base self))
    (sink_coords (multicut_base self)) (bbox_offset self)
  = Return [] →
  apply cg (Multicut self) s
  = (Raise PostconditionError, unlock_roots cg s1 op_id locks,
     [ EvGetRoots endpoints; EvLock (np_unique roots);
       EvReadLockTimestamp locks (replicate (length locks) op_id);
       EvRunMulticut (source_ids (multicut_base self))
         (sink_ids (multicut_base self));
       EvUnlock locks op_id ])
  ∧ ∀ rows write_locks write_op slow_retry,
      EvBulkWrite rows write_locks write_op slow_retry
        ∉ events (apply cg (Multicut self) s).
Proof.
  intros Hends Hroots Hlen Hlock Hts Hcut.
  assert (apply cg (Multicut self) s
          = (Raise PostconditionError, unlock_roots cg s1 op_id locks,
             [ EvGetRoots endpoints; EvLock (np_unique roots);
               EvReadLockTimestamp locks (replicate (length locks) op_id);
               EvRunMulticut (source_ids (multicut_base self))
                 (sink_ids (multicut_base self));
               EvUnlock locks op_id ])) as Hrun.
  { unfold apply, MulticutOperation_apply, cg_get_roots, bind, lift, emit,
      reads.
    rewrite Hends, Hroots. simpl.
    case_bool_decide; [lia |].
    unfold RootLock. rewrite Hlock.
    unfold MulticutOperation_locked, cg_read_consolidated_lock_timestamp,
      cg_run_multicut, bind, emit, reads, raise. simpl.
    rewrite Hts. simpl. rewrite Hcut. simpl.
    done. }
  split; [exact Hrun |].
  intros rows write_locks write_op slow_retry. rewrite Hrun.
  unfold events. simpl. intros Hin. find_event.
Qed.

(** The multicut between supervoxels 3 and 4 in the toy store. *)
Lemma multicut_empty_cut_witness :
  (source_and_sink_ids (multicut_base ToyOps.multicut_3_4) = Return [3; 4]
   ∧ get_roots Toy.cg [] [3; 4] = Return [1000; 1000]
   ∧ (length (np_unique [1000; 1000]%N) ≤ 1)%nat
   ∧ run_multicut Toy.cg [] (Some [3]) (Some [4]) (Some [[0; 0; 0]%Z])
       (Some [[1; 0; 0]%Z]) None
     = Return [])
  ∧ apply Toy.cg ToyOps.multicut_empty []
    = (Raise PostconditionError, [],
       [ EvGetRoots [3; 4]; EvLock [1000];
         EvReadLockTimestamp [1000] [7];
         EvRunMulticut (Some [3]) (Some [4]);
         EvUnlock [1000] 7 ]).
Proof.
  split; [repeat split; vm_compute; lia |].
  refine (proj1 (multicut_empty_cut Toy.cg ToyOps.multicut_3_4 [] []
                   [3; 4] [1000; 1000] [1000] 7 42%Z
                   eq_refl eq_refl _ eq_refl eq_refl eq_refl)).
  vm_compute. lia.
Defined.

(** ** The handlers *)

Lemma get_cg_skip_cache_TypeError :
  bind_arguments get_cg_parameters 1 ["skip_cache"] = Raise TypeError.
Proof. reflexivity. Qed.

Lemma get_cg_table_id_only : bind_arguments get_cg_parameters 1 [] = Return tt.
Proof. reflexivity. Qed.

(** C9 fails on the code.  [get_cg] has the one parameter [table_id];
    [handle_merge] and [handle_split] call it with the keyword
    [skip_cache], which is a [TypeError].  So for every table and every
    request [handle_split] raises [TypeError], and so does [handle_merge]
    on every request of two nodes, before any lookup, edit or message, the
    world outside untouched. *)
Theorem get_cg_call_sites_raise_TypeError {World Handle Coord : Type}
    (env : @Environment World Handle Coord)
    (table_id : string) (allow_same_segment_merge : bool)
    (node1 node2 : request_node) (sources sinks : list request_node)
    (priority mincut : option string) (auth_user : string)
    (a : @App World Handle) :
  bind_arguments get_cg_parameters 1 ["skip_cache"] = Raise TypeError
  ∧ handle_merge env table_id allow_same_segment_merge [node1; node2]
      priority auth_user a
    = (Raise TypeError, entered table_id auth_user a, [])
  ∧ handle_split env table_id sources sinks priority mincut auth_user a
    = (Raise TypeError, entered table_id auth_user a, []).
Proof. repeat split. Qed.

(** The check of [handle_merge] proper: the merge distance is the
    Chebyshev distance of the two chunks. *)
Lemma exceeds_merge_distance_spec (a b : Z * Z * Z) :
  exceeds_merge_distance a b = true
  ↔ (3 < Z.max (Z.max (Z.abs (a.1.1 - b.1.1)) (Z.abs (a.1.2 - b.1.2)))
             (Z.abs (a.2 - b.2)))%Z.
Proof.
  destruct a as [[ax ay] az], b as [[bx by_] bz]. simpl.
  rewrite !orb_true_iff, !Z.ltb_lt. lia.
Qed.


(** C3 fails on the code.  A merge request for the toy table whose two
    supervoxels lie 10 chunks apart on x, which is beyond the distance the
    check allows: [handle_merge] raises [TypeError] at its call of [get_cg]
    and never gets to the check.  Nor would it with a graph handle in
    hand: the next call is to [app_utils.handle_supervoxel_id_lookup],
    which [app_utils.py] does not define, an [AttributeError]. *)
Theorem handle_merge_far_apart_TypeError :
  exceeds_merge_distance
    (get_chunk_coordinates (Toy.env true) "minnie_test" 1)
    (get_chunk_coordinates (Toy.env true) "minnie_test" 11) = true
  ∧ handle_merge (Toy.env true) "minnie_test" false
      [(1, [0; 0; 0]%Z); (11, [0; 0; 0]%Z)] None "alice" Toy.app
    = (Raise TypeError, entered "minnie_test" "alice" Toy.app, [])
  ∧ handle_merge_with_cg (Toy.env true) "minnie_test" false
      [(1, [0; 0; 0]%Z); (11, [0; 0; 0]%Z)] true "alice" "minnie_test"
      Toy.app
    = (Raise AttributeError, Toy.app, []).
Proof. repeat split. Qed.

(** C6, as amended.  [handle_undo] and [handle_redo], having committed an
    edit with at least one new level 2 id, publish next: the message goes
    to the exchange named by [PYCHUNKEDGRAPH_EDITS_EXCHANGE]
    (["pychunkedgraph"] when unset), its payload is the ids as eight-byte
    unsigned integers one after the other, its attribute is the table id.
    When the bus accepts the message the handler returns the result of the
    edit; when the publication raises, the handler raises the same, the
    edit staying committed. *)
Theorem handlers_publish_after_edit {World Handle Coord : Type}
    (env : @Environment World Handle Coord)
    (table_id : string) (priority : option string) (auth_user : string)
    (a a1 : @App World Handle) (cg : Handle) :
  get_cg env table_id [] (entered table_id auth_user a)
  = (Return cg, a1, []) →
  (∀ operation ret_ w1,
     undo_operation env cg (world a1) auth_user operation
     = (Return ret_, w1) →
     new_lvl2_ids ret_ ≠ [] →
     ends_publishing env table_id ret_ a1 w1 [EvUndo auth_user operation]
       (handle_undo env table_id operation priority auth_user a))
  ∧ (∀ operation ret_ w1,
       redo_operation env cg (world a1) auth_user operation
       = (Return ret_, w1) →
       new_lvl2_ids ret_ ≠ [] →
       ends_publishing env table_id ret_ a1 w1 [EvRedo auth_user operation]
         (handle_redo env table_id operation priority auth_user a)).
Proof.
  intros Hcg.
  assert (Hlen : ∀ ids : list node_id,
            ids ≠ [] → bool_decide (0 < length ids)%nat = true).
  { intros [|i ids] Hne; [done |]. apply bool_decide_eq_true. simpl. lia. }
  split.
  - intros operation ret_ w1 Hedit Hnew.
    unfold ends_publishing, edit_message_sent, edit_message.
    unfold handle_undo, bind, set_table_id, set_user_id. simpl.
    unfold entered in Hcg. rewrite Hcg.
    unfold publish_new_lvl2_ids, publish_edit, try_except, world_call, call,
      emit, ret.
    simpl. rewrite Hedit. simpl. rewrite (Hlen _ Hnew). simpl.
    by destruct (messaging_publish _ _ _ _ _) as [[[]|e] w2].
  - intros operation ret_ w1 Hedit Hnew.
    unfold ends_publishing, edit_message_sent, edit_message.
    unfold handle_redo, bind, set_table_id, set_user_id. simpl.
    unfold entered in Hcg. rewrite Hcg.
    unfold publish_new_lvl2_ids, publish_edit, try_except, world_call, call,
      emit, ret.
    simpl. rewrite Hedit. simpl. rewrite (Hlen _ Hnew). simpl.
    by destruct (messaging_publish _ _ _ _ _) as [[[]|e] w2].
Qed.

(** Undoing, and redoing, operation 1 of the toy table while the message
    bus is up. *)
Lemma handlers_publish_after_edit_witness :
  (get_cg (Toy.env true) "minnie_test" []
     (entered "minnie_test" "alice" Toy.app)
   = (Return "minnie_test", Toy.app_opened 0, [])
   ∧ undo_operation (Toy.env true) "minnie_test" O "alice" 1
     = (Return (Toy.undone 1), 1%nat)
   ∧ redo_operation (Toy.env true) "minnie_test" O "alice" 1
     = (Return (Toy.undone 1), 1%nat)
   ∧ new_lvl2_ids (Toy.undone 1) ≠ [])
  ∧ handle_undo (Toy.env true) "minnie_test" 1 None "alice" Toy.app
    = (Return (Toy.undone 1), Toy.app_opened 1,
       [ EvUndo "alice" 1;
         EvPublish "pychunkedgraph" (tobytes [201])
           [("table_id", "minnie_test")] ])
  ∧ handle_redo (Toy.env true) "minnie_test" 1 None "alice" Toy.app
    = (Return (Toy.undone 1), Toy.app_opened 1,
       [ EvRedo "alice" 1;
         EvPublish "pychunkedgraph" (tobytes [201])
           [("table_id", "minnie_test")] ]).
Proof.
  split; [repeat split; discriminate |].
  pose proof (handlers_publish_after_edit (Toy.env true) "minnie_test"
                None "alice" Toy.app (Toy.app_opened 0) "minnie_test"
                eq_refl) as [Hundo Hredo].
  split.
  - refine (Hundo 1 (Toy.undone 1) 1%nat eq_refl _). discriminate.
  - refine (Hredo 1 (Toy.undone 1) 1%nat eq_refl _). discriminate.
Defined.

(** C6, as stated, fails.  With the message bus down, undoing operation 1
    of the toy table commits (the world counts one edit) and has a new
    level 2 id, the message is handed to the bus, and the handler raises
    what the bus raised instead of returning the result of the edit. *)
Lemma publish_failure_fails_handler :
  undo_operation (Toy.env false) "minnie_test" O "alice" 1
  = (Return (Toy.undone 1), 1%nat)
  ∧ new_lvl2_ids (Toy.undone 1) = [201]
  ∧ handle_undo (Toy.env false) "minnie_test" 1 None "alice" Toy.app
    = (Raise (CollaboratorError "publish"), Toy.app_opened 1,
       [ EvUndo "alice" 1;
         EvPublish "pychunkedgraph" (tobytes [201])
           [("table_id", "minnie_test")] ])
  ∧ outcome (handle_undo (Toy.env false) "minnie_test" 1 None "alice"
               Toy.app)
    ≠ Return (Toy.undone 1).
Proof. repeat split. discriminate. Qed.

(** The payload is a faithful buffer: eight bytes per id, and reading it
    back gives the ids. *)
Lemma low_byte_to_N (n : N) : Byte.to_N (low_byte n) = n mod 256.
Proof.
  unfold low_byte.
  pose proof (N.mod_upper_bound n 256 ltac:(done)) as Hlt.
  destruct (Byte.of_N (n mod 256)) as [b|] eqn:Hb.
  - simpl. by apply Byte.to_of_N.
  - apply Byte.of_N_None_iff in Hb. lia.
Qed.

Lemma little_endian_frombytes (width : nat) (n : N) :
  uint64_frombytes (little_endian width n) = n mod 256 ^ N.of_nat width.
Proof.
  revert n. induction width as [|width IH]; intros n.
  - simpl. by rewrite N.mod_1_r.
  - cbn [little_endian uint64_frombytes foldr].
    fold (uint64_frombytes (little_endian width (n / 256))).
    rewrite IH, low_byte_to_N, Nat2N.inj_succ, N.pow_succ_r'.
    by rewrite N.Div0.mod_mul_r.
Qed.

Lemma uint64_tobytes_frombytes (n : node_id) :
  n < NODE_ID_MODULUS → uint64_frombytes (uint64_tobytes n) = n.
Proof.
  intros Hn. unfold uint64_tobytes. rewrite little_endian_frombytes.
  by apply N.mod_small.
Qed.

Lemma tobytes_length (ids : list node_id) :
  length (tobytes ids) = (8 * length ids)%nat.
Proof.
  induction ids as [|i ids IH]; [done |].
  unfold tobytes in *. cbn [flat_map]. rewrite length_app, IH. simpl. lia.
Qed.

Lemma frombuffer_tobytes (ids : list node_id) :
  Forall (λ i, i < NODE_ID_MODULUS) ids →
  frombuffer (length ids) (tobytes ids) = ids.
Proof.
  induction 1 as [|i ids Hi _ IH]; [done |].
  unfold tobytes in *. cbn [flat_map length frombuffer].
  change (take 8 (uint64_tobytes i ++ flat_map uint64_tobytes ids))
    with (uint64_tobytes i).
  change (drop 8 (uint64_tobytes i ++ flat_map uint64_tobytes ids))
    with (flat_map uint64_tobytes ids).
  by rewrite uint64_tobytes_frombytes, IH.
Qed.

(** ** [all_user_operations] *)

Lemma float64_of_uint64_exact (n : node_id) :
  exact_id n → float64_of_uint64 n = n.
Proof.
  unfold exact_id, float64_of_uint64. intros Hn.
  by rewrite (proj2 (N.ltb_lt _ _) Hn).
Qed.

Section replay_facts.
Variable log_rows : gmap node_id LogEntry.
Variable target_user_id : string.
Hypothesis log_rows_exact : exact_ids log_rows.

Lemma should_check_successful entry :
  should_check entry = true ↔ successful entry.
Proof.
  unfold should_check, successful.
  destruct (entry_Status entry) as [status|]; [|by intuition].
  rewrite bool_decide_eq_true. intuition congruence.
Qed.

(** The array [undone_ids] of the source, with its repetitions, holds the
    members of the set the replay builds. *)
Lemma update_undone_ids_replay entry (undone_list : float64_array)
    (undone : gset node_id) :
  exact_target (entry_UndoOperationID entry) →
  exact_target (entry_RedoOperationID entry) →
  (∀ x, x ∈ undone_list ↔ x ∈ undone) →
  ∀ x,
    x ∈ (if should_check entry then update_undone_ids entry undone_list
         else undone_list)
    ↔ x ∈ replay undone entry.
Proof.
  intros Hu Hr Hsame x. unfold replay.
  destruct (should_check entry) eqn:Hcheck.
  - rewrite decide_True by (by apply should_check_successful).
    unfold update_undone_ids, np_append, np_delete_equal.
    destruct (entry_UndoOperationID entry) as [u|],
      (entry_RedoOperationID entry) as [r|]; simpl in Hu, Hr;
      rewrite ?float64_of_uint64_exact by done;
      rewrite ?list_elem_of_filter, ?elem_of_app, ?list_elem_of_singleton,
        ?elem_of_difference, ?elem_of_union, ?elem_of_singleton, ?Hsame;
      tauto.
  - rewrite decide_False; [done |].
    intros Hs%should_check_successful. congruence.
Qed.

Lemma scan_log_undone_ids (ids : list node_id) (acc : Scan)
    (undone : gset node_id) :
  (∀ x, x ∈ undone_ids acc ↔ x ∈ undone) →
  ∀ x,
    x ∈ undone_ids (foldl (scan_entry log_rows target_user_id) acc ids)
    ↔ x ∈ foldl replay undone (omap (λ entry_id, log_rows !! entry_id) ids).
Proof.
  revert acc undone. induction ids as [|entry_id ids IH]; intros acc undone
    Hsame; [done |].
  cbn [foldl omap list_omap]. unfold scan_entry at 2.
  destruct (log_rows !! entry_id) as [entry|] eqn:Hentry.
  - cbn [foldl]. apply IH. cbn [undone_ids].
    destruct (map_Forall_lookup_1 _ _ _ _ log_rows_exact Hentry)
      as (_ & Hu & Hr).
    by apply update_undone_ids_replay.
  - by apply IH.
Qed.

Local Abbreviation authored := (authored_by log_rows target_user_id).

Lemma scan_log_valid_entry_ids (ids : list node_id) (acc : Scan) :
  valid_entry_ids (foldl (scan_entry log_rows target_user_id) acc ids)
  = valid_entry_ids acc ++ filter authored ids.
Proof.
  revert acc. induction ids as [|entry_id ids IH]; intros acc.
  - by rewrite app_nil_r.
  - cbn [foldl]. rewrite IH, filter_cons.
    destruct (decide (authored entry_id)) as [Ha|Ha];
      unfold authored_by in Ha; unfold scan_entry;
      destruct (log_rows !! entry_id) as [entry|] eqn:Hentry;
      simpl in Ha |- *; try done.
    + rewrite bool_decide_eq_true_2 by congruence. by rewrite <-app_assoc.
    + rewrite bool_decide_eq_false_2 by congruence. done.
Qed.

Local Abbreviation plain_and_not_undone := (plain_and_not_listed log_rows).

Lemma filter_entries_spec (undone_list : float64_array)
    (valid : list node_id) :
  filter_entries log_rows undone_list valid
  = (filter (plain_and_not_undone undone_list) valid,
     omap (λ entry_id, entry_timestamp <$> log_rows !! entry_id)
       (filter (plain_and_not_undone undone_list) valid)).
Proof.
  induction valid as [|entry_id valid IH]; [done |].
  cbn [filter_entries]. rewrite IH, filter_cons. clear IH.
  unfold np_contains.
  destruct (decide (plain_and_not_undone undone_list entry_id))
    as [(Hu & Hr & Hin)|Hno];
    [|unfold plain_and_not_listed in Hno];
    destruct (log_rows !! entry_id) as [entry|] eqn:Hentry;
    simpl in *; try done.
  - injection Hu as Hu. injection Hr as Hr.
    rewrite bool_decide_eq_false_2
      by (rewrite Hu, Hr; intros [[? ?]|[? ?]]; done).
    rewrite bool_decide_eq_false_2 by done.
    cbn [fst snd omap list_omap]. by rewrite Hentry.
  - case_bool_decide as Hundo; [done |].
    case_bool_decide as Hin; [done |].
    exfalso. apply Hno.
    destruct (entry_UndoOperationID entry) as [u|];
      [exfalso; apply Hundo; left; eauto |].
    destruct (entry_RedoOperationID entry) as [r|];
      [exfalso; apply Hundo; right; eauto |].
    done.
Qed.

(** On a log of exact ids, the source's two loops compute the answer of
    the specification for a replay in the order of the operation ids. *)
Lemma user_operations_of_log_replay :
  user_operations_of_log log_rows target_user_id false
  = user_operations_after_replay log_rows target_user_id
      (entries_in_id_order log_rows).
Proof.
  unfold user_operations_of_log, user_operations_after_replay.
  rewrite filter_entries_spec. cbn [fst snd].
  unfold scan_log. rewrite scan_log_valid_entry_ids. cbn [valid_entry_ids app].
  unfold sorted_entry_ids.
  set (ids := merge_sort N.le (map_to_list log_rows).*1).
  set (scan := foldl (scan_entry log_rows target_user_id) _ ids).
  assert (filter (plain_and_not_undone (undone_ids scan)) (filter authored ids)
          = filter
              (effective_operation log_rows target_user_id
                 (effectively_undone (entries_in_id_order log_rows))) ids)
    as Hids.
  { rewrite list_filter_filter. apply list_filter_iff. intros entry_id.
    unfold plain_and_not_listed, authored_by, effective_operation.
    assert (∀ x, x ∈ undone_ids scan
                 ↔ x ∈ effectively_undone (entries_in_id_order log_rows))
      as Hundone.
    { unfold scan, effectively_undone, entries_in_id_order.
      apply scan_log_undone_ids. intros x. cbn [undone_ids].
      rewrite elem_of_nil, elem_of_empty. done. }
    unfold node_id in *.
    destruct (log_rows !! entry_id) as [entry|] eqn:Hentry;
      [|simpl; intuition congruence].
    destruct (map_Forall_lookup_1 _ _ _ _ log_rows_exact Hentry)
      as (Hexact & _).
    rewrite (float64_of_uint64_exact _ Hexact), Hundone. tauto. }
  f_equal; [exact Hids | f_equal; exact Hids].
Qed.
End replay_facts.

(** C7, as amended.  On a log whose operation ids are below [2^53], with
    [include_undone] false, [all_user_operations] returns exactly the log
    operations authored by the requested user that are not themselves undo
    or redo records and that are not effectively undone, by ascending id
    and each with its time stamp, where the effectively undone set is the
    result of replaying the undo and redo back-pointers of the successful
    entries in the order of their operation ids. *)
Theorem all_user_operations_replays_by_id {World Handle Coord : Type}
    (env : @Environment World Handle Coord)
    (table_id target_user_id : string) (start_time_arg : option string)
    (auth_user : string) (a a1 : @App World Handle) (cg : Handle)
    (start_time : timestamp) (log_rows : gmap node_id LogEntry) :
  _parse_timestamp env start_time_arg = Return start_time →
  get_cg env table_id [] (entered table_id auth_user a)
  = (Return cg, a1, []) →
  read_log_entries env cg (world a1) start_time = Return log_rows →
  exact_ids log_rows →
  all_user_operations env table_id false (Some target_user_id)
    start_time_arg auth_user a
  = (Return (user_operations_after_replay log_rows target_user_id
               (entries_in_id_order log_rows)),
     a1, [EvReadLog (Coord := Coord) start_time])
  ∧ ∀ entry_id,
      entry_id ∈ operation_id_list
                   (user_operations_after_replay log_rows target_user_id
                      (entries_in_id_order log_rows))
      ↔ effective_operation log_rows target_user_id
          (effectively_undone (entries_in_id_order log_rows)) entry_id.
Proof.
  intros Hstart Hcg Hlog Hexact. split.
  - unfold all_user_operations, bind, set_table_id, set_user_id, lift.
    simpl. rewrite Hstart. unfold entered in Hcg. rewrite Hcg.
    unfold emit, world_reads, reads, ret. simpl. rewrite Hlog.
    by rewrite <-user_operations_of_log_replay.
  - intros entry_id. unfold user_operations_after_replay.
    cbn [operation_id_list]. rewrite list_elem_of_filter.
    split; [by intros [? _] |]. intros Heff. split; [done |].
    rewrite merge_sort_Permutation.
    destruct Heff as (Huser & _).
    destruct (log_rows !! entry_id) as [entry|] eqn:Hentry; [|done].
    apply list_elem_of_fmap. exists (entry_id, entry).
    split; [done |]. by apply elem_of_map_to_list.
Qed.

(** The operations of [alice] in the toy log. *)
Lemma all_user_operations_replays_by_id_witness :
  (_parse_timestamp (Toy.env true) None = Return 0%Z
   ∧ get_cg (Toy.env true) "minnie_test" []
       (entered "minnie_test" "alice" Toy.app)
     = (Return "minnie_test", Toy.app_opened 0, [])
   ∧ read_log_entries (Toy.env true) "minnie_test" O 0%Z
     = Return Toy.log_rows
   ∧ exact_ids Toy.log_rows)
  ∧ all_user_operations (Toy.env true) "minnie_test" false (Some "alice")
      None "alice" Toy.app
    = (Return (user_operations_after_replay Toy.log_rows "alice"
                 (entries_in_id_order Toy.log_rows)),
       Toy.app_opened 0, [EvReadLog 0%Z]).
Proof.
  assert (exact_ids Toy.log_rows) as Hexact.
  { apply (bool_decide_unpack (exact_ids Toy.log_rows)).
    vm_compute. exact I. }
  split; [do 3 (split; [reflexivity |]); exact Hexact |].
  exact (proj1 (all_user_operations_replays_by_id (Toy.env true)
                  "minnie_test" "alice" None "alice" Toy.app
                  (Toy.app_opened 0) "minnie_test" 0%Z Toy.log_rows
                  eq_refl eq_refl eq_refl Hexact)).
Defined.

(** C7, as stated, fails.  In the toy log the operation 1 of [alice] was
    undone at time 20 by the entry with id 3 and redone at time 30 by the
    entry with id 2.  Replayed in the order of the time stamps nothing is
    left undone, so operation 1 is an effective operation of [alice]; the
    source replays in the order of the ids, the redo before the undo, and
    leaves operation 1 out. *)
Lemma replay_in_timestamp_order_differs :
  entry_timestamp <$> entries_in_timestamp_order Toy.log_rows
  = [10; 20; 30; 40; 50]%Z
  ∧ elements (effectively_undone (entries_in_timestamp_order Toy.log_rows))
    = []
  ∧ operation_id_list
      (user_operations_after_replay Toy.log_rows "alice"
         (entries_in_timestamp_order Toy.log_rows))
    = [1; 4; 5]
  ∧ outcome (all_user_operations (Toy.env true) "minnie_test" false
               (Some "alice") None "alice" Toy.app)
    = Return {| operation_id_list := [4; 5];
                timestamp_list := [40; 50]%Z |}
  ∧ user_operations_of_log Toy.log_rows "alice" false
    ≠ user_operations_after_replay Toy.log_rows "alice"
        (entries_in_timestamp_order Toy.log_rows).
Proof.
  repeat apply conj; try (vm_compute; reflexivity).
  vm_compute. discriminate.
Qed.

(** Beyond [2^53] the floating point array no longer tells ids apart: in
    the log [Toy.wide_log_rows] the undo of operation [2^53 + 1] also hides
    operation [2^53], which nobody has undone. *)
Lemma undone_ids_conflates_wide_ids :
  float64_of_uint64 (2 ^ 53 + 1) = 2 ^ 53
  ∧ elements (effectively_undone (entries_in_id_order Toy.wide_log_rows))
    = [2 ^ 53 + 1]
  ∧ operation_id_list
      (user_operations_after_replay Toy.wide_log_rows "alice"
         (entries_in_id_order Toy.wide_log_rows))
    = [2 ^ 53]
  ∧ operation_id_list (user_operations_of_log Toy.wide_log_rows "alice" false)
    = [].
Proof. repeat apply conj; vm_compute; reflexivity. Qed.

(** ** [handle_rollback] *)

(** [handle_rollback] neither binds the name [is_priority] nor finds it at
    module level. *)
Lemma load_is_priority :
  load_name handle_rollback_locals common_globals "is_priority"
  = Raise NameError.
Proof. reflexivity. Qed.





Section rollback_facts.
Context {World Handle Coord : Type}.
Variable env : @Environment World Handle Coord.

(** One turn of the loop: the undo is committed; when it has new level 2
    ids the turn raises [NameError] before any message is built. *)
Lemma rollback_step_NameError (table_id target_user_id : string)
    (cg : Handle) (operation : node_id * timestamp) (a : @App World Handle)
    (ret_ : EditResult) (w1 : World) :
  undo_operation env cg (world a) target_user_id operation.1
  = (Return ret_, w1) →
  new_lvl2_ids ret_ ≠ [] →
  rollback_step env table_id target_user_id cg operation a
  = (Raise NameError, set_world a w1,
     [EvUndo (Coord := Coord) target_user_id operation.1]).
Proof.
  intros Hundo Hnew.
  unfold rollback_step, try_except, world_call, call, bind, emit, lift.
  simpl. rewrite Hundo. simpl.
  destruct (new_lvl2_ids ret_) as [|i ids]; [done |]. done.
Qed.

Lemma rollback_step_quiet (table_id target_user_id : string)
    (cg : Handle) (operation : node_id * timestamp) (a : @App World Handle)
    (ret_ : EditResult) (w1 : World) :
  undo_operation env cg (world a) target_user_id operation.1
  = (Return ret_, w1) →
  new_lvl2_ids ret_ = [] →
  rollback_step env table_id target_user_id cg operation a
  = (Return tt, set_world a w1,
     [EvUndo (Coord := Coord) target_user_id operation.1]).
Proof.
  intros Hundo Hnew.
  unfold rollback_step, try_except, world_call, call, bind, emit, lift, ret.
  simpl. rewrite Hundo. simpl. by rewrite Hnew.
Qed.

End rollback_facts.

(** C8 fails on the code.  In the toy log [alice] has the two effective
    operations 4 and 5.  Rolling her back starts with the later one; its
    undo is committed and has a new level 2 id, and the call of
    [publish_edit] then reads the unbound name [is_priority]: the handler
    raises [NameError], operation 4 is not undone, nothing is published and
    no operation list is returned. *)
Theorem handle_rollback_NameError :
  user_operations_of_log Toy.log_rows "alice" false
  = {| operation_id_list := [4; 5]; timestamp_list := [40; 50]%Z |}
  ∧ load_name handle_rollback_locals common_globals "is_priority"
    = Raise NameError
  ∧ outcome (handle_rollback (Toy.env true) "minnie_test" (Some "alice")
               None "carol" Toy.app)
    = Raise NameError
  ∧ events (handle_rollback (Toy.env true) "minnie_test" (Some "alice")
              None "carol" Toy.app)
    = [EvReadLog 0%Z; EvUndo "alice" 5]
  ∧ world (final_store (handle_rollback (Toy.env true) "minnie_test"
                          (Some "alice") None "carol" Toy.app))
    = 1%nat.
Proof. repeat apply conj; vm_compute; reflexivity. Qed.

(** * Further properties *)

(** ** The constructors, in full *)

Section constructor_characterisation.
Context {Store HierarchyCells Affinity : Type}.
Variable cg : @ChunkedGraph Store HierarchyCells Affinity.

Lemma any_in1d_false (sinks sources : list node_id) :
  any_in1d sinks sources = false ↔ ∀ x, x ∈ sources → x ∉ sinks.
Proof.
  unfold any_in1d. rewrite <-not_true_iff_false, existsb_exists. split.
  - intros Hno x Hs Hk. apply Hno. exists x.
    split; [by apply list_elem_of_In | by apply bool_decide_eq_true].
  - intros Hno (x & Hk%list_elem_of_In & Hs%bool_decide_eq_true).
    by apply (Hno x).
Qed.

Lemma expect_supervoxels_Return (ids : list node_id) :
  expect_supervoxels cg ids = Return tt
  ↔ ∀ x, x ∈ ids → get_chunk_layer cg x = 1.
Proof.
  induction ids as [|i ids IH]; simpl.
  - split; [by intros _ x ?%elem_of_nil | done].
  - destruct (get_chunk_layer cg i =? 1) eqn:Hi.
    + apply N.eqb_eq in Hi. rewrite IH. split.
      * intros Hall x [->|?]%elem_of_cons; auto.
      * intros Hall x Hx. apply Hall. by right.
    + apply N.eqb_neq in Hi. split; [done |].
      intros Hall. destruct Hi. apply Hall. by left.
Qed.

Lemma expect_supervoxels_cases (ids : list node_id) :
  expect_supervoxels cg ids = Return tt
  ∨ expect_supervoxels cg ids = Raise PreconditionError.
Proof.
  induction ids as [|i ids IH]; simpl; [by left |].
  destruct (get_chunk_layer cg i =? 1); [done | by right].
Qed.

(** [GraphEditOperation.__init__] with both id lists given: it returns the
    object holding its arguments when the lists are disjoint supervoxels and
    raises [PreconditionError] otherwise. *)
Lemma GraphEditOperation_init_spec user (sources sinks : list node_id)
    s_coords k_coords :
  let self := {| user_id := user; source_ids := Some sources;
                 sink_ids := Some sinks; source_coords := s_coords;
                 sink_coords := k_coords |} in
  ((∀ x, x ∈ sources → x ∉ sinks)
   ∧ (∀ x, x ∈ sources ++ sinks → get_chunk_layer cg x = 1) →
   GraphEditOperation_init cg user (Some sources) (Some sinks) s_coords
     k_coords = Return self)
  ∧ (¬ ((∀ x, x ∈ sources → x ∉ sinks)
        ∧ (∀ x, x ∈ sources ++ sinks → get_chunk_layer cg x = 1)) →
     GraphEditOperation_init cg user (Some sources) (Some sinks) s_coords
       k_coords = Raise PreconditionError).
Proof.
  intros self. unfold GraphEditOperation_init. fold self.
  destruct (any_in1d sinks sources) eqn:Hshared.
  - split; [|done]. intros [Hdisj _].
    apply (proj2 (any_in1d_false sinks sources)) in Hdisj. congruence.
  - pose proof (proj1 (any_in1d_false sinks sources) Hshared) as Hdisj.
    destruct (expect_supervoxels_cases sources) as [Hs|Hs]; rewrite Hs;
      cbn [result_bind].
    + destruct (expect_supervoxels_cases sinks) as [Hk|Hk]; rewrite Hk;
        cbn [result_bind].
      * split; [done |]. intros Hno. destruct Hno. split; [exact Hdisj |].
        intros x [?|?]%elem_of_app;
          [by apply (proj1 (expect_supervoxels_Return sources))
          |by apply (proj1 (expect_supervoxels_Return sinks))].
      * split; [|done]. intros [_ Hlayers].
        assert (expect_supervoxels cg sinks = Return tt) as Hk'; [|congruence].
        apply expect_supervoxels_Return. intros x Hx. apply Hlayers.
        apply elem_of_app. by right.
    + split; [|done]. intros [_ Hlayers].
      assert (expect_supervoxels cg sources = Return tt) as Hs'; [|congruence].
      apply expect_supervoxels_Return. intros x Hx. apply Hlayers.
      apply elem_of_app. by left.
Qed.
End constructor_characterisation.

(** Constructing a merge or a split with at least one edge, or a multicut,
    returns the operation, holding the two columns of the edges (the two id
    lists) as its sources and sinks, exactly when no supervoxel is on both
    sides and every one of them is a layer 1 node; in every other case it
    raises [PreconditionError]. *)
Theorem construct_valid_supervoxels {Store HierarchyCells Affinity : Type}
    (cg : @ChunkedGraph Store HierarchyCells Affinity)
    (c : @Construction Affinity) :
  supplies_edges c →
  (valid_supervoxels cg c →
   ∃ op, construct cg c = Return op
         ∧ source_ids (base op) = Some (supplied_sources c)
         ∧ sink_ids (base op) = Some (supplied_sinks c))
  ∧ (¬ valid_supervoxels cg c → construct cg c = Raise PreconditionError).
Proof.
  intros Hedges. unfold valid_supervoxels.
  destruct c as [user edges sc kc affs|user edges sc kc
                 |user sources sinks sc kc bbox]; simpl in *.
  - destruct (GraphEditOperation_init_spec cg user (edges.*1) (edges.*2)
                sc kc) as [Hok Hbad].
    unfold MergeOperation_init.
    destruct edges as [|e edges]; [done |]. cbn [transpose result_bind fst snd].
    split; intros Hv.
    + rewrite (Hok Hv). simpl. eauto.
    + by rewrite (Hbad Hv).
  - destruct (GraphEditOperation_init_spec cg user (edges.*1) (edges.*2)
                sc kc) as [Hok Hbad].
    unfold SplitOperation_init.
    destruct edges as [|e edges]; [done |]. cbn [transpose result_bind fst snd].
    split; intros Hv.
    + rewrite (Hok Hv). simpl. eauto.
    + by rewrite (Hbad Hv).
  - destruct (GraphEditOperation_init_spec cg user sources sinks
                (Some sc) (Some kc)) as [Hok Hbad].
    unfold MulticutOperation_init.
    split; intros Hv.
    + rewrite (Hok Hv). simpl. eauto.
    + by rewrite (Hbad Hv).
Qed.

(** The merge of the supervoxels 1 and 2 of the toy store. *)
Lemma construct_valid_supervoxels_witness :
  supplies_edges ToyMore.merge_1_2
  ∧ valid_supervoxels Toy.cg ToyMore.merge_1_2
  ∧ ∃ op, construct Toy.cg ToyMore.merge_1_2 = Return op
          ∧ source_ids (base op) = Some [1]
          ∧ sink_ids (base op) = Some [2].
Proof.
  assert (supplies_edges ToyMore.merge_1_2) as Hedges by done.
  assert (valid_supervoxels Toy.cg ToyMore.merge_1_2) as Hvalid.
  { split; simpl.
    - intros x ->%list_elem_of_singleton Hx%list_elem_of_singleton. done.
    - intros x [->|[->|?%elem_of_nil]%elem_of_cons]%elem_of_cons; done. }
  split; [exact Hedges |]. split; [exact Hvalid |].
  exact (proj1 (construct_valid_supervoxels Toy.cg ToyMore.merge_1_2 Hedges)
           Hvalid).
Defined.

(** ** The roots an operation locks *)

Lemma Sorted_le_NoDup_lt (l : list N) :
  Sorted N.le l → NoDup l → Sorted N.lt l.
Proof.
  intros Hs%Sorted_StronglySorted; [|intros x y z; apply N.le_trans].
  induction Hs as [|x l Hs IH Hall]; intros Hnd; [constructor |].
  apply NoDup_cons in Hnd as [Hx Hnd]. constructor; [by apply IH |].
  destruct l as [|y l]; constructor.
  apply Forall_cons in Hall as [Hxy _].
  assert (x ≠ y) by (intros ->; apply Hx; left). lia.
Qed.

(** The root ids that [apply] hands to [RootLock] are in strictly
    ascending order, so without repetition, and they are exactly the roots
    that [get_roots] gave for the endpoints of the operation. *)
Theorem apply_locks_sorted_roots {Store HierarchyCells Affinity : Type}
    (cg : @ChunkedGraph Store HierarchyCells Affinity)
    (op : Operation) (s : Store) (root_ids : list node_id) :
  EvLock root_ids ∈ events (apply cg op s) →
  ∃ ids roots : list node_id,
    endpoints op = Return ids
    ∧ get_roots cg s ids = Return roots
    ∧ Sorted N.lt root_ids
    ∧ ∀ r, r ∈ root_ids ↔ r ∈ roots.
Proof.
  intros Hev. destruct op as [o|o|o]; unfold_run; simpl in *.
  all: split_run.
  all: find_event.
  all: do 2 eexists;
    repeat apply conj;
    [eassumption || reflexivity | eassumption
    | apply Sorted_le_NoDup_lt; [apply np_unique_Sorted | apply np_unique_NoDup]
    | apply np_unique_elem_of].
Qed.

(** The merge of the supervoxels 12 and 1, whose roots are 1001 and 1000:
    the lock is asked for 1000 before 1001. *)
Lemma apply_locks_sorted_roots_witness :
  EvLock [1000; 1001] ∈ events (apply Toy.cg ToyMore.merge_1_12 [])
  ∧ ∃ ids roots : list node_id,
      endpoints ToyMore.merge_1_12 = Return ids
      ∧ get_roots Toy.cg [] ids = Return roots
      ∧ Sorted N.lt [1000; 1001]
      ∧ ∀ r, r ∈ [1000; 1001] ↔ r ∈ roots.
Proof.
  assert (EvLock [1000; 1001]
            ∈ events (apply Toy.cg ToyMore.merge_1_12 [])) as Hev.
  { vm_compute. apply list_elem_of_further. apply list_elem_of_here. }
  split; [exact Hev |].
  exact (apply_locks_sorted_roots Toy.cg ToyMore.merge_1_12 []
           [1000; 1001] Hev).
Defined.

(** ** Decoding what the operations log *)

(** [from_log_record] decodes none of the log rows that the operations of
    this module write: on the row of a merge or of a split it raises
    [KeyError], as these rows have no SourceID column, and on the row of a
    multicut it raises [PreconditionError], as that row has no RemovedEdge
    column. *)
Theorem logged_record_not_decodable {Store HierarchyCells Affinity : Type}
    (cg : @ChunkedGraph Store HierarchyCells Affinity)
    (c : @Construction Affinity) (op : Operation) (op_id : node_id)
    (time_stamp : timestamp) (root_ids : list node_id)
    (multicut_as_split : bool) :
  construct cg c = Return op →
  from_log_record cg
    (logged (HierarchyCells := HierarchyCells) op op_id time_stamp root_ids)
    multicut_as_split
  = Raise match op with
          | Multicut _ => PreconditionError
          | _ => KeyError
          end.
Proof.
  intros Hc.
  destruct c as [user edges sc kc affs|user edges sc kc
                 |user sources sinks sc kc bbox]; simpl in Hc.
  - destruct (MergeOperation_init cg user edges sc kc affs) as [m|];
      simpl in Hc; [|done].
    injection Hc as <-. reflexivity.
  - destruct (SplitOperation_init cg user edges sc kc) as [m|];
      simpl in Hc; [|done].
    injection Hc as <-. reflexivity.
  - unfold MulticutOperation_init, GraphEditOperation_init in Hc.
    destruct (any_in1d sinks sources); [done |].
    destruct (expect_supervoxels cg sources); [|done].
    destruct (expect_supervoxels cg sinks); [|done].
    simpl in Hc. injection Hc as <-. reflexivity.
Qed.

(** The log row of the merge of the supervoxels 1 and 2. *)
Lemma logged_record_not_decodable_witness :
  ∃ op, construct Toy.cg ToyMore.merge_1_2 = Return op
        ∧ from_log_record Toy.cg
            (logged (HierarchyCells := string) op 7 42%Z [2000]) true
          = Raise KeyError.
Proof.
  eexists. split; [reflexivity |].
  exact (logged_record_not_decodable Toy.cg ToyMore.merge_1_2 _ 7 42%Z
           [2000] true eq_refl).
Defined.

(** ** [toboolean] *)

Lemma toboolean_Return (value : Value) (b : bool) :
  toboolean value = Return b
  ↔ (value = VBool true ∧ b = true)
    ∨ ∃ s, value = VStr s
           ∧ (((lower s = "true" ∨ lower s = "1") ∧ b = true)
              ∨ ((lower s = "false" ∨ lower s = "0") ∧ b = false)).
Proof.
  destruct value as [|[]|z|s]; unfold toboolean; simpl.
  + split; [done |]. intros [[? _]|(s & ? & _)]; done.
  + split.
    * intros [= <-]. by left.
    * intros [[_ ->]|(s & ? & _)]; done.
  + split; [done |]. intros [[? _]|(s & ? & _)]; done.
  + split; [by destruct (negb _) |].
    intros [[? _]|(s & ? & _)]; done.
  + destruct (String.eqb s "") eqn:Hs; simpl.
    * apply String.eqb_eq in Hs as ->. split; [done |].
      intros [[? _]|(s & [= <-] & [[[?|?] _]|[[?|?] _]])]; done.
    * repeat case_bool_decide.
      -- split.
         ++ intros [= <-]. right. exists s. split; [done |]. left.
            split; [|done].
            match goal with H : _ ∈ _ |- _ =>
              apply elem_of_cons in H as [?|H];
              [by left | apply list_elem_of_singleton in H; by right] end.
         ++ intros [[? _]|(s' & [= <-] & [[_ ->]|[[He|He] _]])];
              [done | done | |].
            all: match goal with H : _ ∈ _ |- _ =>
                   rewrite He in H;
                   apply elem_of_cons in H as [?|H];
                   [done | by apply list_elem_of_singleton in H] end.
      -- split.
         ++ intros [= <-]. right. exists s. split; [done |]. right.
            split; [|done].
            match goal with H : _ ∈ [ "false"; "0" ] |- _ =>
              apply elem_of_cons in H as [?|H];
              [by left | apply list_elem_of_singleton in H; by right] end.
         ++ intros [[? _]|(s' & [= <-] & [[[He|He] _]|[_ ->]])];
              [done | | | done].
            all: match goal with H : _ ∉ [ "true"; "1" ] |- _ =>
                   destruct H; rewrite He end.
            ** left.
            ** right; left.
      -- split; [done |].
         intros [[? _]|(s' & [= <-] & [[[He|He] _]|[[He|He] _]])];
           [done | | | |].
         ++ match goal with H : _ ∉ [ "true"; "1" ] |- _ =>
              destruct H; rewrite He; left end.
         ++ match goal with H : _ ∉ [ "true"; "1" ] |- _ =>
              destruct H; rewrite He; right; left end.
         ++ match goal with H : _ ∉ [ "false"; "0" ] |- _ =>
              destruct H; rewrite He; left end.
         ++ match goal with H : _ ∉ [ "false"; "0" ] |- _ =>
              destruct H; rewrite He; right; left end.
Qed.

(** [toboolean] returns a boolean for the boolean [True] and for the
    strings that read, in any letter case, "true" or "1" (giving true) or
    "false" or "0" (giving false), and for nothing else: the boolean
    [False], every integer, [None] and every other string are rejected,
    and the only exception it raises is [ValueError]. *)
Theorem toboolean_returns (value : Value) (b : bool) :
  (toboolean value = Return b
   ↔ (value = VBool true ∧ b = true)
     ∨ ∃ s, value = VStr s
            ∧ (((lower s = "true" ∨ lower s = "1") ∧ b = true)
               ∨ ((lower s = "false" ∨ lower s = "0") ∧ b = false)))
  ∧ ∀ e, toboolean value = Raise e → e = ValueError.
Proof.
  split; [apply toboolean_Return |].
  - intros e. unfold toboolean.
    destruct (negb (truthy value)); [by intros [= <-] |].
    destruct value as [|b'|z|s]; try by intros [= <-].
    repeat case_bool_decide; try done. by intros [= <-].
Qed.

(** Whatever [toboolean] makes of a string, [str2bool] makes the same of
    it: the query-argument parser of [common.py] extends the one of
    [app_utils.py] (by "yes" and "t", and by reading every other string as
    false). *)
Theorem toboolean_agrees_with_str2bool (s : string) (b : bool) :
  toboolean (VStr s) = Return b → str2bool s = b.
Proof.
  intros Hb. apply (proj1 (toboolean_Return (VStr s) b)) in Hb.
  destruct Hb as [[? _]|(s' & [= <-] & [[[He|He] ->]|[[He|He] ->]])];
    [done | | | |]; unfold str2bool; rewrite He; reflexivity.
Qed.

Lemma toboolean_agrees_with_str2bool_witness :
  toboolean (VStr "False") = Return false ∧ str2bool "False" = false.
Proof.
  split; [reflexivity |].
  exact (toboolean_agrees_with_str2bool "False" false eq_refl).
Defined.

(** ** [tobinary] and [np.frombuffer] *)

Lemma tobytes_app (a b : list node_id) :
  tobytes (a ++ b) = tobytes a ++ tobytes b.
Proof. unfold tobytes. apply flat_map_app. Qed.

Lemma tobinary_multiples_concat (arr : list (list node_id)) :
  concat (tobinary_multiples arr) = tobinary (concat arr).
Proof.
  unfold tobinary_multiples, tobinary.
  induction arr as [|ids arr IH]; [done |].
  cbn [fmap list_fmap concat]. by rewrite tobytes_app, <-IH.
Qed.

Lemma np_frombuffer_tobytes (ids : list node_id) :
  Forall (λ i, i < NODE_ID_MODULUS) ids →
  np_frombuffer (tobytes ids) = Return ids.
Proof.
  intros Hall. unfold np_frombuffer. rewrite tobytes_length.
  replace (8 * length ids mod 8 =? 0)%nat with true.
  - replace (8 * length ids / 8)%nat with (length ids).
    + by rewrite frombuffer_tobytes.
    + symmetry. rewrite Nat.mul_comm. by apply Nat.div_mul.
  - symmetry. apply Nat.eqb_eq. rewrite Nat.mul_comm.
    by apply Nat.Div0.mod_mul.
Qed.

(** The buffers that [tobinary_multiples] makes of arrays of ids below
    [2^64], laid end to end, are read back by [np.frombuffer] as the ids of
    all the arrays in order: 8 bytes per id, nothing lost between
    buffers.  For one array: [np.frombuffer(tobinary(ids))] is [ids]. *)
Theorem np_frombuffer_tobinary (arr : list (list node_id)) :
  Forall (Forall (λ i, i < NODE_ID_MODULUS)) arr →
  np_frombuffer (concat (tobinary_multiples arr)) = Return (concat arr)
  ∧ length (concat (tobinary_multiples arr))
    = (8 * length (concat arr))%nat.
Proof.
  intros Hbound. rewrite tobinary_multiples_concat.
  assert (Forall (λ i, i < NODE_ID_MODULUS) (concat arr)) as Hall.
  { induction Hbound as [|ids arr Hids _ IH]; [constructor |].
    simpl. by apply Forall_app. }
  unfold tobinary.
  split; [by apply np_frombuffer_tobytes | apply tobytes_length].
Qed.

Lemma np_frombuffer_tobinary_witness :
  Forall (Forall (λ i, i < NODE_ID_MODULUS)) [[200; 2 ^ 63]; []; [7]]
  ∧ np_frombuffer (concat (tobinary_multiples [[200; 2 ^ 63]; []; [7]]))
    = Return [200; 2 ^ 63; 7].
Proof.
  assert (Forall (Forall (λ i, i < NODE_ID_MODULUS))
            [[200; 2 ^ 63]; []; [7]]) as Hbound.
  { repeat constructor. }
  split; [exact Hbound |].
  exact (proj1 (np_frombuffer_tobinary [[200; 2 ^ 63]; []; [7]] Hbound)).
Defined.

Lemma Byte_to_N_lt (b : Byte.byte) : Byte.to_N b < 256.
Proof. pose proof (Byte.to_N_bounded b). lia. Qed.

Lemma little_endian_of_frombytes (bs : list Byte.byte) :
  little_endian (length bs) (uint64_frombytes bs) = bs
  ∧ uint64_frombytes bs < 256 ^ N.of_nat (length bs).
Proof.
  induction bs as [|b bs [IH Hlt]]; [done |].
  cbn [length little_endian uint64_frombytes foldr].
  fold (uint64_frombytes bs).
  pose proof (Byte_to_N_lt b) as Hb.
  split.
  - f_equal.
    + unfold low_byte.
      replace ((Byte.to_N b + 256 * uint64_frombytes bs) mod 256)
        with (Byte.to_N b).
      * by rewrite Byte.of_to_N.
      * rewrite (N.mul_comm 256), N.Div0.mod_add.
        symmetry. by apply N.mod_small.
    + replace ((Byte.to_N b + 256 * uint64_frombytes bs) / 256)
        with (uint64_frombytes bs); [exact IH |].
      rewrite (N.mul_comm 256), N.div_add by done.
      by rewrite (N.div_small (Byte.to_N b)).
  - rewrite Nat2N.inj_succ, N.pow_succ_r'. lia.
Qed.

Lemma frombuffer_spec (n : nat) (data : list Byte.byte) :
  length data = (8 * n)%nat →
  tobytes (frombuffer n data) = data
  ∧ length (frombuffer n data) = n
  ∧ Forall (λ i, i < NODE_ID_MODULUS) (frombuffer n data).
Proof.
  revert data. induction n as [|n IH]; intros data Hlen.
  - destruct data; [|done]. repeat split. constructor.
  - cbn [frombuffer].
    destruct (IH (drop 8 data)) as (Hbytes & Hn & Hall).
    { rewrite length_drop. lia. }
    assert (length (take 8 data) = 8%nat) as Htake.
    { rewrite length_take. lia. }
    destruct (little_endian_of_frombytes (take 8 data)) as [Hle Hlt].
    rewrite Htake in Hle, Hlt.
    repeat split.
    + unfold tobytes in *. cbn [flat_map]. unfold uint64_tobytes at 1.
      rewrite Hle, Hbytes. apply take_drop.
    + simpl. by rewrite Hn.
    + constructor; [exact Hlt | exact Hall].
Qed.

(** [np.frombuffer] accepts exactly the buffers whose size is a multiple
    of 8 bytes and raises [ValueError] on the others.  From an accepted
    buffer it reads one id below [2^64] per 8 bytes, and [tobinary] of these
    ids is the buffer again. *)
Theorem np_frombuffer_accepts (body : list Byte.byte) :
  (∀ ids, np_frombuffer body = Return ids →
          tobinary ids = body
          ∧ (8 * length ids)%nat = length body
          ∧ Forall (λ i, i < NODE_ID_MODULUS) ids)
  ∧ ((∃ ids, np_frombuffer body = Return ids)
     ↔ (length body mod 8)%nat = 0%nat)
  ∧ ((length body mod 8)%nat ≠ 0%nat →
     np_frombuffer body = Raise ValueError).
Proof.
  unfold np_frombuffer.
  destruct (length body mod 8 =? 0)%nat eqn:Hmod.
  - apply Nat.eqb_eq in Hmod.
    assert (length body = 8 * (length body / 8))%nat as Hlen.
    { pose proof (Nat.div_mod_eq (length body) 8). lia. }
    destruct (frombuffer_spec _ body Hlen) as (Hbytes & Hn & Hall).
    split; [|split].
    + intros ids Hids.
      assert (ids = frombuffer (length body / 8) body) as -> by congruence.
      split; [exact Hbytes |]. split; [by rewrite Hn | exact Hall].
    + split; [done | eauto].
    + done.
  - apply Nat.eqb_neq in Hmod.
    split; [done |]. split; [|done].
    split; [by intros [ids ?] | done].
Qed.

(** ** The cache of graph handles *)

Lemma get_cg_Return {World Handle Coord : Type}
    (env env' : @Environment World Handle Coord) (table_id : string)
    (a a1 : @App World Handle) (cg : Handle) (t : list AppEvent) :
  get_cg env table_id [] a = (Return cg, a1, t) →
  CACHE a1 !! table_id = Some cg
  ∧ (∀ other, other ≠ table_id → CACHE a1 !! other = CACHE a !! other)
  ∧ current_table_id a1 = Some table_id
  ∧ world a1 = world a
  ∧ get_cg env' table_id [] a1 = (Return cg, a1, []).
Proof.
  unfold get_cg. rewrite get_cg_table_id_only.
  unfold get_cg_body, lift, bind, set_table_id, raise. simpl.
  destruct (negb _) eqn:Hprefix; [done |]. simpl.
  destruct (CACHE a !! table_id) as [cached|] eqn:Hcache.
  - intros [= <- <- <-]. simpl. rewrite Hcache. done.
  - destruct (ChunkedGraph_new env (world a) table_id) as [new|e]; [|done].
    intros [= <- <- <-]. simpl.
    rewrite lookup_insert_eq.
    split; [done |]. split.
    { intros other Hother. by rewrite lookup_insert_ne. }
    done.
Qed.

(** A [get_cg] that returns has a table id with one of the two prefixes. *)
Lemma get_cg_Return_prefix {World Handle Coord : Type}
    (env : @Environment World Handle Coord) (table_id : string)
    (a a1 : @App World Handle) (cg : Handle) (t : list AppEvent) :
  get_cg env table_id [] a = (Return cg, a1, t) →
  String.prefix "minnie" table_id || String.prefix "pinky_" table_id = true.
Proof.
  unfold get_cg. rewrite get_cg_table_id_only.
  unfold get_cg_body, lift, bind, raise. simpl.
  by destruct (String.prefix "minnie" table_id || String.prefix "pinky_" _).
Qed.

(** [get_cg] on a state that has the table in the cache: the cached
    handle, nothing constructed, and of the state only
    [current_app.table_id] set. *)
Lemma get_cg_from_cache {World Handle Coord : Type}
    (env : @Environment World Handle Coord) (table_id : string)
    (a : @App World Handle) (cg : Handle) :
  String.prefix "minnie" table_id || String.prefix "pinky_" table_id = true →
  CACHE a !! table_id = Some cg →
  get_cg env table_id [] a
  = (Return cg,
     {| CACHE := CACHE a; current_table_id := Some table_id;
        current_user_id := current_user_id a; world := world a |}, []).
Proof.
  intros Hprefix Hcache.
  unfold get_cg. rewrite get_cg_table_id_only.
  unfold get_cg_body, lift, bind, set_table_id, raise. simpl.
  rewrite Hprefix. simpl. by rewrite Hcache.
Qed.

(** Once [get_cg] has returned a handle for a table, the handle is in the
    cache under that table id and the entries of the other tables are as
    they were.  From then on a [get_cg] for the table, in whatever state
    of the process still has that entry (the world outside, the current
    table and user and the other entries may all have changed), returns
    the same handle from the cache, whatever the [ChunkedGraph]
    constructor would do now: it is not called, and the cache and the
    world stay as they are.  The one thing such a call changes is
    [current_app.table_id], which it sets to the table. *)
Theorem get_cg_cached {World Handle Coord : Type}
    (env env' : @Environment World Handle Coord) (table_id : string)
    (a a1 : @App World Handle) (cg : Handle) (t : list AppEvent) :
  get_cg env table_id [] a = (Return cg, a1, t) →
  CACHE a1 !! table_id = Some cg
  ∧ (∀ other, other ≠ table_id → CACHE a1 !! other = CACHE a !! other)
  ∧ current_table_id a1 = Some table_id
  ∧ world a1 = world a
  ∧ ∀ later : @App World Handle,
      CACHE later !! table_id = Some cg →
      get_cg env' table_id [] later
      = (Return cg,
         {| CACHE := CACHE later; current_table_id := Some table_id;
            current_user_id := current_user_id later;
            world := world later |}, []).
Proof.
  intros Hrun.
  destruct (get_cg_Return env env' table_id a a1 cg t Hrun)
    as (Hcache & Hothers & Htable & Hworld & _).
  repeat (split; [done |]).
  intros later Hlater.
  apply get_cg_from_cache; [| done].
  by eapply get_cg_Return_prefix.
Qed.

(** Opening the table ["minnie_test"] in a fresh process, then asking for
    it again where no graph can be constructed: after [before_request] has
    reset the current table and user and three edits went by, with a
    second table in the cache. *)
Lemma get_cg_cached_witness :
  get_cg (Toy.env true) "minnie_test" [] Toy.app
  = (Return "minnie_test",
     {| CACHE := {[ "minnie_test" := "minnie_test" ]};
        current_table_id := Some "minnie_test"; current_user_id := None;
        world := O |}, [])
  ∧ get_cg ToyMore.env_down "minnie_test" []
      {| CACHE := {[ "minnie_test" := "minnie_test";
                     "pinky_100" := "pinky_100" ]};
         current_table_id := None; current_user_id := None;
         world := 3%nat |}
    = (Return "minnie_test",
       {| CACHE := {[ "minnie_test" := "minnie_test";
                      "pinky_100" := "pinky_100" ]};
          current_table_id := Some "minnie_test"; current_user_id := None;
          world := 3%nat |}, []).
Proof.
  assert (get_cg (Toy.env true) "minnie_test" [] Toy.app
          = (Return "minnie_test",
             {| CACHE := {[ "minnie_test" := "minnie_test" ]};
                current_table_id := Some "minnie_test";
                current_user_id := None; world := O |}, [])) as Hfirst.
  { reflexivity. }
  split; [exact Hfirst |].
  exact (proj2 (proj2 (proj2 (proj2
           (get_cg_cached (Toy.env true) ToyMore.env_down "minnie_test"
              Toy.app _ "minnie_test" [] Hfirst))))
           {| CACHE := {[ "minnie_test" := "minnie_test";
                          "pinky_100" := "pinky_100" ]};
              current_table_id := None; current_user_id := None;
              world := 3%nat |} eq_refl).
Defined.

(** A [get_cg] that raises caches nothing: whether the table id has
    neither of the two prefixes, the call does not fit the signature or the
    [ChunkedGraph] constructor fails, the cache and the world outside are
    as before.  A table id with neither prefix is refused with
    [AssertionError] ([TypeError] if the call does not fit) before
    [current_app.table_id] is set: the process state is untouched. *)
Theorem get_cg_failure_caches_nothing {World Handle Coord : Type}
    (env : @Environment World Handle Coord) (table_id : string)
    (keywords : list string) (a a1 : @App World Handle) (e : exn)
    (t : list AppEvent) :
  get_cg env table_id keywords a = (Raise e, a1, t) →
  CACHE a1 = CACHE a
  ∧ world a1 = world a
  ∧ current_user_id a1 = current_user_id a
  ∧ (String.prefix "minnie" table_id = false →
     String.prefix "pinky_" table_id = false →
     a1 = a ∧ (e = AssertionError ∨ e = TypeError)).
Proof.
  unfold get_cg, lift, bind.
  destruct (bind_arguments get_cg_parameters 1 keywords) eqn:Hbind.
  - unfold get_cg_body, bind, set_table_id, raise. simpl.
    destruct (String.prefix "minnie" table_id);
      destruct (String.prefix "pinky_" table_id); simpl.
    4: { intros [= <- <- <-]. repeat split; auto. }
    all: destruct (CACHE a !! table_id); [done |].
    all: destruct (ChunkedGraph_new env (world a) table_id) eqn:Hnew;
      [done |].
    all: intros [= <- <- <-]; simpl; repeat split; done.
  - unfold bind_arguments in Hbind. case_bool_decide; [done |].
    injection Hbind as <-.
    intros [= <- <- <-]. repeat split; auto.
Qed.

(** A table of another dataset, in the process that has ["minnie_test"]
    open. *)
Lemma get_cg_failure_caches_nothing_witness :
  get_cg (Toy.env true) "fly_v31" [] (Toy.app_opened 3)
  = (Raise AssertionError, Toy.app_opened 3, [])
  ∧ CACHE (Toy.app_opened 3) = CACHE (Toy.app_opened 3).
Proof.
  assert (get_cg (Toy.env true) "fly_v31" [] (Toy.app_opened 3)
          = (Raise AssertionError, Toy.app_opened 3, [])) as Hrun.
  { reflexivity. }
  split; [exact Hrun |].
  exact (proj1 (get_cg_failure_caches_nothing (Toy.env true) "fly_v31" []
                  (Toy.app_opened 3) (Toy.app_opened 3) AssertionError []
                  Hrun)).
Defined.

(** ** The request log *)



(** ** [after_request] *)

Section after_request_facts.
Context {World LogDb : Type}.
Variable log_env : @LogEnvironment World LogDb.
Variable gzip_compress : list Byte.byte → list Byte.byte.

Lemma encode_response_idempotent (request : Request) (response : Response) :
  encode_response gzip_compress request
    (encode_response gzip_compress request response)
  = encode_response gzip_compress request response.
Proof.
  unfold encode_response.
  destruct (negb (contains "gzip" (lower (default "" (accept_encoding
              request))))) eqn:Haccept; simpl; [done |].
  destruct ((status_code response <? 200)%Z
            || (300 <=? status_code response)%Z
            || bool_decide (is_Some (headers response
                                       !! "content-encoding")))
    eqn:Hplain; simpl.
  - by rewrite Hplain.
  - rewrite lookup_insert_ne by done.
    rewrite lookup_insert_ne by done.
    rewrite lookup_insert_eq.
    rewrite (bool_decide_eq_true_2 (is_Some (Some "gzip"))) by eauto.
    by rewrite !orb_true_r.
Qed.
End after_request_facts.

(** [after_request] always returns a response: whatever the request log
    raises is swallowed, and the response does not depend on the log.  The
    body is compressed at most once: a response that went through
    [after_request] comes out of a second pass unchanged, and the body of a
    response is left as it is unless the client accepts gzip, the status is
    2xx and the response has no Content-Encoding yet. *)
Theorem after_request_encodes_once {World LogDb : Type}
    (log_env : @LogEnvironment World LogDb)
    (gzip_compress : list Byte.byte → list Byte.byte)
    (request : Request) (response : Response)
    (p : @LogProcess World LogDb) :
  ∃ encoded,
    outcome (after_request log_env gzip_compress request response p)
    = Return encoded
    ∧ (∀ (log_env' : @LogEnvironment World LogDb)
         (p' : @LogProcess World LogDb),
         outcome (after_request log_env' gzip_compress request encoded p')
         = Return encoded)
    ∧ (data encoded = data response
       ∨ (data encoded = gzip_compress (data response)
          ∧ contains "gzip" (lower (default "" (accept_encoding request)))
            = true
          ∧ (200 ≤ status_code response < 300)%Z
          ∧ headers response !! "content-encoding" = None
          ∧ headers encoded !! "content-encoding" = Some "gzip")).
Proof.
  assert (∀ (le : @LogEnvironment World LogDb) resp
            (q : @LogProcess World LogDb),
            outcome (after_request le gzip_compress request resp q)
            = Return (encode_response gzip_compress request resp)) as Hrun.
  { intros le resp q. unfold after_request, bind, try_except, ret, outcome.
    destruct (log_request le request q) as [[[[]|e] q1] t1]; done. }
  exists (encode_response gzip_compress request response).
  split; [apply Hrun |]. split.
  - intros log_env' p'. rewrite Hrun.
    by rewrite encode_response_idempotent.
  - unfold encode_response.
    destruct (contains "gzip" _) eqn:Haccept; simpl; [|by left].
    destruct (status_code response <? 200)%Z eqn:Hlow; simpl; [by left |].
    destruct (300 <=? status_code response)%Z eqn:Hhigh; simpl; [by left |].
    case_bool_decide as Hencoded; simpl; [by left |].
    right. repeat split; try lia.
    + by apply eq_None_not_Some.
    + rewrite lookup_insert_ne by done.
      rewrite lookup_insert_ne by done.
      by rewrite lookup_insert_eq.
Qed.

(** ** Undo and redo that publish nothing *)

Section handler_facts.
Context {World Handle Coord : Type}.
Variable env : @Environment World Handle Coord.

(** The state [get_cg] leaves has the table and the user of the handler
    that called it, and a second call finds the handle in the cache. *)
Lemma get_cg_entered (table_id user : string) (a a1 : @App World Handle)
    (cg : Handle) (t : list (@AppEvent Coord)) :
  get_cg env table_id [] (entered table_id user a) = (Return cg, a1, t) →
  entered table_id user a1 = a1
  ∧ get_cg env table_id [] a1 = (Return cg, a1, []).
Proof.
  intros Hcg. split.
  - revert Hcg. unfold get_cg. rewrite get_cg_table_id_only.
    unfold get_cg_body, lift, bind, set_table_id, raise, entered. simpl.
    destruct (negb _); [done |]. simpl.
    destruct (CACHE a !! table_id) as [cached|].
    + by intros [= <- <- <-].
    + destruct (ChunkedGraph_new env (world a) table_id); [|done].
      by intros [= <- <- <-].
  - by destruct (get_cg_Return env env table_id _ _ _ _ Hcg)
      as (_ & _ & _ & _ & ?).
Qed.
End handler_facts.

(** When the undo (the redo) of an operation fails, or commits without new
    level 2 ids, [handle_undo] ([handle_redo]) publishes nothing: the one
    call it makes is the edit.  It returns the edit result as it is, and
    it answers a [LockingError] with [InternalServerError], a
    [PreconditionError] or [PostconditionError] with [BadRequest], and lets
    every other exception through. *)
Theorem undo_redo_without_publication {World Handle Coord : Type}
    (env : @Environment World Handle Coord)
    (table_id : string) (operation : node_id) (priority : option string)
    (auth_user : string) (a a1 : @App World Handle) (cg : Handle) :
  get_cg env table_id [] (entered table_id auth_user a)
  = (Return cg, a1, []) →
  (∀ r w1,
     undo_operation env cg (world a1) auth_user operation = (r, w1) →
     (∀ ret_, r = Return ret_ → new_lvl2_ids ret_ = []) →
     handle_undo env table_id operation priority auth_user a
     = (edit_response r, set_world a1 w1, [EvUndo auth_user operation]))
  ∧ (∀ r w1,
       redo_operation env cg (world a1) auth_user operation = (r, w1) →
       (∀ ret_, r = Return ret_ → new_lvl2_ids ret_ = []) →
       handle_redo env table_id operation priority auth_user a
       = (edit_response r, set_world a1 w1, [EvRedo auth_user operation])).
Proof.
  intros Hcg. split; intros r w1 Hedit Hquiet.
  - unfold handle_undo, bind, set_table_id, set_user_id. simpl.
    unfold entered in Hcg. rewrite Hcg.
    unfold publish_new_lvl2_ids, publish_edit, try_except, world_call, call,
      emit, ret.
    simpl. rewrite Hedit. simpl.
    destruct r as [ret_|e]; simpl.
    + by rewrite (Hquiet ret_ eq_refl).
    + by destruct e.
  - unfold handle_redo, bind, set_table_id, set_user_id. simpl.
    unfold entered in Hcg. rewrite Hcg.
    unfold publish_new_lvl2_ids, publish_edit, try_except, world_call, call,
      emit, ret.
    simpl. rewrite Hedit. simpl.
    destruct r as [ret_|e]; simpl.
    + by rewrite (Hquiet ret_ eq_refl).
    + by destruct e.
Qed.

(** The undo of operation 4, which fails its precondition in the toy
    environment. *)
Lemma undo_redo_without_publication_witness :
  get_cg (ToyMore.env_quiet (Some 4)) "minnie_test" []
    (entered "minnie_test" "alice" Toy.app)
  = (Return "minnie_test", Toy.app_opened 0, [])
  ∧ handle_undo (ToyMore.env_quiet (Some 4)) "minnie_test" 4 None "alice"
      Toy.app
    = (Raise BadRequest, Toy.app_opened 0, [EvUndo "alice" 4]).
Proof.
  assert (get_cg (ToyMore.env_quiet (Some 4)) "minnie_test" []
            (entered "minnie_test" "alice" Toy.app)
          = (Return "minnie_test", Toy.app_opened 0, [])) as Hcg.
  { reflexivity. }
  split; [exact Hcg |].
  refine (proj1 (undo_redo_without_publication (ToyMore.env_quiet (Some 4))
                   "minnie_test" 4 None "alice" Toy.app (Toy.app_opened 0)
                   "minnie_test" Hcg)
            (Raise PreconditionError) O eq_refl _).
  intros ret_ Hret. discriminate Hret.
Defined.

(** ** The operation lists of a user and the change log table *)

Section log_listing_facts.
Variable log_rows : gmap node_id LogEntry.

(** The ids of the log in ascending order: every key once. *)
Lemma sorted_entry_ids_elem_of (entry_id : node_id) :
  entry_id ∈ sorted_entry_ids log_rows ↔ is_Some (log_rows !! entry_id).
Proof.
  unfold sorted_entry_ids. rewrite merge_sort_Permutation.
  rewrite list_elem_of_fmap. split.
  - intros ([k entry] & -> & Hin%elem_of_map_to_list). by exists entry.
  - intros [entry Hentry]. exists (entry_id, entry).
    split; [done |]. by apply elem_of_map_to_list.
Qed.

Lemma sorted_entry_ids_Sorted : Sorted N.lt (sorted_entry_ids log_rows).
Proof.
  unfold sorted_entry_ids. apply Sorted_le_NoDup_lt.
  - apply (Sorted_merge_sort N.le).
  - rewrite merge_sort_Permutation. apply NoDup_fst_map_to_list.
Qed.

Lemma sorted_entry_ids_length :
  length (sorted_entry_ids log_rows) = size log_rows.
Proof.
  unfold sorted_entry_ids. rewrite merge_sort_Permutation, length_fmap.
  apply length_map_to_list.
Qed.

Lemma Sorted_lt_filter (P : node_id → Prop) `{!∀ x, Decision (P x)}
    (l : list node_id) :
  Sorted N.lt l → Sorted N.lt (filter P l).
Proof.
  intros Hs%Sorted_StronglySorted; [|intros x y z; apply N.lt_trans].
  apply StronglySorted_Sorted.
  induction Hs as [|x l Hs IH Hall]; [constructor |].
  rewrite filter_cons. destruct (decide (P x)); [|done].
  constructor; [done |].
  apply Forall_forall. intros y [_ Hy]%list_elem_of_filter.
  by apply (proj1 (Forall_forall _ _) Hall).
Qed.

Local Abbreviation row_of := (log_row_of log_rows).

Lemma filter_all {A} (P : A → Prop) `{!∀ x, Decision (P x)} (l : list A) :
  (∀ x, P x) → filter P l = l.
Proof.
  intros HP. induction l as [|x l IH]; [done |].
  by rewrite filter_cons_True, IH.
Qed.

Lemma filter_True_id {A} (l : list A) : filter (λ _, True) l = l.
Proof. by apply filter_all. Qed.

Lemma change_log_rows_foldl (ids : list node_id)
    (acc : list timestamp * list string) :
  foldl (change_log_row log_rows) acc ids
  = (acc.1 ++ (omap row_of ids).*1.*2, acc.2 ++ (omap row_of ids).*2).
Proof.
  revert acc. induction ids as [|entry_id ids IH]; intros [ts us].
  - simpl. by rewrite !app_nil_r.
  - cbn [foldl omap list_omap]. rewrite IH. unfold change_log_row, log_row_of.
    destruct (log_rows !! entry_id) as [entry|]; simpl; [|done].
    by rewrite <-!app_assoc.
Qed.

Lemma omap_row_of_ids (ids : list node_id) :
  (∀ entry_id, entry_id ∈ ids → is_Some (log_rows !! entry_id)) →
  (omap row_of ids).*1.*1 = ids.
Proof.
  induction ids as [|entry_id ids IH]; intros Hall; [done |].
  cbn [omap list_omap]. unfold log_row_of at 1.
  destruct (Hall entry_id) as [entry ->]; [left |]. simpl.
  f_equal. apply IH. intros x Hx. apply Hall. by right.
Qed.

Lemma zip_projections {A B C} (l : list (A * B * C)) :
  zip (zip l.*1.*1 l.*1.*2) l.*2 = l.
Proof.
  induction l as [|[[x y] z] l IH]; [done |]. simpl. f_equal. exact IH.
Qed.

Lemma change_log_table_rows :
  table_rows (change_log_table_of_log log_rows)
  = omap row_of (sorted_entry_ids log_rows).
Proof.
  unfold table_rows, change_log_table_of_log. simpl.
  rewrite change_log_rows_foldl. simpl.
  rewrite <-(omap_row_of_ids (sorted_entry_ids log_rows)) at 1.
  - apply zip_projections.
  - intros entry_id. apply sorted_entry_ids_elem_of.
Qed.

Lemma omap_row_of_lookup (ids : list node_id) (i : nat)
    (row : node_id * timestamp * string) :
  omap row_of ids !! i = Some row →
  ∃ entry, log_rows !! row.1.1 = Some entry
           ∧ row.1.2 = entry_timestamp entry
           ∧ row.2 = entry_UserID entry.
Proof.
  intros Hrow%list_elem_of_lookup_2.
  apply list_elem_of_omap in Hrow as (entry_id & _ & Hrow).
  unfold log_row_of in Hrow.
  destruct (log_rows !! entry_id) as [entry|] eqn:Hentry; [|done].
  injection Hrow as <-. simpl. eauto.
Qed.

Variable target_user_id : string.

Lemma scan_log_timestamps (ids : list node_id) (acc : Scan) :
  scan_timestamps (foldl (scan_entry log_rows target_user_id) acc ids)
  = scan_timestamps acc
    ++ omap (λ entry_id, entry_timestamp <$> log_rows !! entry_id)
         (filter (authored_by log_rows target_user_id) ids).
Proof.
  revert acc. induction ids as [|entry_id ids IH]; intros acc.
  - by rewrite app_nil_r.
  - cbn [foldl]. rewrite IH, filter_cons.
    destruct (decide (authored_by log_rows target_user_id entry_id))
      as [Ha|Ha];
      unfold authored_by in Ha; unfold scan_entry;
      destruct (log_rows !! entry_id) as [entry|] eqn:Hentry;
      simpl in Ha |- *; try done.
    + rewrite bool_decide_eq_true_2 by congruence.
      rewrite Hentry. simpl. by rewrite <-app_assoc.
    + rewrite bool_decide_eq_false_2 by congruence. done.
Qed.

(** Whatever [include_undone] is, the operation ids come from the ids of
    the target user by a further filter, and the time stamps are read off
    the ids. *)
Lemma user_operations_of_log_filter (include_undone : bool) :
  ∃ (P : node_id → Prop) (_ : ∀ x, Decision (P x)),
    operation_id_list
      (user_operations_of_log log_rows target_user_id include_undone)
    = filter P (filter (authored_by log_rows target_user_id)
                  (sorted_entry_ids log_rows))
    ∧ timestamp_list
        (user_operations_of_log log_rows target_user_id include_undone)
      = omap (λ entry_id, entry_timestamp <$> log_rows !! entry_id)
          (filter P (filter (authored_by log_rows target_user_id)
                       (sorted_entry_ids log_rows)))
    ∧ (include_undone = true → ∀ x, P x).
Proof.
  unfold user_operations_of_log, scan_log. destruct include_undone.
  - exists (λ _, True), _. cbn [operation_id_list timestamp_list].
    rewrite scan_log_valid_entry_ids, scan_log_timestamps. simpl.
    by rewrite filter_True_id.
  - eexists _, _. cbn [operation_id_list timestamp_list].
    rewrite filter_entries_spec. cbn [fst snd].
    rewrite scan_log_valid_entry_ids. cbn [valid_entry_ids app].
    split; [reflexivity |]. split; [reflexivity | done].
Qed.

Lemma omap_timestamps_lookup (ids : list node_id) (i : nat)
    (entry_id : node_id) :
  (∀ x, x ∈ ids → is_Some (log_rows !! x)) →
  ids !! i = Some entry_id →
  omap (λ entry_id, entry_timestamp <$> log_rows !! entry_id) ids !! i
  = entry_timestamp <$> log_rows !! entry_id.
Proof.
  revert i. induction ids as [|x ids IH]; intros i Hall Hi; [done |].
  cbn [omap list_omap].
  destruct (Hall x) as [entry Hentry]; [left |]. rewrite Hentry. simpl.
  destruct i as [|i]; simpl in *.
  - injection Hi as <-. by rewrite Hentry.
  - apply IH; [|done]. intros y Hy. apply Hall. by right.
Qed.

Lemma omap_timestamps_length (ids : list node_id) :
  (∀ x, x ∈ ids → is_Some (log_rows !! x)) →
  length (omap (λ entry_id, entry_timestamp <$> log_rows !! entry_id) ids)
  = length ids.
Proof.
  induction ids as [|x ids IH]; intros Hall; [done |].
  cbn [omap list_omap].
  destruct (Hall x) as [entry ->]; [left |]. simpl.
  f_equal. apply IH. intros y Hy. apply Hall. by right.
Qed.

(** The ids [all_user_operations] lists with [include_undone] are the
    rows of the change log table that name the user. *)
Lemma user_rows_of_table (ids : list node_id) :
  zip (filter (authored_by log_rows target_user_id) ids)
    (omap (λ entry_id, entry_timestamp <$> log_rows !! entry_id)
       (filter (authored_by log_rows target_user_id) ids))
  = fst <$> filter (λ row, row.2 = target_user_id) (omap row_of ids).
Proof.
  induction ids as [|entry_id ids IH]; [done |].
  rewrite filter_cons. cbn [omap list_omap].
  destruct (decide (authored_by log_rows target_user_id entry_id))
    as [Ha|Ha];
    unfold authored_by in Ha; unfold log_row_of at 1;
    destruct (log_rows !! entry_id) as [entry|] eqn:Hentry;
    simpl in Ha |- *; try done.
  - rewrite Hentry. simpl.
    rewrite filter_cons_True by (simpl; congruence).
    simpl. f_equal. exact IH.
  - rewrite filter_cons_False by (simpl; congruence). exact IH.
Qed.
End log_listing_facts.

(** On every log and for both values of [include_undone], the two lists
    [all_user_operations] returns are aligned: they have the same length,
    the ids are in strictly ascending order, and the time stamp at a
    position is that of the log entry whose id is at that position, an
    entry of the target user.  With [include_undone] the ids are all the
    entries of that user, undo and redo records and failed operations
    included; without it they are a sublist of those. *)
Theorem all_user_operations_lists_aligned {World Handle Coord : Type}
    (env : @Environment World Handle Coord)
    (table_id : string) (include_undone : bool) (target_user_id : string)
    (start_time_arg : option string) (auth_user : string)
    (a a1 : @App World Handle) (cg : Handle) (start_time : timestamp)
    (log_rows : gmap node_id LogEntry) :
  _parse_timestamp env start_time_arg = Return start_time →
  get_cg env table_id [] (entered table_id auth_user a)
  = (Return cg, a1, []) →
  read_log_entries env cg (world a1) start_time = Return log_rows →
  ∃ ops,
    all_user_operations env table_id include_undone (Some target_user_id)
      start_time_arg auth_user a
    = (Return ops, a1, [EvReadLog (Coord := Coord) start_time])
    ∧ length (timestamp_list ops) = length (operation_id_list ops)
    ∧ Sorted N.lt (operation_id_list ops)
    ∧ (∀ i entry_id,
         operation_id_list ops !! i = Some entry_id →
         ∃ entry, log_rows !! entry_id = Some entry
                  ∧ entry_UserID entry = target_user_id
                  ∧ timestamp_list ops !! i = Some (entry_timestamp entry))
    ∧ (include_undone = true →
       ∀ entry_id, entry_id ∈ operation_id_list ops
                   ↔ authored_by log_rows target_user_id entry_id)
    ∧ operation_id_list ops
      `sublist_of` operation_id_list
                     (user_operations_of_log log_rows target_user_id true).
Proof.
  intros Hstart Hcg Hlog.
  exists (user_operations_of_log log_rows target_user_id include_undone).
  split.
  { unfold all_user_operations, bind, set_table_id, set_user_id, lift.
    simpl. rewrite Hstart. unfold entered in Hcg. rewrite Hcg.
    unfold emit, world_reads, reads, ret. simpl. by rewrite Hlog. }
  destruct (user_operations_of_log_filter log_rows target_user_id
              include_undone) as (P & HP & -> & -> & Hall).
  assert (∀ x, x ∈ filter P (filter (authored_by log_rows target_user_id)
                               (sorted_entry_ids log_rows)) →
               authored_by log_rows target_user_id x) as Hmine.
  { intros x [_ [Hx _]%list_elem_of_filter]%list_elem_of_filter. exact Hx. }
  assert (∀ x, x ∈ filter P (filter (authored_by log_rows target_user_id)
                               (sorted_entry_ids log_rows)) →
               is_Some (log_rows !! x)) as Hsome.
  { intros x Hx%Hmine. unfold authored_by in Hx.
    destruct (log_rows !! x); [eauto | done]. }
  split; [by apply omap_timestamps_length |].
  split; [do 2 apply Sorted_lt_filter; apply sorted_entry_ids_Sorted |].
  split.
  { intros i entry_id Hi.
    rewrite (omap_timestamps_lookup log_rows _ i entry_id Hsome Hi).
    pose proof (Hmine entry_id (list_elem_of_lookup_2 _ _ _ Hi)) as Hx.
    unfold authored_by in Hx.
    destruct (log_rows !! entry_id) as [entry|]; [|done].
    injection Hx as Hx. eauto. }
  split.
  { intros Htrue entry_id. rewrite !list_elem_of_filter.
    rewrite sorted_entry_ids_elem_of. unfold authored_by.
    split; [tauto |]. intros Hx. repeat split; [by apply Hall | done |].
    destruct (log_rows !! entry_id); [eauto | done]. }
  destruct (user_operations_of_log_filter log_rows target_user_id true)
    as (Q & HQ & -> & _ & HallQ).
  assert (filter Q (filter (authored_by log_rows target_user_id)
                      (sorted_entry_ids log_rows))
          = filter (authored_by log_rows target_user_id)
              (sorted_entry_ids log_rows)) as ->.
  { apply filter_all. by apply HallQ. }
  apply sublist_filter.
Qed.

(** The operations of [alice] in the toy log, undone ones included. *)
Lemma all_user_operations_lists_aligned_witness :
  (_parse_timestamp (Toy.env true) None = Return 0%Z
   ∧ get_cg (Toy.env true) "minnie_test" []
       (entered "minnie_test" "alice" Toy.app)
     = (Return "minnie_test", Toy.app_opened 0, [])
   ∧ read_log_entries (Toy.env true) "minnie_test" O 0%Z
     = Return Toy.log_rows)
  ∧ ∃ ops,
      all_user_operations (Toy.env true) "minnie_test" true (Some "alice")
        None "alice" Toy.app
      = (Return ops, Toy.app_opened 0, [EvReadLog 0%Z])
      ∧ length (timestamp_list ops) = length (operation_id_list ops).
Proof.
  split; [repeat split; reflexivity |].
  destruct (all_user_operations_lists_aligned (Toy.env true) "minnie_test"
              true "alice" None "alice" Toy.app (Toy.app_opened 0)
              "minnie_test" 0%Z Toy.log_rows eq_refl eq_refl eq_refl)
    as (ops & Hrun & Hlen & _).
  exists ops. split; [exact Hrun | exact Hlen].
Defined.

(** [tabular_change_log_recent] returns a table with one row per log
    entry: the three columns have the length of the log, the operation ids
    are in strictly ascending order, and the row of an id holds the time
    stamp and the user of the log entry with that id.  The rows that name
    a user are, in this order and with these time stamps, what
    [all_user_operations] lists for that user with [include_undone]. *)
Theorem tabular_change_log_recent_rows {World Handle Coord : Type}
    (env : @Environment World Handle Coord)
    (table_id : string) (timestamp_arg : option string)
    (auth_user : string) (a a1 : @App World Handle) (cg : Handle)
    (start_time : timestamp) (log_rows : gmap node_id LogEntry) :
  _parse_timestamp env timestamp_arg = Return start_time →
  get_cg env table_id [] (entered table_id auth_user a)
  = (Return cg, a1, []) →
  read_log_entries env cg (world a1) start_time = Return log_rows →
  ∃ table,
    tabular_change_log_recent env table_id timestamp_arg auth_user a
    = (Return table, a1, [EvReadLog (Coord := Coord) start_time])
    ∧ length (column_operation_id table) = size log_rows
    ∧ length (column_timestamp table) = size log_rows
    ∧ length (column_user_id table) = size log_rows
    ∧ Sorted N.lt (column_operation_id table)
    ∧ (∀ i row,
         table_rows table !! i = Some row →
         ∃ entry, log_rows !! row.1.1 = Some entry
                  ∧ row.1.2 = entry_timestamp entry
                  ∧ row.2 = entry_UserID entry)
    ∧ ∀ target_user_id,
        let ops := user_operations_of_log log_rows target_user_id true in
        zip (operation_id_list ops) (timestamp_list ops)
        = fst <$> filter (λ row, row.2 = target_user_id) (table_rows table).
Proof.
  intros Hstart Hcg Hlog.
  exists (change_log_table_of_log log_rows).
  split.
  { unfold tabular_change_log_recent, bind, set_table_id, set_user_id, lift.
    simpl. rewrite Hstart. unfold entered in Hcg. rewrite Hcg.
    unfold emit, world_reads, reads, ret. simpl. by rewrite Hlog. }
  pose proof (change_log_table_rows log_rows) as Hrows.
  assert (length (table_rows (change_log_table_of_log log_rows))
          = size log_rows) as Hlen.
  { rewrite Hrows, <-sorted_entry_ids_length.
    rewrite <-(omap_row_of_ids log_rows (sorted_entry_ids log_rows)) at 2
      by (intros x; apply sorted_entry_ids_elem_of).
    by rewrite !length_fmap. }
  assert (column_timestamp (change_log_table_of_log log_rows)
          = (omap (log_row_of log_rows) (sorted_entry_ids log_rows)).*1.*2
          ∧ column_user_id (change_log_table_of_log log_rows)
            = (omap (log_row_of log_rows) (sorted_entry_ids log_rows)).*2)
    as [Hts Hus].
  { unfold change_log_table_of_log. simpl.
    by rewrite change_log_rows_foldl. }
  rewrite Hrows in Hlen.
  split; [apply sorted_entry_ids_length |].
  split; [by rewrite Hts, !length_fmap |].
  split; [by rewrite Hus, !length_fmap |].
  split; [apply sorted_entry_ids_Sorted |].
  split.
  { intros i row. rewrite Hrows. apply omap_row_of_lookup. }
  intros target_user_id ops. rewrite Hrows. subst ops.
  unfold user_operations_of_log, scan_log.
  cbn [operation_id_list timestamp_list].
  rewrite scan_log_valid_entry_ids, scan_log_timestamps. simpl.
  apply user_rows_of_table.
Qed.

(** The change log table of the toy log. *)
Lemma tabular_change_log_recent_rows_witness :
  (_parse_timestamp (Toy.env true) None = Return 0%Z
   ∧ get_cg (Toy.env true) "minnie_test" []
       (entered "minnie_test" "alice" Toy.app)
     = (Return "minnie_test", Toy.app_opened 0, [])
   ∧ read_log_entries (Toy.env true) "minnie_test" O 0%Z
     = Return Toy.log_rows)
  ∧ ∃ table,
      tabular_change_log_recent (Toy.env true) "minnie_test" None "alice"
        Toy.app
      = (Return table, Toy.app_opened 0, [EvReadLog 0%Z])
      ∧ length (column_user_id table) = size Toy.log_rows.
Proof.
  split; [repeat split; reflexivity |].
  destruct (tabular_change_log_recent_rows (Toy.env true) "minnie_test"
              None "alice" Toy.app (Toy.app_opened 0) "minnie_test" 0%Z
              Toy.log_rows eq_refl eq_refl eq_refl)
    as (table & Hrun & _ & _ & Hlen & _).
  exists table. split; [exact Hrun | exact Hlen].
Defined.

(** ** Rolling a user back *)

Section rollback_run_facts.
Context {World Handle Coord : Type}.
Variable env : @Environment World Handle Coord.

(** Undoing [op] commits without new level 2 ids, wherever it is tried. *)
Local Abbreviation quiet_undo cg target_user_id op :=
  (∀ w, ∃ ret_ w1,
     undo_operation env cg w target_user_id op = (Return ret_, w1)
     ∧ new_lvl2_ids ret_ = []).

Lemma rollback_loop_app (table_id target_user_id : string) (cg : Handle)
    (done rest : list (node_id * timestamp)) (a : @App World Handle) :
  (∀ op, op ∈ done → quiet_undo cg target_user_id op.1) →
  ∃ a',
    rollback_loop env table_id target_user_id cg (done ++ rest) a
    = (outcome (rollback_loop env table_id target_user_id cg rest a'),
       final_store (rollback_loop env table_id target_user_id cg rest a'),
       ((λ op, EvUndo target_user_id op.1) <$> done)
       ++ events (rollback_loop env table_id target_user_id cg rest a')).
Proof.
  revert a. induction done as [|operation done IH]; intros a Hquiet.
  - exists a. simpl. apply run_eta.
  - destruct (Hquiet operation) with (w := world a)
      as (ret_ & w1 & Hundo & Hnew); [left |].
    destruct (IH (set_world a w1)) as [a' Hrun].
    { intros op Hop. apply Hquiet. by right. }
    exists a'. cbn [app rollback_loop].
    rewrite (bind_Return _ _ _ tt (set_world a w1)
               [EvUndo target_user_id operation.1])
      by (by apply rollback_step_quiet with ret_).
    rewrite Hrun. reflexivity.
Qed.

Lemma rollback_step_failure (table_id target_user_id : string)
    (cg : Handle) (operation : node_id * timestamp) (a : @App World Handle)
    (e : exn) (w1 : World) :
  undo_operation env cg (world a) target_user_id operation.1
  = (Raise e, w1) →
  rollback_step env table_id target_user_id cg operation a
  = (edit_response (Raise e), set_world a w1,
     [EvUndo (Coord := Coord) target_user_id operation.1]).
Proof.
  intros Hundo.
  unfold rollback_step, try_except, world_call, call, bind, emit, lift.
  simpl. rewrite Hundo. simpl. by destruct e.
Qed.

(** [handle_rollback] up to its loop. *)
Lemma handle_rollback_run (table_id target_user_id : string)
    (start_time_arg : option string) (auth_user : string)
    (a a1 : @App World Handle) (cg : Handle) (start_time : timestamp)
    (log_rows : gmap node_id LogEntry) :
  _parse_timestamp env start_time_arg = Return start_time →
  get_cg env table_id [] (entered table_id auth_user a)
  = (Return cg, a1, []) →
  read_log_entries env cg (world a1) start_time = Return log_rows →
  let ops := user_operations_of_log log_rows target_user_id false in
  let run :=
    rollback_loop env table_id target_user_id cg
      (sort_descending
         (zip (operation_id_list ops) (timestamp_list ops))) a1 in
  handle_rollback env table_id (Some target_user_id) start_time_arg
    auth_user a
  = (match outcome run with
     | Return _ => Return ops
     | Raise e => Raise e
     end, final_store run,
     EvReadLog (Coord := Coord) start_time :: events run).
Proof.
  intros Hstart Hcg Hlog ops run.
  destruct (get_cg_entered env _ _ _ _ _ _ Hcg) as [Hentered Hcached].
  unfold handle_rollback.
  unfold bind at 1. unfold set_table_id at 1. simpl.
  unfold bind at 1. unfold set_user_id at 1. simpl.
  unfold bind at 1. unfold lift at 1. simpl.
  unfold bind at 1. unfold entered in Hcg. rewrite Hcg.
  unfold bind at 1.
  assert (all_user_operations env table_id false (Some target_user_id)
            start_time_arg auth_user a1
          = (Return ops, a1, [EvReadLog (Coord := Coord) start_time]))
    as ->.
  { unfold all_user_operations, bind, set_table_id, set_user_id, lift.
    simpl. rewrite Hstart. unfold entered in Hentered. rewrite Hentered.
    rewrite Hcached.
    unfold emit, world_reads, reads, ret. simpl. by rewrite Hlog. }
  unfold bind, ret. fold run.
  destruct run as [[[[]|e] a2] t2]; unfold outcome, final_store, events;
    simpl; by rewrite ?app_nil_r.
Qed.
End rollback_run_facts.



(** When the undos of the operations [done], the ones that come first in
    the order of [handle_rollback] (latest time stamp first), commit
    without new level 2 ids and the undo of the next operation, [failing],
    raises (each whatever the state of the store), the handler stops
    there: it has called the undo of the operations of [done] and of
    [failing], in this order and nothing else after reading the log, it
    calls none for the operations in [rest], and it answers as the other
    edit handlers do ([InternalServerError] for a [LockingError],
    [BadRequest] for a failed pre- or postcondition, any other exception
    as it is), returning no list. *)
Theorem handle_rollback_stops_at_failure {World Handle Coord : Type}
    (env : @Environment World Handle Coord)
    (table_id target_user_id : string) (start_time_arg : option string)
    (auth_user : string) (a a1 : @App World Handle) (cg : Handle)
    (start_time : timestamp) (log_rows : gmap node_id LogEntry)
    (done rest : list (node_id * timestamp))
    (failing : node_id * timestamp) (e : exn) :
  _parse_timestamp env start_time_arg = Return start_time →
  get_cg env table_id [] (entered table_id auth_user a)
  = (Return cg, a1, []) →
  read_log_entries env cg (world a1) start_time = Return log_rows →
  (let ops := user_operations_of_log log_rows target_user_id false in
   sort_descending (zip (operation_id_list ops) (timestamp_list ops))
   = done ++ failing :: rest) →
  (∀ op w, op ∈ done →
     ∃ ret_ w1,
       undo_operation env cg w target_user_id op.1 = (Return ret_, w1)
       ∧ new_lvl2_ids ret_ = []) →
  (∀ w, ∃ w1,
     undo_operation env cg w target_user_id failing.1 = (Raise e, w1)) →
  outcome (handle_rollback env table_id (Some target_user_id)
             start_time_arg auth_user a)
  = edit_response (Raise e)
  ∧ events (handle_rollback env table_id (Some target_user_id)
              start_time_arg auth_user a)
    = EvReadLog start_time
      :: ((λ op, EvUndo target_user_id op.1) <$> (done ++ [failing])).
Proof.
  intros Hstart Hcg Hlog Hops Hquiet Hfail.
  rewrite (handle_rollback_run env table_id target_user_id start_time_arg
             auth_user a a1 cg start_time log_rows Hstart Hcg Hlog).
  cbn zeta in Hops. rewrite Hops.
  destruct (rollback_loop_app env table_id target_user_id cg done
              (failing :: rest) a1) as [a' Hrun].
  { intros op Hop w. by apply Hquiet. }
  rewrite Hrun. clear Hrun.
  destruct (Hfail (world a')) as [w1 Hundo].
  cbn [rollback_loop].
  pose proof (rollback_step_failure env table_id target_user_id cg failing
                a' e w1 Hundo) as Hstep.
  assert (∃ e', edit_response (A := unit) (Raise e) = Raise e')
    as [e' He'] by (destruct e; simpl; eauto).
  rewrite He' in Hstep. rewrite (bind_Raise _ _ _ _ _ _ Hstep).
  unfold outcome, events. cbn [fst snd].
  split; [destruct e; simpl in *; congruence |].
  by rewrite fmap_app.
Qed.

(** Rolling [alice] back in the toy log where the undo of her operation 4
    fails: operation 5 has been undone, and stays so. *)
Lemma handle_rollback_stops_at_failure_witness :
  (_parse_timestamp (ToyMore.env_quiet (Some 4)) None = Return 0%Z
   ∧ get_cg (ToyMore.env_quiet (Some 4)) "minnie_test" []
       (entered "minnie_test" "carol" Toy.app)
     = (Return "minnie_test",
        {| CACHE := {[ "minnie_test" := "minnie_test" ]};
           current_table_id := Some "minnie_test";
           current_user_id := Some "carol"; world := O |}, [])
   ∧ read_log_entries (ToyMore.env_quiet (Some 4)) "minnie_test" O 0%Z
     = Return Toy.log_rows
   ∧ sort_descending
       (zip (operation_id_list
               (user_operations_of_log Toy.log_rows "alice" false))
          (timestamp_list
             (user_operations_of_log Toy.log_rows "alice" false)))
     = [(5, 50%Z)] ++ (4, 40%Z) :: [])
  ∧ outcome (handle_rollback (ToyMore.env_quiet (Some 4)) "minnie_test"
               (Some "alice") None "carol" Toy.app)
    = Raise BadRequest
  ∧ events (handle_rollback (ToyMore.env_quiet (Some 4)) "minnie_test"
              (Some "alice") None "carol" Toy.app)
    = [EvReadLog 0%Z; EvUndo "alice" 5; EvUndo "alice" 4].
Proof.
  assert (sort_descending
            (zip (operation_id_list
                    (user_operations_of_log Toy.log_rows "alice" false))
               (timestamp_list
                  (user_operations_of_log Toy.log_rows "alice" false)))
          = [(5, 50%Z)] ++ (4, 40%Z) :: []) as Hops.
  { vm_compute. reflexivity. }
  split; [repeat split; try reflexivity; exact Hops |].
  apply (handle_rollback_stops_at_failure (ToyMore.env_quiet (Some 4))
           "minnie_test" "alice" None "carol" Toy.app
           {| CACHE := {[ "minnie_test" := "minnie_test" ]};
              current_table_id := Some "minnie_test";
              current_user_id := Some "carol"; world := O |}
           "minnie_test" 0%Z Toy.log_rows [(5, 50%Z)] [] (4, 40%Z)
           PreconditionError eq_refl eq_refl eq_refl Hops).
  - intros op w ->%list_elem_of_singleton. do 2 eexists.
    split; reflexivity.
  - intros w. eexists. reflexivity.
Defined.

(** * [ingest/initialization/abstract_layers.py] *)

(** ** [_filter_latest_ids] *)

Section argsort_facts.
Variable keys : list N.

Local Abbreviation key_at := (λ i : nat, default 0 (keys !! i)).

Lemma np_argsort_Permutation : np_argsort keys ≡ₚ seq 0 (length keys).
Proof.
  unfold np_argsort. rewrite merge_sort_Permutation.
  rewrite fst_zip; [done |]. by rewrite length_seq.
Qed.

Lemma np_argsort_elem_of (i : nat) :
  i ∈ np_argsort keys ↔ (i < length keys)%nat.
Proof.
  rewrite np_argsort_Permutation, elem_of_seq. lia.
Qed.

Lemma np_argsort_NoDup : NoDup (np_argsort keys).
Proof. rewrite np_argsort_Permutation. apply NoDup_seq. Qed.

Lemma StronglySorted_Forall {A} (R : relation A) (P : A → Prop)
    (l : list A) :
  StronglySorted R l → Forall P l →
  StronglySorted (λ a b, R a b ∧ P a ∧ P b) l.
Proof.
  induction 1 as [|x l Hs IH Hx]; intros Hall; [constructor |].
  apply Forall_cons in Hall as [HPx Hall].
  constructor; [by apply IH |].
  apply Forall_forall. intros y Hy.
  split; [by apply (proj1 (Forall_forall _ _) Hx) |].
  split; [done | by apply (proj1 (Forall_forall _ _) Hall)].
Qed.

Lemma np_argsort_sorted :
  StronglySorted (λ i j, key_at i ≤ key_at j) (np_argsort keys).
Proof.
  unfold np_argsort.
  apply (StronglySorted_fmap fst
           (λ a b, key_le a b ∧ keys !! a.1 = Some a.2
                   ∧ keys !! b.1 = Some b.2)).
  { intros [i x] [j y] (Hle & Hi & Hj). unfold key_le in Hle.
    simpl in *. by rewrite Hi, Hj. }
  apply StronglySorted_Forall.
  - assert (Transitive key_le) by (intros a b c; unfold key_le; lia).
    assert (Total key_le) by (intros a b; unfold key_le; lia).
    by apply (StronglySorted_merge_sort key_le).
  - apply Forall_forall. intros [i x].
    rewrite merge_sort_Permutation. intros Hin.
    apply list_elem_of_lookup in Hin as [k Hk].
    apply lookup_zip_Some in Hk as [Hseq Hkey].
    apply lookup_seq in Hseq as [-> _]. done.
Qed.

Lemma StronglySorted_reverse {A} (R : relation A) (l : list A) :
  StronglySorted R l → StronglySorted (flip R) (reverse l).
Proof.
  induction 1 as [|x l Hs IH Hx]; [constructor |].
  rewrite reverse_cons. apply StronglySorted_app_2; [|done |].
  - intros y z Hy ->%list_elem_of_singleton.
    rewrite elem_of_reverse in Hy.
    unfold flip. by apply (proj1 (Forall_forall _ _) Hx).
  - repeat constructor.
Qed.
End argsort_facts.

Section first_occurrences_facts.
Context {A : Type}.
Variable key : A → node_id.

Lemma select_cons {B} (x : B) (arr : list B) (b : bool) (mask : list bool) :
  select (x :: arr) (b :: mask)
  = if b then x :: select arr mask else select arr mask.
Proof.
  unfold select. cbn [zip zip_with]. rewrite filter_cons. simpl.
  by destruct b.
Qed.

(** The mask of the rows with no earlier occurrence selects the first
    occurrences. *)
Lemma select_first_occurrences {B} (f : A → B)
    (counter : gmap node_id nat) (seen : list node_id) (l : list A) :
  (∀ k, default 0%nat (counter !! k) = 0%nat ↔ k ∉ seen) →
  select (f <$> l)
    ((λ occ, bool_decide (occ = 0%nat))
       <$> occurrences_so_far counter (key <$> l))
  = f <$> first_occurrences key seen l.
Proof.
  revert counter seen. induction l as [|x l IH]; intros counter seen Hinv;
    [done |].
  cbn [fmap list_fmap occurrences_so_far first_occurrences].
  rewrite select_cons.
  destruct (decide (key x ∈ seen)) as [Hseen|Hnew].
  - rewrite (bool_decide_eq_true_2 (key x ∈ seen)) by done.
    rewrite bool_decide_eq_false_2 by (by rewrite Hinv; intros []).
    apply IH. intros k. destruct (decide (k = key x)) as [->|Hk].
    + rewrite lookup_insert_eq. simpl. split; [done | by intros []].
    + rewrite lookup_insert_ne by done. apply Hinv.
  - rewrite (bool_decide_eq_false_2 (key x ∈ seen)) by done.
    rewrite bool_decide_eq_true_2 by (by apply Hinv).
    cbn [fmap list_fmap]. f_equal.
    apply IH. intros k. destruct (decide (k = key x)) as [->|Hk].
    + rewrite lookup_insert_eq. simpl. split; [done |].
      intros []. left.
    + rewrite lookup_insert_ne by done. rewrite Hinv.
      rewrite not_elem_of_cons. tauto.
Qed.

Lemma first_occurrences_sublist (seen : list node_id) (l : list A) :
  first_occurrences key seen l `sublist_of` l.
Proof.
  revert seen. induction l as [|x l IH]; intros seen; [done |].
  cbn [first_occurrences]. case_bool_decide.
  - by apply sublist_cons.
  - by apply sublist_skip.
Qed.

(** An element is kept when its key is new and no element before it has
    the key. *)
Lemma first_occurrences_elem_of (seen : list node_id) (l : list A) (x : A) :
  NoDup l →
  x ∈ first_occurrences key seen l
  ↔ ∃ l1 l2, l = l1 ++ (x :: l2)
             ∧ (key x ∉ seen)
             ∧ ∀ y, y ∈ l1 → key y ≠ key x.
Proof.
  revert seen. induction l as [|z l IH]; intros seen Hnd.
  - split; [by intros ?%elem_of_nil |].
    intros (l1 & l2 & Hl & _). by destruct l1.
  - apply NoDup_cons in Hnd as [Hz Hnd].
    cbn [first_occurrences]. case_bool_decide as Hseen.
    + rewrite (IH seen Hnd). split.
      * intros (l1 & l2 & -> & Hnew & Hbefore).
        exists (z :: l1), l2. split; [done |]. split; [done |].
        intros y [->|Hy]%elem_of_cons; [congruence | by apply Hbefore].
      * intros (l1 & l2 & Hl & Hnew & Hbefore).
        destruct l1 as [|z' l1]; simplify_eq/=; [done |].
        exists l1, l2. split; [done |]. split; [done |].
        intros y Hy. apply Hbefore. by right.
    + rewrite elem_of_cons, (IH (key z :: seen) Hnd). split.
      * intros [->|(l1 & l2 & -> & Hnew & Hbefore)].
        -- exists [], l. split; [done |]. split; [done |].
           by intros y ?%elem_of_nil.
        -- apply not_elem_of_cons in Hnew as [Hxz Hnew].
           exists (z :: l1), l2. split; [done |]. split; [done |].
           intros y [->|Hy]%elem_of_cons; [congruence | by apply Hbefore].
      * intros (l1 & l2 & Hl & Hnew & Hbefore).
        destruct l1 as [|z' l1]; simplify_eq/=; [by left |].
        right. exists l1, l2. split; [done |]. split.
        -- apply not_elem_of_cons. split; [|done].
           intros Heq. apply (Hbefore z'); [left | done].
        -- intros y Hy. apply Hbefore. by right.
Qed.
End first_occurrences_facts.

Lemma take_positions_Return {A} (d : A) (arr : list A)
    (positions : list nat) :
  (∀ i, i ∈ positions → (i < length arr)%nat) →
  take_positions arr positions
  = Return ((λ i, default d (arr !! i)) <$> positions).
Proof.
  induction positions as [|i positions IH]; intros Hall; [done |].
  cbn [take_positions fmap list_fmap]. unfold index.
  destruct (lookup_lt_is_Some_2 arr i) as [x Hx]; [apply Hall; left |].
  rewrite Hx. cbn [result_bind].
  rewrite IH by (intros j Hj; apply Hall; by right).
  done.
Qed.

Lemma StronglySorted_sublist {A} (R : relation A) (l1 l2 : list A) :
  l1 `sublist_of` l2 → StronglySorted R l2 → StronglySorted R l1.
Proof.
  induction 1 as [|x l1 l2 Hsub IH|x l1 l2 Hsub IH]; intros Hs;
    [done | |].
  - apply StronglySorted_inv in Hs as [Hs Hx].
    constructor; [by apply IH |].
    apply Forall_forall. intros y Hy.
    apply (proj1 (Forall_forall _ _) Hx). by apply (elem_of_sublist l1).
  - apply StronglySorted_inv in Hs as [Hs _]. by apply IH.
Qed.

Lemma first_occurrences_covers {A} (key : A → node_id)
    (seen : list node_id) (l : list A) (x : A) :
  x ∈ l → key x ∉ seen →
  ∃ y, y ∈ first_occurrences key seen l ∧ key y = key x.
Proof.
  revert seen. induction l as [|z l IH]; intros seen Hx Hnew;
    [by apply elem_of_nil in Hx |].
  cbn [first_occurrences]. case_bool_decide as Hseen.
  - apply elem_of_cons in Hx as [->|Hx]; [done |].
    by apply IH.
  - destruct (decide (key z = key x)) as [Heq|Hne].
    + exists z. split; [left | done].
    + apply elem_of_cons in Hx as [->|Hx]; [done |].
      destruct (IH (key z :: seen) Hx) as (y & Hy & Hkey).
      { apply not_elem_of_cons. split; [congruence | done]. }
      exists y. split; [by right | done].
Qed.

Section filter_latest_ids_facts.
Variables row_ids segment_ids max_children_ids : list node_id.
Hypothesis row_ids_length : length row_ids = length segment_ids.
Hypothesis max_children_ids_length :
  length max_children_ids = length segment_ids.
Hypothesis segment_ids_distinct : NoDup segment_ids.

Local Abbreviation segment_at := (λ i : nat, default 0 (segment_ids !! i)).
Local Abbreviation max_child_at :=
  (λ i : nat, default 0 (max_children_ids !! i)).
Local Abbreviation sorting := (reverse (np_argsort segment_ids)).

Lemma sorting_elem_of (i : nat) :
  i ∈ sorting ↔ (i < length segment_ids)%nat.
Proof. rewrite elem_of_reverse. apply np_argsort_elem_of. Qed.

Lemma sorting_NoDup : NoDup sorting.
Proof. rewrite reverse_Permutation. apply np_argsort_NoDup. Qed.

Lemma sorting_descending :
  StronglySorted (λ i j, segment_at j < segment_at i) sorting.
Proof.
  pose proof (StronglySorted_reverse _ _ (np_argsort_sorted segment_ids))
    as Hsorted.
  pose proof sorting_NoDup as Hnd.
  assert (∀ i, i ∈ sorting → (i < length segment_ids)%nat) as Hin.
  { intros i. apply sorting_elem_of. }
  induction Hsorted as [|i l Hs IH Hi]; [constructor |].
  apply NoDup_cons in Hnd as [Hil Hnd].
  constructor.
  { apply IH; [done |]. intros j Hj. apply Hin. by right. }
  apply Forall_forall. intros j Hj.
  pose proof (proj1 (Forall_forall _ _) Hi j Hj) as Hle.
  unfold flip in Hle.
  destruct (lookup_lt_is_Some_2 segment_ids i) as [si Hsi];
    [apply Hin; left |].
  destruct (lookup_lt_is_Some_2 segment_ids j) as [sj Hsj];
    [apply Hin; by right |].
  cbn beta in Hle |- *. unfold node_id in *. rewrite Hsi, Hsj in Hle |- *.
  simpl in Hle |- *.
  assert (si ≠ sj); [|lia].
  intros ->. apply Hil.
  by rewrite (NoDup_lookup _ _ _ _ segment_ids_distinct Hsi Hsj).
Qed.

Lemma filter_latest_ids_positions :
  _filter_latest_ids row_ids segment_ids max_children_ids
  = Return ((λ i, default 0 (row_ids !! i))
              <$> first_occurrences max_child_at [] sorting).
Proof.
  unfold _filter_latest_ids.
  rewrite (take_positions_Return 0 row_ids)
    by (intros i Hi; apply sorting_elem_of in Hi; unfold node_id in *; lia).
  rewrite (take_positions_Return 0 max_children_ids)
    by (intros i Hi; apply sorting_elem_of in Hi; unfold node_id in *; lia).
  cbn [result_bind]. f_equal.
  apply (select_first_occurrences max_child_at).
  intros k. rewrite lookup_empty. simpl. split; [|done].
  by intros _ ?%elem_of_nil.
Qed.

Lemma first_occurrences_latest (i : nat) :
  i ∈ first_occurrences max_child_at [] sorting
  ↔ latest_row segment_ids max_children_ids i.
Proof.
  rewrite (first_occurrences_elem_of _ _ _ _ sorting_NoDup).
  pose proof sorting_descending as Hsorted.
  pose proof sorting_NoDup as Hnd.
  unfold latest_row, node_id in *.
  split.
  - intros (l1 & l2 & Hl & _ & Hbefore).
    assert (i < length segment_ids)%nat as Hi.
    { apply sorting_elem_of. rewrite Hl. apply elem_of_app. right. left. }
    destruct (lookup_lt_is_Some_2 segment_ids i) as [si Hsi]; [done |].
    destruct (lookup_lt_is_Some_2 max_children_ids i) as [mi Hmi]; [lia |].
    exists si, mi. split; [done |]. split; [done |].
    intros j sj Hmj Hsj.
    assert (j ∈ sorting) as Hj.
    { apply sorting_elem_of. by apply lookup_lt_is_Some_1. }
    rewrite Hl in Hj, Hsorted.
    apply elem_of_app in Hj as [Hj|Hj].
    + destruct (Hbefore j Hj). cbn beta. unfold node_id in *.
      by rewrite Hmi, Hmj.
    + apply StronglySorted_app_1_r, StronglySorted_inv in Hsorted
        as [_ Hafter].
      apply elem_of_cons in Hj as [->|Hj].
      * assert (sj = si) by congruence. lia.
      * pose proof (proj1 (Forall_forall _ _) Hafter j Hj) as Hlt.
        cbn beta in Hlt. unfold node_id in *.
        rewrite Hsi, Hsj in Hlt. simpl in Hlt. lia.
  - intros (si & mi & Hsi & Hmi & Hlatest).
    assert (i ∈ sorting) as Hi.
    { apply sorting_elem_of. by apply lookup_lt_is_Some_1. }
    apply list_elem_of_split in Hi as (l1 & l2 & Hl).
    exists l1, l2. split; [done |].
    split; [by intros ?%elem_of_nil |].
    intros j Hj Hsame.
    assert (j < length segment_ids)%nat as Hjn.
    { apply sorting_elem_of. rewrite Hl. apply elem_of_app. by left. }
    destruct (lookup_lt_is_Some_2 segment_ids j) as [sj Hsj]; [done |].
    destruct (lookup_lt_is_Some_2 max_children_ids j) as [mj Hmj]; [lia |].
    cbn beta in Hsame. unfold node_id in *.
    rewrite Hmi, Hmj in Hsame. simpl in Hsame. subst mj.
    pose proof (Hlatest j sj Hmj Hsj) as Hle.
    rewrite Hl in Hsorted.
    pose proof (StronglySorted_app_1_elem_of _ _ _ j i Hsorted Hj
                  ltac:(left)) as Hlt.
    cbn beta in Hlt. rewrite Hsi, Hsj in Hlt. simpl in Hlt. lia.
Qed.
End filter_latest_ids_facts.

(** Of the rows that have the same largest child, [_filter_latest_ids]
    keeps exactly one: the row with the largest segment id.  For row ids,
    segment ids and largest children given as arrays of one length, with
    distinct segment ids, it returns the row ids at the positions whose row
    has the largest segment id among the rows with its largest child; no
    position is taken twice, every largest child that occurs is the largest
    child of a kept row, and the kept rows come by descending segment
    id. *)
Theorem filter_latest_ids_keeps_latest
    (row_ids segment_ids max_children_ids : list node_id) :
  length row_ids = length segment_ids →
  length max_children_ids = length segment_ids →
  NoDup segment_ids →
  ∃ (positions : list nat) (kept : list node_id),
    _filter_latest_ids row_ids segment_ids max_children_ids = Return kept
    ∧ Forall2 (λ i row_id, row_ids !! i = Some row_id) positions kept
    ∧ NoDup positions
    ∧ (∀ i, i ∈ positions ↔ latest_row segment_ids max_children_ids i)
    ∧ (∀ j max_child_id,
         max_children_ids !! j = Some max_child_id →
         ∃ i, i ∈ positions ∧ max_children_ids !! i = Some max_child_id)
    ∧ StronglySorted
        (λ i j, default 0 (segment_ids !! j) < default 0 (segment_ids !! i))
        positions.
Proof.
  intros Hrows Hmax Hdistinct.
  set (positions :=
         first_occurrences (λ i : nat, default 0 (max_children_ids !! i)) []
           (reverse (np_argsort segment_ids))).
  assert (∀ i, i ∈ positions → (i < length segment_ids)%nat) as Hin.
  { intros i Hi. apply sorting_elem_of.
    apply (elem_of_sublist positions); [done |].
    apply first_occurrences_sublist. }
  exists positions, ((λ i, default 0 (row_ids !! i)) <$> positions).
  split; [by apply filter_latest_ids_positions |].
  split.
  { apply Forall2_fmap_r, Forall_Forall2_diag, Forall_forall.
    intros i Hi%Hin. simpl.
    destruct (lookup_lt_is_Some_2 row_ids i) as [r Hr];
      [unfold node_id in *; lia |].
    unfold node_id in *. by rewrite Hr. }
  split.
  { apply (sublist_NoDup _ (reverse (np_argsort segment_ids)));
      [apply sorting_NoDup | apply first_occurrences_sublist]. }
  split; [intros i; by apply (first_occurrences_latest row_ids) |].
  split.
  { intros j mj Hmj.
    destruct (first_occurrences_covers
                (λ i : nat, default 0 (max_children_ids !! i)) []
                (reverse (np_argsort segment_ids)) j)
      as (i & Hi & Hkey).
    - apply sorting_elem_of. apply lookup_lt_Some in Hmj.
      unfold node_id in *. lia.
    - by intros ?%elem_of_nil.
    - exists i. split; [done |].
      destruct (lookup_lt_is_Some_2 max_children_ids i) as [mi Hmi];
        [apply Hin in Hi; unfold node_id in *; lia |].
      cbn beta in Hkey. unfold node_id in *.
      rewrite Hmi, Hmj in Hkey. simpl in Hkey. by subst. }
  apply (StronglySorted_sublist _ _ (reverse (np_argsort segment_ids)));
    [apply first_occurrences_sublist
    |by apply (sorting_descending row_ids segment_ids max_children_ids)].
Qed.

(** Four rows of a chunk: the rows 10 and 11 have the largest child 100,
    the rows 12 and 13 the largest child 200. *)
Lemma filter_latest_ids_keeps_latest_witness :
  (length [10; 11; 12; 13] = length [1; 4; 3; 2]
   ∧ length [100; 100; 200; 200] = length [1; 4; 3; 2]
   ∧ NoDup [1; 4; 3; 2])
  ∧ _filter_latest_ids [10; 11; 12; 13] [1; 4; 3; 2] [100; 100; 200; 200]
    = Return [11; 12].
Proof.
  assert (NoDup [1; 4; 3; 2]) as Hdistinct.
  { apply (bool_decide_unpack _). vm_compute. exact I. }
  split; [repeat split; try reflexivity; exact Hdistinct |].
  destruct (filter_latest_ids_keeps_latest [10; 11; 12; 13] [1; 4; 3; 2]
              [100; 100; 200; 200] eq_refl eq_refl Hdistinct)
    as (positions & kept & Hrun & _).
  vm_compute. reflexivity.
Defined.

(** ** [_get_cross_edges_raw] *)

Lemma first_occurrences_id_elem_of (seen l : list node_id) (x : node_id) :
  x ∈ first_occurrences id seen l ↔ x ∈ l ∧ x ∉ seen.
Proof.
  revert seen. induction l as [|z l IH]; intros seen.
  - simpl. split; [by intros ?%elem_of_nil | by intros [?%elem_of_nil _]].
  - cbn [first_occurrences]. unfold id at 1 2. case_bool_decide as Hseen.
    + rewrite IH, elem_of_cons. split; [tauto |].
      intros [[->|Hx] Hnew]; [done | tauto].
    + rewrite elem_of_cons, IH. rewrite !elem_of_cons. unfold id.
      split.
      * intros [->|[Hx Hnew]]; [split; [by left | done] |].
        split; [by right |]. intros Hs. apply Hnew. by right.
      * intros [[->|Hx] Hnew]; [by left |].
        destruct (decide (x = z)) as [->|Hxz]; [by left |].
        right. split; [done |]. by intros [?|?].
Qed.

Section get_cross_edges_raw_facts.
Variable range_read : gmap node_id (option (list edge)).

Lemma dict_set_new {V} (d : list (node_id * V)) (key : node_id)
    (value : V) :
  key ∉ d.*1 → dict_set d key value = d ++ [(key, value)].
Proof.
  induction d as [|[k v] d IH]; intros Hnew; [done |].
  cbn [dict_set]. apply not_elem_of_cons in Hnew as [Hk Hnew].
  rewrite bool_decide_eq_false_2 by (simpl in Hk; congruence).
  simpl. by rewrite IH.
Qed.

Lemma dict_set_same {V} (d : list (node_id * V)) (key : node_id)
    (value : V) :
  key ∈ d.*1 → (∀ v, (key, v) ∈ d → v = value) → dict_set d key value = d.
Proof.
  induction d as [|[k v] d IH]; intros Hin Hsame;
    [by apply elem_of_nil in Hin |].
  cbn [dict_set]. case_bool_decide as Hk.
  - subst k. f_equal. f_equal. symmetry. apply Hsame. left.
  - f_equal. apply IH.
    + apply elem_of_cons in Hin as [Hin|Hin]; [simpl in Hin; congruence |].
      done.
    + intros v' Hv'. apply Hsame. by right.
Qed.

(** The items the first loop adds for the ids in [l2ids]. *)
Local Abbreviation items_of l2ids :=
  (omap (λ l2id, match range_read !! l2id with
                 | Some (Some edges) => Some (l2id, edges.*2)
                 | _ => None
                 end) l2ids).

Lemma neighboring_chunk_supervoxels_spec (l2ids seen : list node_id)
    (d : list (node_id * list node_id)) :
  (∀ l2id, l2id ∈ l2ids → is_Some (range_read !! l2id)) →
  (∀ k, k ∈ d.*1 → k ∈ seen) →
  (∀ k, k ∈ seen → k ∉ d.*1 → neighbors_of range_read k = []
                              ∧ ∀ edges, range_read !! k ≠ Some (Some edges)) →
  (∀ k v, (k, v) ∈ d → ∃ edges, range_read !! k = Some (Some edges)
                                ∧ v = edges.*2) →
  neighboring_chunk_supervoxels range_read l2ids d
  = Return (d ++ items_of (first_occurrences id seen l2ids)).
Proof.
  revert seen d.
  induction l2ids as [|l2id l2ids IH]; intros seen d Hrows Hd Hseen Hvalues.
  - simpl. by rewrite app_nil_r.
  - cbn [neighboring_chunk_supervoxels first_occurrences]. unfold id at 1 2.
    destruct (Hrows l2id) as [row Hrow]; [left |].
    unfold edge, node_id in *. rewrite Hrow. cbn [getitem result_bind].
    assert (∀ l, l ∈ l2ids → is_Some (range_read !! l)) as Hrest.
    { intros l Hl. apply Hrows. by right. }
    case_bool_decide as Hold.
    + destruct row as [edges|].
      * rewrite dict_set_same; [by apply IH | |].
        -- destruct (decide (l2id ∈ d.*1)) as [Hin|Hout]; [done |].
           destruct (Hseen l2id Hold Hout) as [_ Hno]. by destruct (Hno edges).
        -- intros v Hv. destruct (Hvalues _ _ Hv) as (edges' & Hrow' & ->).
           congruence.
      * by apply IH.
    + assert (l2id ∉ d.*1) as Hout by (intros Hin; by apply Hold, Hd).
      destruct row as [edges|].
      * rewrite dict_set_new by done.
        cbn [omap list_omap]. rewrite Hrow.
        rewrite (IH (l2id :: seen)); [by rewrite <-app_assoc | done | | |].
        -- intros k. rewrite fmap_app, elem_of_app, elem_of_cons. simpl.
           rewrite list_elem_of_singleton. intros [Hk|Hk]; auto.
        -- intros k [->|Hk]%elem_of_cons Hnot.
           ++ destruct Hnot. rewrite fmap_app. apply elem_of_app. right.
              simpl. left.
           ++ apply Hseen; [done |]. intros Hin. apply Hnot.
              rewrite fmap_app. apply elem_of_app. by left.
        -- intros k v [Hkv|Hkv]%elem_of_app; [by apply Hvalues |].
           apply list_elem_of_singleton in Hkv. injection Hkv as -> ->.
           eauto.
      * cbn [omap list_omap]. rewrite Hrow.
        apply IH; [done | | |done].
        -- intros k Hk. right. by apply Hd.
        -- intros k [->|Hk]%elem_of_cons Hnot.
           ++ unfold neighbors_of, edge, node_id, id. rewrite Hrow.
              split; [done | congruence].
           ++ by apply Hseen.
Qed.

Lemma zip_replicate_fmap {B} (x : node_id) (l : list B) :
  zip (replicate (length l) x) l = (λ y, (x, y)) <$> l.
Proof. induction l as [|y l IH]; [done |]. simpl. by rewrite IH. Qed.

Lemma flat_map_items_of (l2ids : list node_id) :
  flat_map
    (λ item : node_id * list node_id,
       let '(l2id, nebor_svs) := item in
       zip (replicate (length nebor_svs) l2id) nebor_svs)
    (items_of l2ids)
  = flat_map (λ l2id, (λ sv, (l2id, sv)) <$> neighbors_of range_read l2id)
      l2ids.
Proof.
  induction l2ids as [|l2id l2ids IH]; [done |].
  cbn [omap list_omap flat_map]. unfold neighbors_of at 1.
  destruct (range_read !! l2id) as [[edges|]|]; simpl; try exact IH.
  by rewrite IH, zip_replicate_fmap.
Qed.
End get_cross_edges_raw_facts.

(** When every id of [l2ids] is a row of the range read,
    [_get_cross_edges_raw] returns, for the ids in the order of their
    first occurrence, the edges from the id to the far end of each cross
    edge of its row: the near ends stored in the row are replaced by the
    row id, a row without the cross edge column gives nothing, and an id
    listed more than once gives its edges once. *)
Theorem get_cross_edges_raw_edges
    (range_read : gmap node_id (option (list edge)))
    (l2ids : list node_id) :
  (∀ l2id, l2id ∈ l2ids → is_Some (range_read !! l2id)) →
  ∃ cross_edges,
    _get_cross_edges_raw range_read l2ids = Return cross_edges
    ∧ cross_edges
      = flat_map
          (λ l2id, (λ sv, (l2id, sv)) <$> neighbors_of range_read l2id)
          (first_occurrences id [] l2ids)
    ∧ NoDup (first_occurrences id [] l2ids)
    ∧ ∀ parent sv,
        (parent, sv) ∈ cross_edges
        ↔ parent ∈ l2ids
          ∧ ∃ edges, range_read !! parent = Some (Some edges)
                     ∧ sv ∈ edges.*2.
Proof.
  intros Hrows. eexists. split; [|split; [reflexivity |]].
  - unfold _get_cross_edges_raw.
    rewrite (neighboring_chunk_supervoxels_spec range_read l2ids [] [])
      by (try done; intros;
          match goal with
          | H : _ ∈ _ |- _ => simpl in H; by apply elem_of_nil in H
          end).
    cbn [result_bind app]. by rewrite flat_map_items_of.
  - split.
    + assert (∀ seen, (∀ x, x ∈ first_occurrences id seen l2ids → x ∉ seen)
                      ∧ NoDup (first_occurrences id seen l2ids)) as Hnd;
        [|apply Hnd].
      induction l2ids as [|z l IH]; intros seen.
      * split; [by intros x ?%elem_of_nil | constructor].
      * assert (∀ l2id, l2id ∈ l → is_Some (range_read !! l2id)) as Hrest.
        { intros k Hk. apply Hrows. by right. }
        split.
        { intros x Hx. by apply first_occurrences_id_elem_of in Hx as [_ ?]. }
        cbn [first_occurrences]. unfold id at 1 2. case_bool_decide.
        -- by apply IH.
        -- constructor; [|by apply IH].
           intros Hz%first_occurrences_id_elem_of. destruct Hz as [_ Hz].
           apply Hz. left.
    + intros parent sv.
      rewrite (list_elem_of_In (flat_map _ _)), in_flat_map. split.
      * intros (l2id & Hl2id%list_elem_of_In & Hin%list_elem_of_In).
        apply list_elem_of_fmap in Hin as (sv' & [= -> ->] & Hsv).
        apply first_occurrences_id_elem_of in Hl2id as [Hl2id _].
        split; [done |]. unfold neighbors_of in Hsv.
        destruct (range_read !! l2id) as [[edges|]|];
          [eauto | by apply elem_of_nil in Hsv | by apply elem_of_nil in Hsv].
      * intros (Hparent & edges & Hrow & Hsv).
        exists parent. split.
        -- apply list_elem_of_In, first_occurrences_id_elem_of.
           split; [done | by intros ?%elem_of_nil].
        -- apply list_elem_of_In, list_elem_of_fmap. exists sv.
           split; [done |]. unfold neighbors_of. by rewrite Hrow.
Qed.

(** A chunk with the rows 20, 21 and 22, the second without cross edges,
    read for the ids 20, 21, 20 and 22. *)
Lemma get_cross_edges_raw_edges_witness :
  (∀ l2id, l2id ∈ [20; 21; 20; 22] →
           is_Some (ToyIngest.range_read !! l2id))
  ∧ _get_cross_edges_raw ToyIngest.range_read [20; 21; 20; 22]
    = Return [(20, 5); (20, 6); (22, 7)].
Proof.
  assert (∀ l2id, l2id ∈ [20; 21; 20; 22] →
                  is_Some (ToyIngest.range_read !! l2id)) as Hrows.
  { intros l2id Hin.
    repeat (apply elem_of_cons in Hin as [->|Hin]; [by eexists |]).
    by apply elem_of_nil in Hin. }
  split; [exact Hrows |].
  destruct (get_cross_edges_raw_edges ToyIngest.range_read [20; 21; 20; 22]
              Hrows) as (cross_edges & Hrun & _).
  vm_compute. reflexivity.
Defined.

(** ** The self edges of [add_layer] *)

Lemma ravel_app (a b : list edge) : ravel (a ++ b) = ravel a ++ ravel b.
Proof. unfold ravel. apply flat_map_app. Qed.

Lemma ravel_self_edges (l : list node_id) (x : node_id) :
  x ∈ ravel (zip l l) ↔ x ∈ l.
Proof.
  induction l as [|y l IH]; [done |].
  cbn [zip zip_with]. change (ravel ((y, y) :: zip l l))
    with (y :: y :: ravel (zip l l)).
  rewrite !elem_of_cons, IH. tauto.
Qed.

(** The edge list [add_layer] builds its graph from covers every child:
    it is the list of cross edges, unchanged, followed by one edge from a
    child to itself for every child that no cross edge touches; a child
    that a cross edge touches gets none.  So every child is an endpoint of
    some edge, and the endpoints are the children and the endpoints of the
    cross edges. *)
Theorem add_layer_edges_cover_children
    (children_ids : list node_id) (edge_ids : list edge) :
  (∃ add_edge_ids,
     extended_edge_ids children_ids edge_ids = edge_ids ++ add_edge_ids
     ∧ ∀ e, e ∈ add_edge_ids
            ↔ e.1 = e.2 ∧ e.1 ∈ children_ids ∧ e.1 ∉ ravel edge_ids)
  ∧ (∀ child, child ∈ children_ids →
              child ∈ ravel (extended_edge_ids children_ids edge_ids))
  ∧ ∀ x, x ∈ ravel (extended_edge_ids children_ids edge_ids)
         ↔ x ∈ children_ids ∨ x ∈ ravel edge_ids.
Proof.
  assert (∀ l : list node_id, zip l l = (λ x, (x, x)) <$> l) as Hzip.
  { induction l as [|x l IH]; [done |]. simpl. by rewrite IH. }
  assert (∀ x, x ∈ isolated_node_ids children_ids edge_ids
               ↔ x ∈ children_ids ∧ x ∉ ravel edge_ids) as Hisolated.
  { intros x. unfold isolated_node_ids.
    by rewrite list_elem_of_filter, np_unique_elem_of, (comm and). }
  assert (∀ e, e ∈ zip (isolated_node_ids children_ids edge_ids)
                     (isolated_node_ids children_ids edge_ids)
               ↔ e.1 = e.2 ∧ e.1 ∈ children_ids ∧ e.1 ∉ ravel edge_ids)
    as Hadded.
  { intros [x y]. rewrite Hzip, list_elem_of_fmap. simpl. split.
    - intros (z & [= -> ->] & Hz%Hisolated). tauto.
    - intros (<- & Hx & Hnot). exists x. split; [done |].
      by apply Hisolated. }
  assert (∀ x, x ∈ ravel (extended_edge_ids children_ids edge_ids)
               ↔ x ∈ children_ids ∨ x ∈ ravel edge_ids) as Hends.
  { intros x. unfold extended_edge_ids.
    rewrite ravel_app, elem_of_app, ravel_self_edges, Hisolated.
    destruct (decide (x ∈ ravel edge_ids)); tauto. }
  split; [|split; [|exact Hends]].
  - eexists. split; [reflexivity | exact Hadded].
  - intros child Hchild. apply Hends. by left.
Qed.

(** ** [_write_components] *)

Section write_components_facts.
Context {Store Affinity : Type}.
Variable cg_instance : @IngestGraph Store Affinity.

Local Abbreviation Rows := (list (@Row HierarchyCell Affinity)).

Lemma written_rows_app (t1 t2 : list (@IngestEvent Affinity)) :
  written_rows (t1 ++ t2) = written_rows t1 ++ written_rows t2.
Proof. unfold written_rows. apply flat_map_app. Qed.

Lemma reservations_app (t1 t2 : list (@IngestEvent Affinity)) :
  reservations (t1 ++ t2) = reservations t1 ++ reservations t2.
Proof. unfold reservations. apply omap_app. Qed.

Lemma batches_app (t1 t2 : list (@IngestEvent Affinity)) :
  batches (t1 ++ t2) = batches t1 ++ batches t2.
Proof. unfold batches. apply omap_app. Qed.

Lemma components_rows_cons (time_stamp : timestamp) (parent_id : node_id)
    (parent_ids : list node_id) (node_ids : list node_id)
    (ccs : list (list node_id)) :
  components_rows (Affinity := Affinity) time_stamp (parent_id :: parent_ids)
    (node_ids :: ccs)
  = component_rows time_stamp parent_id node_ids
    ++ components_rows time_stamp parent_ids ccs.
Proof. reflexivity. Qed.

(** The loop over the components of one layer: the rows written and the
    rows still held are the rows it was given followed by the rows of the
    components, under the reserved ids from position [i_cc] on. *)
Lemma write_layer_components_spec (time_stamp : timestamp)
    (reserved : list node_id) (ccs : list (list node_id)) :
  ∀ (i_cc : nat) (rows rows' : Rows) (s s' : Store)
    (t : list (@IngestEvent Affinity)),
    write_layer_components cg_instance time_stamp reserved i_cc ccs rows s
    = (Return rows', s', t) →
    written_rows t ++ rows'
    = rows ++ components_rows time_stamp (drop i_cc reserved) ccs
    ∧ reservations t = []
    ∧ (i_cc + length ccs ≤ length reserved ∨ ccs = [])%nat
    ∧ Forall full_batch (batches t).
Proof.
  induction ccs as [|node_ids ccs IH]; intros i_cc rows rows' s s' t Hrun.
  - injection Hrun as <- <- <-.
    unfold components_rows. rewrite zip_with_nil_r. simpl.
    rewrite app_nil_r. split; [done |]. split; [done |].
    split; [by right | constructor].
  - cbn [write_layer_components] in Hrun.
    unfold bind at 1, lift at 1, index in Hrun.
    destruct (reserved !! i_cc) as [parent_id|] eqn:Hparent; [|done].
    assert (drop i_cc reserved = parent_id :: drop (S i_cc) reserved)
      as Hdrop by (by apply drop_S).
    assert (i_cc < length reserved)%nat as Hlt
      by (by apply lookup_lt_Some in Hparent).
    unfold bind at 1 in Hrun.
    destruct (100000 <? N.of_nat (length (rows ++ component_rows time_stamp
                parent_id node_ids)))%N eqn:Hfull.
    + unfold bind at 1, cg_bulk_write_rows, bind at 1, emit, call, ret
        in Hrun.
      destruct (bulk_write_rows cg_instance s _) as [[[]|e] s1] eqn:Hwrite;
        [|done].
      destruct (write_layer_components cg_instance time_stamp reserved
                  (S i_cc) ccs [] s1) as [[r s2] t2] eqn:Hrest.
      injection Hrun as -> <- <-.
      destruct (IH _ _ _ _ _ _ Hrest) as (Hrows & Hres & Hlen & Hbatches).
      rewrite Hdrop, components_rows_cons.
      cbn [app].
      change (written_rows (EvWritten ?r :: ?t))
        with (r ++ written_rows t).
      change (reservations (EvWritten ?r :: ?t)) with (reservations t).
      change (batches (EvWritten ?r :: ?t)) with (r :: batches t).
      rewrite <-!app_assoc, Hrows. cbn [app].
      split; [done |]. split; [done |]. split.
      * left. destruct Hlen as [Hlen| ->]; simpl; lia.
      * constructor; [|done]. unfold full_batch. by apply N.ltb_lt.
    + unfold ret at 1 in Hrun.
      destruct (write_layer_components cg_instance time_stamp reserved
                  (S i_cc) ccs _ s) as [[r s2] t2] eqn:Hrest.
      injection Hrun as -> <- <-.
      destruct (IH _ _ _ _ _ _ Hrest) as (Hrows & Hres & Hlen & Hbatches).
      rewrite Hdrop, components_rows_cons.
      cbn [app]. rewrite Hrows, <-!app_assoc.
      repeat split; [done | | done].
      left. destruct Hlen as [Hlen| ->]; simpl; lia.
Qed.

Lemma write_parent_layer_spec (time_stamp : timestamp)
    (parent_chunk_id_dict : gmap N node_id)
    (cc_connections : gmap N (list (list node_id))) (parent_layer_id : N)
    (rows rows' : Rows) (s s' : Store) (t : list (@IngestEvent Affinity)) :
  write_parent_layer cg_instance time_stamp parent_chunk_id_dict
    cc_connections parent_layer_id rows s
  = (Return rows', s', t) →
  let ccs := default [] (cc_connections !! parent_layer_id) in
  ∃ chunk_id reserved,
    parent_chunk_id_dict !! parent_layer_id = Some chunk_id
    ∧ reservations t = [(chunk_id, length ccs, reserved)]
    ∧ written_rows t ++ rows'
      = rows ++ components_rows time_stamp reserved ccs
    ∧ (length ccs ≤ length reserved)%nat
    ∧ Forall full_batch (batches t).
Proof.
  intros Hrun ccs. unfold write_parent_layer in Hrun. fold ccs in Hrun.
  unfold bind at 1, lift at 1 in Hrun.
  destruct (parent_chunk_id_dict !! parent_layer_id) as [chunk_id|];
    [|done].
  cbn [getitem] in Hrun.
  unfold bind at 1, cg_get_unique_node_id_range in Hrun.
  destruct (get_unique_node_id_range cg_instance s chunk_id (length ccs))
    as [[reserved|e] s1]; [|done].
  destruct (write_layer_components cg_instance time_stamp reserved 0 ccs
              rows s1) as [[r s2] t2] eqn:Hloop.
  injection Hrun as -> <- <-.
  destruct (write_layer_components_spec _ _ _ _ _ _ _ _ _ Hloop)
    as (Hrows & Hres & Hlen & Hbatches).
  exists chunk_id, reserved. split; [done |].
  cbn [app].
  change (written_rows (EvReserved ?c ?n ?ids :: ?t)) with (written_rows t).
  change (reservations (EvReserved ?c ?n ?ids :: ?t))
    with ((c, n, ids) :: reservations t).
  change (batches (EvReserved ?c ?n ?ids :: ?t)) with (batches t).
  rewrite Hres. rewrite drop_0 in Hrows.
  split; [done |]. split; [done |]. split; [|done].
  destruct Hlen as [Hlen|Hnil]; [lia |]. rewrite Hnil. simpl. lia.
Qed.

(** The first loop sends the components that skip to the top layer and
    keeps the others in the layer, each list in the order of [ccs]; when
    the layer is the top layer both names mean the one list of all
    components. *)
Lemma route_components (layer_id : N) (ccs : list (list node_id))
    (acc : gmap N (list (list node_id))) (here top : list (list node_id)) :
  acc !! layer_id = Some here →
  acc !! n_layers cg_instance = Some top →
  (layer_id ≠ n_layers cg_instance →
   foldl (route_component cg_instance layer_id) acc ccs !! layer_id
   = Some (here ++ filter (λ cc, ¬ skips cg_instance cc) ccs)
   ∧ foldl (route_component cg_instance layer_id) acc ccs
       !! n_layers cg_instance
     = Some (top ++ filter (skips cg_instance) ccs))
  ∧ (layer_id = n_layers cg_instance →
     foldl (route_component cg_instance layer_id) acc ccs !! layer_id
     = Some (here ++ ccs)).
Proof.
  revert acc here top.
  induction ccs as [|node_ids ccs IH]; intros acc here top Hhere Htop.
  - simpl. rewrite !app_nil_r. by split.
  - cbn [foldl]. unfold route_component at 2 4 6.
    destruct (decide (skips cg_instance node_ids)) as [Hskip|Hstay].
    + destruct Hskip as [Huse Hone].
      rewrite Huse, (bool_decide_eq_true_2 _ Hone). simpl.
      destruct (decide (layer_id = n_layers cg_instance)) as [Heq|Hne].
      * destruct (IH (alter (λ l, l ++ [node_ids]) (n_layers cg_instance)
                        acc) (here ++ [node_ids]) (top ++ [node_ids]))
          as [_ Hsame].
        { rewrite Heq, lookup_alter_eq. rewrite <-Heq, Hhere. done. }
        { rewrite lookup_alter_eq, Htop. done. }
        split; [done |]. intros _. rewrite (Hsame Heq), <-app_assoc. done.
      * destruct (IH (alter (λ l, l ++ [node_ids]) (n_layers cg_instance)
                        acc) here (top ++ [node_ids])) as [Hsplit _].
        { by rewrite lookup_alter_ne. }
        { rewrite lookup_alter_eq, Htop. done. }
        split; [|done]. intros _. destruct (Hsplit Hne) as [-> ->].
        rewrite (filter_cons_False (λ cc, ¬ skips cg_instance cc))
          by (intros Hno; apply Hno; by split).
        rewrite (filter_cons_True (skips cg_instance)) by (by split).
        by rewrite <-app_assoc.
    + assert (use_skip_connections cg_instance
              && bool_decide (length node_ids = 1%nat) = false) as ->.
      { apply not_true_iff_false. intros [Huse Hone]%andb_true_iff.
        apply Hstay. split; [done | by apply bool_decide_eq_true in Hone]. }
      destruct (IH (alter (λ l, l ++ [node_ids]) layer_id acc)
                  (here ++ [node_ids])
                  (if decide (layer_id = n_layers cg_instance)
                   then top ++ [node_ids] else top))
        as [Hsplit Hsame].
      { rewrite lookup_alter_eq, Hhere. done. }
      { destruct (decide (layer_id = n_layers cg_instance)) as [Heq|Hne].
        - rewrite <-Heq, lookup_alter_eq. rewrite Heq, Htop. done.
        - by rewrite lookup_alter_ne. }
      split.
      * intros Hne. destruct (Hsplit Hne) as [-> ->].
        rewrite decide_False by done.
        rewrite (filter_cons_True (λ cc, ¬ skips cg_instance cc)) by done.
        rewrite (filter_cons_False (skips cg_instance)) by done.
        by rewrite <-app_assoc.
      * intros Heq. rewrite (Hsame Heq), <-app_assoc. done.
Qed.

Lemma layer_components_routed (layer_id : N) (ccs : list (list node_id)) :
  (layer_id ≠ n_layers cg_instance →
   layer_components cg_instance layer_id ccs layer_id
   = filter (λ cc, ¬ skips cg_instance cc) ccs
   ∧ layer_components cg_instance layer_id ccs (n_layers cg_instance)
     = filter (skips cg_instance) ccs)
  ∧ (layer_id = n_layers cg_instance →
     layer_components cg_instance layer_id ccs layer_id = ccs).
Proof.
  unfold layer_components.
  destruct (route_components layer_id ccs
              (<[n_layers cg_instance := []]> (<[layer_id := []]> ∅)) [] [])
    as [Hsplit Hsame].
  - destruct (decide (layer_id = n_layers cg_instance)) as [<-|Hne].
    + by rewrite lookup_insert_eq.
    + rewrite lookup_insert_ne by done. by rewrite lookup_insert_eq.
  - by rewrite lookup_insert_eq.
  - split.
    + intros Hne. by destruct (Hsplit Hne) as [-> ->].
    + intros Heq. by rewrite (Hsame Heq).
Qed.

(** A run of [_write_components] that returns. *)
Lemma write_components_run (layer_id : N) (parent_chunk_id : node_id)
    (ccs : list (list node_id)) (time_stamp : option timestamp)
    (s s' : Store) (t : list (@IngestEvent Affinity)) :
  _write_components cg_instance layer_id parent_chunk_id ccs time_stamp s
  = (Return tt, s', t) →
  let stamp := get_valid_timestamp cg_instance time_stamp in
  let here := layer_components cg_instance layer_id ccs layer_id in
  let top :=
    layer_components cg_instance layer_id ccs (n_layers cg_instance) in
  ∃ (chunk_here chunk_top : node_id) (ids_here ids_top : list node_id)
    (flushed : list Rows) (last : Rows),
    get_parent_chunk_id_dict cg_instance parent_chunk_id !! layer_id
    = Some chunk_here
    ∧ get_parent_chunk_id_dict cg_instance parent_chunk_id
        !! n_layers cg_instance
      = Some chunk_top
    ∧ reservations t
      = [(chunk_here, length here, ids_here);
         (chunk_top, length top, ids_top)]
    ∧ (length here ≤ length ids_here)%nat
    ∧ (length top ≤ length ids_top)%nat
    ∧ written_rows t
      = components_rows stamp ids_here here
        ++ components_rows stamp ids_top top
    ∧ batches t = flushed ++ [last]
    ∧ Forall full_batch flushed
    ∧ ∃ before, t = before ++ [EvWritten last].
Proof.
  intros Hrun stamp here top. unfold _write_components in Hrun.
  fold stamp in Hrun.
  unfold bind at 1 in Hrun.
  destruct (write_parent_layer cg_instance stamp _ _ layer_id [] s)
    as [[[rows1|e1] s1] t1] eqn:Hfirst; [|done].
  unfold bind at 1 in Hrun.
  destruct (write_parent_layer cg_instance stamp _ _ (n_layers cg_instance)
              rows1 s1) as [[[rows2|e2] s2] t2] eqn:Hsecond; [|done].
  unfold cg_bulk_write_rows, bind, emit, call in Hrun.
  destruct (bulk_write_rows cg_instance s2 rows2) as [[[]|e] s3]; [|done].
  injection Hrun as <- <-.
  destruct (write_parent_layer_spec _ _ _ _ _ _ _ _ _ Hfirst)
    as (chunk_here & ids_here & Hchunk1 & Hres1 & Hrows1 & Hlen1 & Hb1).
  destruct (write_parent_layer_spec _ _ _ _ _ _ _ _ _ Hsecond)
    as (chunk_top & ids_top & Hchunk2 & Hres2 & Hrows2 & Hlen2 & Hb2).
  fold (layer_components cg_instance layer_id ccs layer_id) in *.
  fold (layer_components cg_instance layer_id ccs (n_layers cg_instance))
    in *.
  fold here in Hres1, Hrows1, Hlen1. fold top in Hres2, Hrows2, Hlen2.
  exists chunk_here, chunk_top, ids_here, ids_top,
    (batches t1 ++ batches t2), rows2.
  assert (∃ before, t1 ++ t2 ++ [EvWritten rows2] ++ []
                    = before ++ [EvWritten rows2]) as Hlast.
  { exists (t1 ++ t2). by rewrite app_nil_r, app_assoc. }
  rewrite !reservations_app, !written_rows_app, !batches_app.
  rewrite Hres1, Hres2. simpl. rewrite !app_nil_r.
  repeat split; try done.
  - simpl in Hrows1. by rewrite Hrows2, app_assoc, Hrows1.
  - by rewrite app_assoc.
  - by apply Forall_app.
Qed.
End write_components_facts.

Section write_components_rows_facts.
Context {Store Affinity : Type}.

Lemma components_rows_timestamp (time_stamp : timestamp)
    (parent_ids : list node_id) (ccs : list (list node_id)) :
  Forall (λ row : @Row HierarchyCell Affinity,
            row_timestamp row = time_stamp)
    (components_rows time_stamp parent_ids ccs).
Proof.
  unfold components_rows. apply Forall_forall. intros row.
  rewrite list_elem_of_In, in_flat_map.
  intros ([parent_id node_ids] & _ & Hrow%list_elem_of_In).
  unfold component_rows in Hrow. simpl in Hrow.
  apply elem_of_app in Hrow as [Hrow|Hrow].
  - by apply list_elem_of_fmap in Hrow as (node_id & -> & _).
  - by apply list_elem_of_singleton in Hrow as ->.
Qed.

(** With an id reserved for every component, each component has its rows
    among the rows of all: the row of its parent, which lists its nodes,
    and for every node the row that names the parent. *)
Lemma components_rows_component (time_stamp : timestamp)
    (parent_ids : list node_id) (ccs : list (list node_id))
    (node_ids : list node_id) :
  (length ccs ≤ length parent_ids)%nat →
  node_ids ∈ ccs →
  ∃ parent_id,
    parent_id ∈ parent_ids
    ∧ mutate_row parent_id (NodeCells (ChildCell node_ids)) time_stamp
      ∈ components_rows (Affinity := Affinity) time_stamp parent_ids ccs
    ∧ ∀ node_id,
        node_id ∈ node_ids →
        mutate_row node_id (NodeCells (ParentCell parent_id)) time_stamp
        ∈ components_rows (Affinity := Affinity) time_stamp parent_ids ccs.
Proof.
  intros Hlen Hin.
  apply list_elem_of_lookup in Hin as [i Hi].
  destruct (lookup_lt_is_Some_2 parent_ids i) as [parent_id Hparent].
  { apply lookup_lt_Some in Hi. lia. }
  assert ((parent_id, node_ids) ∈ zip parent_ids ccs) as Hzip.
  { apply list_elem_of_lookup. exists i. by apply lookup_zip_Some. }
  assert (∀ row, row ∈ component_rows (Affinity := Affinity) time_stamp
                         parent_id node_ids →
                 row ∈ components_rows time_stamp parent_ids ccs) as Hsub.
  { intros row Hrow. unfold components_rows.
    apply list_elem_of_In, in_flat_map. exists (parent_id, node_ids).
    split; by apply list_elem_of_In. }
  exists parent_id. split; [by apply list_elem_of_lookup_2 in Hparent |].
  split.
  - apply Hsub. unfold component_rows. apply elem_of_app. right. left.
  - intros node_id Hnode. apply Hsub. unfold component_rows.
    apply elem_of_app. left. apply list_elem_of_fmap. by exists node_id.
Qed.

Lemma components_rows_length (time_stamp : timestamp)
    (parent_ids : list node_id) (ccs : list (list node_id)) :
  (length ccs ≤ length parent_ids)%nat →
  length (components_rows (Affinity := Affinity) time_stamp parent_ids ccs)
  = sum_list ((λ node_ids, S (length node_ids)) <$> ccs).
Proof.
  revert parent_ids. induction ccs as [|node_ids ccs IH];
    intros [|parent_id parent_ids] Hlen; simpl in Hlen; try done; [lia |].
  rewrite components_rows_cons, length_app.
  rewrite IH by lia. unfold component_rows.
  rewrite length_app, length_fmap, fmap_cons.
  change (sum_list (?x :: ?l)) with (x + sum_list l)%nat.
  cbn [length]. lia.
Qed.

End write_components_rows_facts.

(** Below the top layer, a run of [_write_components] that returns gives
    every component exactly one parent.  It reserves one id per component
    that stays in the layer from the parent chunk of the layer, and one per
    component that skips (a single node, in a graph with skip connections)
    from the parent chunk of the top layer; the rows it writes are, for the
    components that stay and then for those that skip, each in the order
    given, the rows of the nodes naming the parent followed by the row of
    the parent listing the nodes, all with the one valid time stamp. *)
Theorem write_components_one_parent_each {Store Affinity : Type}
    (cg_instance : @IngestGraph Store Affinity) (layer_id : N)
    (parent_chunk_id : node_id) (ccs : list (list node_id))
    (time_stamp : option timestamp) (s : Store) :
  layer_id ≠ n_layers cg_instance →
  outcome (_write_components cg_instance layer_id parent_chunk_id ccs
             time_stamp s)
  = Return tt →
  let t :=
    events (_write_components cg_instance layer_id parent_chunk_id ccs
              time_stamp s) in
  let stamp := get_valid_timestamp cg_instance time_stamp in
  let stay := filter (λ cc, ¬ skips cg_instance cc) ccs in
  let skip := filter (skips cg_instance) ccs in
  ∃ (chunk_here chunk_top : node_id) (ids_here ids_top : list node_id),
    get_parent_chunk_id_dict cg_instance parent_chunk_id !! layer_id
    = Some chunk_here
    ∧ get_parent_chunk_id_dict cg_instance parent_chunk_id
        !! n_layers cg_instance
      = Some chunk_top
    ∧ reservations t
      = [(chunk_here, length stay, ids_here);
         (chunk_top, length skip, ids_top)]
    ∧ written_rows t
      = components_rows stamp ids_here stay
        ++ components_rows stamp ids_top skip
    ∧ Forall (λ row, row_timestamp row = stamp) (written_rows t)
    ∧ ∀ node_ids,
        node_ids ∈ ccs →
        ∃ parent_id,
          parent_id ∈ (if decide (skips cg_instance node_ids)
                       then ids_top else ids_here)
          ∧ mutate_row parent_id (NodeCells (ChildCell node_ids)) stamp
            ∈ written_rows t
          ∧ ∀ node_id,
              node_id ∈ node_ids →
              mutate_row node_id (NodeCells (ParentCell parent_id)) stamp
              ∈ written_rows t.
Proof.
  intros Hlayer Hout t stamp stay skip.
  pose proof (run_eta (_write_components cg_instance layer_id
                         parent_chunk_id ccs time_stamp s)) as Hrun.
  rewrite Hout in Hrun. fold t in Hrun.
  destruct (write_components_run cg_instance _ _ _ _ _ _ _ Hrun)
    as (chunk_here & chunk_top & ids_here & ids_top & flushed & last
        & Hchunk1 & Hchunk2 & Hres & Hlen1 & Hlen2 & Hrows & _).
  destruct (proj1 (layer_components_routed cg_instance layer_id ccs) Hlayer)
    as [Hstay Hskip].
  cbn zeta in Hres, Hlen1, Hlen2, Hrows.
  rewrite Hstay in Hres, Hlen1, Hrows. rewrite Hskip in Hres, Hlen2, Hrows.
  fold stamp stay skip in Hres, Hlen1, Hlen2, Hrows.
  exists chunk_here, chunk_top, ids_here, ids_top.
  split; [done |]. split; [done |]. split; [done |]. split; [done |].
  split.
  { rewrite Hrows. apply Forall_app.
    split; apply components_rows_timestamp. }
  intros node_ids Hin. rewrite Hrows.
  destruct (decide (skips cg_instance node_ids)) as [Hskips|Hstays].
  - destruct (components_rows_component (Affinity := Affinity) stamp
                ids_top skip node_ids Hlen2)
      as (parent_id & Hparent & Hchild & Hnodes).
    { by apply list_elem_of_filter. }
    exists parent_id. split; [done |].
    split; [apply elem_of_app; by right |].
    intros node_id Hnode. apply elem_of_app. right. by apply Hnodes.
  - destruct (components_rows_component (Affinity := Affinity) stamp
                ids_here stay node_ids Hlen1)
      as (parent_id & Hparent & Hchild & Hnodes).
    { by apply list_elem_of_filter. }
    exists parent_id. split; [done |].
    split; [apply elem_of_app; by left |].
    intros node_id Hnode. apply elem_of_app. left. by apply Hnodes.
Qed.

(** Three components written below layer 3 of the toy graph: the two pairs
    get parents in the chunk of layer 3, the single node one in the chunk
    of the top layer. *)
Lemma write_components_one_parent_each_witness :
  (3 ≠ n_layers ToyIngest.cg
   ∧ outcome (_write_components ToyIngest.cg 3 300 [[1; 2]; [3]; [4; 5]]
                None O)
     = Return tt)
  ∧ written_rows
      (events (_write_components ToyIngest.cg 3 300 [[1; 2]; [3]; [4; 5]]
                 None O))
    = [ mutate_row 1 (NodeCells (ParentCell 301)) 0%Z;
        mutate_row 2 (NodeCells (ParentCell 301)) 0%Z;
        mutate_row 301 (NodeCells (ChildCell [1; 2])) 0%Z;
        mutate_row 4 (NodeCells (ParentCell 302)) 0%Z;
        mutate_row 5 (NodeCells (ParentCell 302)) 0%Z;
        mutate_row 302 (NodeCells (ChildCell [4; 5])) 0%Z;
        mutate_row 3 (NodeCells (ParentCell 403)) 0%Z;
        mutate_row 403 (NodeCells (ChildCell [3])) 0%Z ].
Proof.
  assert (3 ≠ n_layers ToyIngest.cg) as Hlayer by done.
  assert (outcome (_write_components ToyIngest.cg 3 300
                     [[1; 2]; [3]; [4; 5]] None O)
          = Return tt) as Hout by (vm_compute; reflexivity).
  split; [by split |].
  destruct (write_components_one_parent_each ToyIngest.cg 3 300
              [[1; 2]; [3]; [4; 5]] None O Hlayer Hout)
    as (chunk_here & chunk_top & ids_here & ids_top & _).
  vm_compute. reflexivity.
Defined.

(** At the top layer [_write_components] writes every component twice.
    There the two layers its loop goes through are one layer and
    [cc_connections] has one entry, holding all the components: a run that
    returns reserves ids for all of them in the top chunk twice and writes
    the rows of all the components under the first ids, then again under
    the second. *)
Theorem write_components_top_layer_twice {Store Affinity : Type}
    (cg_instance : @IngestGraph Store Affinity)
    (parent_chunk_id : node_id) (ccs : list (list node_id))
    (time_stamp : option timestamp) (s : Store) :
  outcome (_write_components cg_instance (n_layers cg_instance)
             parent_chunk_id ccs time_stamp s)
  = Return tt →
  let t :=
    events (_write_components cg_instance (n_layers cg_instance)
              parent_chunk_id ccs time_stamp s) in
  let stamp := get_valid_timestamp cg_instance time_stamp in
  ∃ (chunk_top : node_id) (ids_first ids_second : list node_id),
    get_parent_chunk_id_dict cg_instance parent_chunk_id
      !! n_layers cg_instance
    = Some chunk_top
    ∧ reservations t
      = [(chunk_top, length ccs, ids_first);
         (chunk_top, length ccs, ids_second)]
    ∧ written_rows t
      = components_rows stamp ids_first ccs
        ++ components_rows stamp ids_second ccs
    ∧ length (written_rows t)
      = (2 * sum_list ((λ node_ids, S (length node_ids)) <$> ccs))%nat.
Proof.
  intros Hout t stamp.
  pose proof (run_eta (_write_components cg_instance (n_layers cg_instance)
                         parent_chunk_id ccs time_stamp s)) as Hrun.
  rewrite Hout in Hrun. fold t in Hrun.
  destruct (write_components_run cg_instance _ _ _ _ _ _ _ Hrun)
    as (chunk_here & chunk_top & ids_first & ids_second & flushed & last
        & Hchunk1 & Hchunk2 & Hres & Hlen1 & Hlen2 & Hrows & _).
  cbn zeta in Hres, Hlen1, Hlen2, Hrows.
  rewrite !(proj2 (layer_components_routed cg_instance
                     (n_layers cg_instance) ccs) eq_refl)
    in Hres, Hlen1, Hlen2, Hrows.
  fold stamp in Hrows.
  assert (chunk_here = chunk_top) as -> by congruence.
  exists chunk_top, ids_first, ids_second.
  split; [done |]. split; [done |]. split; [done |].
  rewrite Hrows, length_app.
  rewrite !components_rows_length by done. lia.
Qed.

(** One component written at the top layer of the toy graph. *)
Lemma write_components_top_layer_twice_witness :
  outcome (_write_components ToyIngest.cg (n_layers ToyIngest.cg) 400
             [[1; 2]] None O)
  = Return tt
  ∧ written_rows
      (events (_write_components ToyIngest.cg (n_layers ToyIngest.cg) 400
                 [[1; 2]] None O))
    = [ mutate_row 1 (NodeCells (ParentCell 401)) 0%Z;
        mutate_row 2 (NodeCells (ParentCell 401)) 0%Z;
        mutate_row 401 (NodeCells (ChildCell [1; 2])) 0%Z;
        mutate_row 1 (NodeCells (ParentCell 402)) 0%Z;
        mutate_row 2 (NodeCells (ParentCell 402)) 0%Z;
        mutate_row 402 (NodeCells (ChildCell [1; 2])) 0%Z ].
Proof.
  assert (outcome (_write_components ToyIngest.cg (n_layers ToyIngest.cg)
                     400 [[1; 2]] None O)
          = Return tt) as Hout by (vm_compute; reflexivity).
  split; [exact Hout |].
  destruct (write_components_top_layer_twice ToyIngest.cg 400 [[1; 2]]
              None O Hout)
    as (chunk_top & ids_first & ids_second & _).
  vm_compute. reflexivity.
Defined.



(** ** The message of [publish_edit] *)

(** [publish_edit] sends one message: to the exchange named by
    [PYCHUNKEDGRAPH_EDITS_EXCHANGE] (["pychunkedgraph"] when unset), with
    the table id as its only attribute and a payload of 8 bytes per id that
    [np.frombuffer] reads back as the new level 2 ids.  The argument
    [is_priority] has no effect on what is sent, so the [priority] query
    argument changes nothing in a run of [handle_undo] or [handle_redo]. *)
Theorem publish_edit_message {World Handle Coord : Type}
    (env : @Environment World Handle Coord) (table_id : string)
    (lvl2_ids : list node_id) (is_priority : bool) (a : @App World Handle) :
  Forall (λ i, i < NODE_ID_MODULUS) lvl2_ids →
  (∃ payload,
     events (publish_edit env table_id lvl2_ids is_priority a)
     = [EvPublish (Coord := Coord)
          (default "pychunkedgraph"
             (getenv env (world a) "PYCHUNKEDGRAPH_EDITS_EXCHANGE"))
          payload [("table_id", table_id)]]
     ∧ length payload = (8 * length lvl2_ids)%nat
     ∧ np_frombuffer payload = Return lvl2_ids)
  ∧ publish_edit env table_id lvl2_ids (negb is_priority) a
    = publish_edit env table_id lvl2_ids is_priority a
  ∧ ∀ operation priority priority' auth_user,
      handle_undo env table_id operation priority auth_user a
      = handle_undo env table_id operation priority' auth_user a
      ∧ handle_redo env table_id operation priority auth_user a
        = handle_redo env table_id operation priority' auth_user a.
Proof.
  intros Hbound. split; [|split; [done |]].
  - exists (tobytes lvl2_ids). unfold publish_edit, events.
    destruct (messaging_publish env (world a) _ _ _) as [r w]. simpl.
    split; [done |]. split; [apply tobytes_length |].
    by apply np_frombuffer_tobytes.
  - intros operation priority priority' auth_user.
    unfold handle_undo, handle_redo, publish_new_lvl2_ids, publish_edit.
    done.
Qed.

(** The message for the new level 2 id 200 of the table ["minnie_test"]. *)
Lemma publish_edit_message_witness :
  Forall (λ i, i < NODE_ID_MODULUS) [200]
  ∧ ∃ payload,
      events (publish_edit (Toy.env true) "minnie_test" [200] true Toy.app)
      = [EvPublish (Coord := list Z) "pychunkedgraph" payload
           [("table_id", "minnie_test")]]
      ∧ length payload = 8%nat
      ∧ np_frombuffer payload = Return [200].
Proof.
  assert (Forall (λ i, i < NODE_ID_MODULUS) [200]) as Hbound.
  { repeat constructor. }
  split; [exact Hbound |].
  exact (proj1 (publish_edit_message (Toy.env true) "minnie_test" [200] true
                  Toy.app Hbound)).
Defined.
